(** * Twilight indexer: sync engine, message decode registry, enrichment worker

    A shallow embedding of
      - [packages/indexer/src/decoders/*.ts]  (message decode registry),
      - [packages/indexer/src/sync.ts]        (block ingestion),
      - [packages/indexer/src/enrichment.ts]  (zkOS enrichment worker),
    followed by the properties established about them. *)

From Stdlib Require Import ZArith String Ascii Bool Lia DecimalString DecimalZ DecimalPos.
From stdpp Require Import base option list sorting gmap strings.

Local Open Scope string_scope.
Local Open Scope list_scope.
Local Open Scope Z_scope.
#[local] Set Warnings "-register-all".

(* ===================================================================== *)
(** * JavaScript values *)
(* ===================================================================== *)

Module Js.

(** Values that reach the indexer: JSON documents delivered by the LCD and
    decode APIs, extended with the [bigint]s the decoders produce.  Numbers
    are the integer-valued ones plus [NaN]; an object is the list of its own
    enumerable properties in enumeration order. *)
Inductive JValue : Type :=
| JUndefined
| JNull
| JBool (b : bool)
| JNum (n : Z)
| JNaN
| JStr (s : string)
| JBigInt (z : Z)
| JArr (items : list JValue)
| JObj (fields : list (string * JValue)).

Definition Obj : Type := list (string * JValue).



(** [ToBoolean]. *)
Definition truthy (v : JValue) : bool :=
  match v with
  | JUndefined | JNull | JNaN => false
  | JBool b => b
  | JNum n => negb (Z.eqb n 0)
  | JStr s => negb (String.eqb s "")
  | JBigInt z => negb (Z.eqb z 0)
  | JArr _ | JObj _ => true
  end.

(** [a || b]. *)
Definition jsOr (a b : JValue) : JValue := if truthy a then a else b.

(** [o.k] / [o[k]]: own property or [undefined]. *)
Fixpoint get (o : Obj) (k : string) : JValue :=
  match o with
  | [] => JUndefined
  | (k', v) :: rest => if String.eqb k' k then v else get rest k
  end.

(** [delete o[k]]. *)
Definition deleteKey (k : string) (o : Obj) : Obj :=
  List.filter (fun kv => negb (String.eqb (fst kv) k)) o.

(** [s.includes(needle)]. *)
Fixpoint includes (s needle : string) : bool :=
  String.prefix needle s ||
  match s with
  | EmptyString => false
  | String _ rest => includes rest needle
  end.

(** [s.startsWith(p)]. *)
Definition startsWith (s p : string) : bool := String.prefix p s.

Definition lowerAscii (c : ascii) : ascii :=
  let n := nat_of_ascii c in
  if ((65 <=? n) && (n <=? 90))%nat then ascii_of_nat (n + 32) else c.

(** [s.toLowerCase()] on the ASCII range. *)
Fixpoint toLowerCase (s : string) : string :=
  match s with
  | EmptyString => EmptyString
  | String c rest => String (lowerAscii c) (toLowerCase rest)
  end.

(** [n.toString()] for an integer-valued number or a bigint. *)
Definition toString (z : Z) : string := NilZero.string_of_int (Z.to_int z).

(** [s.split('.').pop()]: the part after the last dot. *)
Fixpoint lastSegment (s : string) (acc : string) : string :=
  match s with
  | EmptyString => acc
  | String c rest =>
      if Ascii.eqb c "."%char then lastSegment rest EmptyString
      else lastSegment rest (String.append acc (String c EmptyString))
  end.

(** The two conversions of the runtime that the code calls and that are not
    part of the repository.  [BigInt v] is [None] when the call throws;
    [parseInt10 v] is [None] when [parseInt(v, 10)] is [NaN].
    [parseInt10_toString] is the round trip the checkpoint relies on. *)
Class JsRuntime : Type := {
  BigInt : JValue -> option Z;
  parseInt10 : JValue -> option Z;
  parseInt10_toString : forall z, parseInt10 (JStr (toString z)) = Some z
}.

Definition numOrNaN (o : option Z) : JValue :=
  match o with
  | Some n => JNum n
  | None => JNaN
  end.

(** A runtime for decimal strings: both conversions accept exactly the
    decimal numerals (and integer-valued numbers). *)
Definition decimalOfString (s : string) : option Z :=
  Z.of_int <$> NilZero.int_of_string s.

Definition decimalOfValue (v : JValue) : option Z :=
  match v with
  | JStr s => decimalOfString s
  | JNum n => Some n
  | JBigInt z => Some z
  | _ => None
  end.

Lemma toString_roundtrip z : decimalOfValue (JStr (toString z)) = Some z.
Proof.
  unfold decimalOfValue, decimalOfString, toString.
  rewrite NilZero.isi.
  - simpl. f_equal. apply DecimalZ.of_to.
  - destruct z; simpl; try discriminate.
    intros [= H]. revert H. apply DecimalPos.Unsigned.to_uint_nonnil.
  - destruct z; simpl; try discriminate.
    intros [= H]. revert H. apply DecimalPos.Unsigned.to_uint_nonnil.
Qed.

Definition decimalRuntime : JsRuntime :=
  {| BigInt := decimalOfValue;
     parseInt10 := decimalOfValue;
     parseInt10_toString := toString_roundtrip |}.

End Js.

(* ===================================================================== *)
(** * Asynchronous code as state-and-exception passing *)
(* ===================================================================== *)

Module Exec.

(** How an awaited call ends: with a value, or by throwing. *)
Inductive Result (E A : Type) : Type :=
| Ok (a : A)
| Throw (e : E).
Arguments Ok {E A} a.
Arguments Throw {E A} e.

(** A computation over a process state [S] that may throw an [E]. *)
Definition M (S E A : Type) : Type := S -> Result E A * S.

Section Combinators.
Context {S E : Type}.

Definition ret {A} (a : A) : M S E A := fun s => (Ok a, s).

Definition throw {A} (e : E) : M S E A := fun s => (Throw e, s).

Definition bind {A B} (m : M S E A) (k : A -> M S E B) : M S E B := fun s =>
  match m s with
  | (Ok a, s') => k a s'
  | (Throw e, s') => (Throw e, s')
  end.

(** [try { m } catch (error) { handler(error) }] *)
Definition tryCatch {A} (m : M S E A) (handler : E -> M S E A) : M S E A := fun s =>
  match m s with
  | (Ok a, s') => (Ok a, s')
  | (Throw e, s') => handler e s'
  end.

(** [try { m } finally { cleanup }] *)
Definition tryFinally {A} (m : M S E A) (cleanup : M S E unit) : M S E A := fun s =>
  match m s with
  | (r, s') =>
      match cleanup s' with
      | (Ok _, s'') => (r, s'')
      | (Throw e, s'') => (Throw e, s'')
      end
  end.

Definition liftResult {A} (r : Result E A) : M S E A := fun s => (r, s).

Definition gets {A} (f : S -> A) : M S E A := fun s => (Ok (f s), s).

Definition modify (f : S -> S) : M S E unit := fun s => (Ok tt, f s).

Fixpoint forEach {A} (l : list A) (f : A -> M S E unit) : M S E unit :=
  match l with
  | [] => ret tt
  | x :: rest => bind (f x) (fun _ => forEach rest f)
  end.

(** [await sleep(ms)] *)
Definition sleep (ms : Z) : M S E unit := ret tt.

End Combinators.

(** How a run of a [while (!stopRequested)] loop bounded by a number of
    iterations ended: the loop was left, or the bound was reached with the
    loop still going. *)
Inductive LoopEnd : Type :=
| Stopped
| StillRunning.

(** Vocabulary for statements about computations: [m] relates the state it
    is run from to the state it leaves; [m] returns from every state; [m]
    throws only errors of a given kind. *)
Definition Preserves {S E A} (R : S -> S -> Prop) (m : M S E A) : Prop :=
  forall s r s', m s = (r, s') -> R s s'.

Definition NeverThrows {S E A} (m : M S E A) : Prop :=
  forall s, exists a s', m s = (Ok a, s').

Definition ThrowsOnly {S E A} (P : E -> Prop) (m : M S E A) : Prop :=
  forall s e s', m s = (Throw e, s') -> P e.

Module Notations.
Notation "'let*' x ':=' m 'in' k" := (bind m (fun x => k))
  (at level 10, x name, m at level 100, k at level 200).
Notation "m ';;' k" := (bind m (fun _ => k))
  (at level 100, k at level 200, right associativity).
End Notations.

End Exec.

(* ===================================================================== *)
(** * Message decode registry ([decoders/]) *)
(* ===================================================================== *)

Module Decoders.
Import Js.

(** ** [types.ts] *)

Definition CONFIRM_BTC_DEPOSIT := "/twilightproject.nyks.bridge.MsgConfirmBtcDeposit".
Definition REGISTER_BTC_DEPOSIT_ADDRESS := "/twilightproject.nyks.bridge.MsgRegisterBtcDepositAddress".
Definition REGISTER_RESERVE_ADDRESS := "/twilightproject.nyks.bridge.MsgRegisterReserveAddress".
Definition BOOTSTRAP_FRAGMENT := "/twilightproject.nyks.bridge.MsgBootstrapFragment".
Definition WITHDRAW_BTC_REQUEST := "/twilightproject.nyks.bridge.MsgWithdrawBtcRequest".
Definition SWEEP_PROPOSAL := "/twilightproject.nyks.bridge.MsgSweepProposal".
Definition WITHDRAW_TX_SIGNED := "/twilightproject.nyks.bridge.MsgWithdrawTxSigned".
Definition WITHDRAW_TX_FINAL := "/twilightproject.nyks.bridge.MsgWithdrawTxFinal".
Definition CONFIRM_BTC_WITHDRAW := "/twilightproject.nyks.bridge.MsgConfirmBtcWithdraw".
Definition SIGN_REFUND := "/twilightproject.nyks.bridge.MsgSignRefund".
Definition BROADCAST_TX_SWEEP := "/twilightproject.nyks.bridge.MsgBroadcastTxSweep".
Definition SIGN_SWEEP := "/twilightproject.nyks.bridge.MsgSignSweep".
Definition PROPOSE_REFUND_HASH := "/twilightproject.nyks.bridge.MsgProposeRefundHash".
Definition UNSIGNED_TX_SWEEP := "/twilightproject.nyks.bridge.MsgUnsignedTxSweep".
Definition UNSIGNED_TX_REFUND := "/twilightproject.nyks.bridge.MsgUnsignedTxRefund".
Definition BROADCAST_TX_REFUND := "/twilightproject.nyks.bridge.MsgBroadcastTxRefund".
Definition PROPOSE_SWEEP_ADDRESS := "/twilightproject.nyks.bridge.MsgProposeSweepAddress".
Definition SET_DELEGATE_ADDRESSES := "/twilightproject.nyks.forks.MsgSetDelegateAddresses".
Definition SEEN_BTC_CHAIN_TIP := "/twilightproject.nyks.forks.MsgSeenBtcChainTip".
Definition SIGNER_APPLICATION := "/twilightproject.nyks.volt.MsgSignerApplication".
Definition ACCEPT_SIGNERS := "/twilightproject.nyks.volt.MsgAcceptSigners".
Definition TRANSFER_TX := "/twilightproject.nyks.zkos.MsgTransferTx".
Definition MINT_BURN_TRADING_BTC := "/twilightproject.nyks.zkos.MsgMintBurnTradingBtc".

(** [MESSAGE_TYPES] as its entries, constant name first. *)
Definition MESSAGE_TYPES : list (string * string) :=
  [ ("CONFIRM_BTC_DEPOSIT", CONFIRM_BTC_DEPOSIT);
    ("REGISTER_BTC_DEPOSIT_ADDRESS", REGISTER_BTC_DEPOSIT_ADDRESS);
    ("REGISTER_RESERVE_ADDRESS", REGISTER_RESERVE_ADDRESS);
    ("BOOTSTRAP_FRAGMENT", BOOTSTRAP_FRAGMENT);
    ("WITHDRAW_BTC_REQUEST", WITHDRAW_BTC_REQUEST);
    ("SWEEP_PROPOSAL", SWEEP_PROPOSAL);
    ("WITHDRAW_TX_SIGNED", WITHDRAW_TX_SIGNED);
    ("WITHDRAW_TX_FINAL", WITHDRAW_TX_FINAL);
    ("CONFIRM_BTC_WITHDRAW", CONFIRM_BTC_WITHDRAW);
    ("SIGN_REFUND", SIGN_REFUND);
    ("BROADCAST_TX_SWEEP", BROADCAST_TX_SWEEP);
    ("SIGN_SWEEP", SIGN_SWEEP);
    ("PROPOSE_REFUND_HASH", PROPOSE_REFUND_HASH);
    ("UNSIGNED_TX_SWEEP", UNSIGNED_TX_SWEEP);
    ("UNSIGNED_TX_REFUND", UNSIGNED_TX_REFUND);
    ("BROADCAST_TX_REFUND", BROADCAST_TX_REFUND);
    ("PROPOSE_SWEEP_ADDRESS", PROPOSE_SWEEP_ADDRESS);
    ("SET_DELEGATE_ADDRESSES", SET_DELEGATE_ADDRESSES);
    ("SEEN_BTC_CHAIN_TIP", SEEN_BTC_CHAIN_TIP);
    ("SIGNER_APPLICATION", SIGNER_APPLICATION);
    ("ACCEPT_SIGNERS", ACCEPT_SIGNERS);
    ("TRANSFER_TX", TRANSFER_TX);
    ("MINT_BURN_TRADING_BTC", MINT_BURN_TRADING_BTC) ].

(** [getAllMessageTypes]: [Object.values(MESSAGE_TYPES)]. *)
Definition getAllMessageTypes : list string := map snd MESSAGE_TYPES.

(** [MESSAGE_TYPE_NAMES[msgType]]: the reverse mapping. *)
Definition MESSAGE_TYPE_NAMES (msgType : string) : option string :=
  fst <$> find (fun kv => String.eqb (snd kv) msgType) MESSAGE_TYPES.

Definition getModuleFromType (msgType : string) : option string :=
  if includes msgType ".bridge." then Some "bridge"
  else if includes msgType ".forks." then Some "forks"
  else if includes msgType ".volt." then Some "volt"
  else if includes msgType ".zkos." then Some "zkos"
  else None.

Record DecodedMessage : Type := {
  type : string;
  typeName : string;
  module : option string;
  data : Obj;
  raw : Obj
}.

Section WithRuntime.
Context {rt : JsRuntime}.

(** [BigInt(msg.k || '0')] and [parseInt(msg.k || '0', 10)]. *)
Definition big0 (msg : Obj) (k : string) : option Z :=
  BigInt (jsOr (get msg k) (JStr "0")).

Definition int0 (msg : Obj) (k : string) : JValue :=
  numOrNaN (parseInt10 (jsOr (get msg k) (JStr "0"))).

(** ** [bridge.ts] *)

Definition decodeConfirmBtcDeposit (msg : Obj) : option Obj :=
  depositAmount ← big0 msg "depositAmount";
  btcHeight ← big0 msg "height";
  Some [ ("reserveAddress", get msg "reserveAddress");
         ("depositAmount", JBigInt depositAmount);
         ("btcHeight", JBigInt btcHeight);
         ("btcHash", get msg "hash");
         ("twilightDepositAddress", get msg "twilightDepositAddress");
         ("oracleAddress", get msg "oracleAddress") ].

Definition decodeRegisterBtcDepositAddress (msg : Obj) : option Obj :=
  btcSatoshiTestAmount ← big0 msg "btcSatoshiTestAmount";
  twilightStakingAmount ← big0 msg "twilightStakingAmount";
  Some [ ("btcDepositAddress", get msg "btcDepositAddress");
         ("btcSatoshiTestAmount", JBigInt btcSatoshiTestAmount);
         ("twilightStakingAmount", JBigInt twilightStakingAmount);
         ("twilightAddress", get msg "twilightAddress") ].

Definition decodeRegisterReserveAddress (msg : Obj) : option Obj :=
  fragmentId ← big0 msg "fragmentId";
  Some [ ("fragmentId", JBigInt fragmentId);
         ("reserveScript", get msg "reserveScript");
         ("reserveAddress", get msg "reserveAddress");
         ("judgeAddress", get msg "judgeAddress") ].

Definition decodeBootstrapFragment (msg : Obj) : option Obj :=
  signerApplicationFee ← big0 msg "signerApplicationFee";
  Some [ ("judgeAddress", get msg "judgeAddress");
         ("numOfSigners", int0 msg "numOfSigners");
         ("threshold", int0 msg "threshold");
         ("signerApplicationFee", JBigInt signerApplicationFee);
         ("fragmentFeeBips", int0 msg "fragmentFeeBips");
         ("arbitraryData", get msg "arbitraryData");
         ("validatorAddress", get msg "validatorAddress") ].

Definition decodeWithdrawBtcRequest (msg : Obj) : option Obj :=
  reserveId ← big0 msg "reserveId";
  withdrawAmount ← big0 msg "withdrawAmount";
  Some [ ("withdrawAddress", get msg "withdrawAddress");
         ("reserveId", JBigInt reserveId);
         ("withdrawAmount", JBigInt withdrawAmount);
         ("twilightAddress", get msg "twilightAddress") ].

Definition decodeSweepProposal (msg : Obj) : option Obj :=
  reserveId ← big0 msg "reserveId";
  btcBlockNumber ← big0 msg "BtcBlockNumber";
  btcRelayCapacityValue ← big0 msg "btcRelayCapacityValue";
  unlockHeight ← big0 msg "UnlockHeight";
  roundId ← big0 msg "roundId";
  Some [ ("reserveId", JBigInt reserveId);
         ("newReserveAddress", get msg "newReserveAddress");
         ("judgeAddress", get msg "judgeAddress");
         ("btcBlockNumber", JBigInt btcBlockNumber);
         ("btcRelayCapacityValue", JBigInt btcRelayCapacityValue);
         ("btcTxHash", get msg "btcTxHash");
         ("unlockHeight", JBigInt unlockHeight);
         ("roundId", JBigInt roundId);
         ("oracleAddress", get msg "oracleAddress") ].

Definition decodeWithdrawTxSigned (msg : Obj) : option Obj :=
  Some [ ("creator", get msg "creator");
         ("validatorAddress", get msg "validatorAddress");
         ("btcTxSigned", get msg "btcTxSigned") ].

Definition decodeWithdrawTxFinal (msg : Obj) : option Obj :=
  Some [ ("creator", get msg "creator");
         ("judgeAddress", get msg "judgeAddress");
         ("btcTx", get msg "btcTx") ].

Definition decodeConfirmBtcWithdraw (msg : Obj) : option Obj :=
  btcHeight ← big0 msg "height";
  Some [ ("btcTxHash", get msg "txHash");
         ("btcHeight", JBigInt btcHeight);
         ("btcHash", get msg "hash");
         ("judgeAddress", get msg "judgeAddress") ].

Definition decodeSignRefund (msg : Obj) : option Obj :=
  reserveId ← big0 msg "reserveId";
  roundId ← big0 msg "roundId";
  Some [ ("reserveId", JBigInt reserveId);
         ("roundId", JBigInt roundId);
         ("signerPublicKey", get msg "signerPublicKey");
         ("refundSignatures", jsOr (get msg "refundSignature") (JArr []));
         ("signerAddress", get msg "signerAddress") ].

Definition decodeBroadcastTxSweep (msg : Obj) : option Obj :=
  reserveId ← big0 msg "reserveId";
  roundId ← big0 msg "roundId";
  Some [ ("reserveId", JBigInt reserveId);
         ("roundId", JBigInt roundId);
         ("signedSweepTx", get msg "signedSweepTx");
         ("judgeAddress", get msg "judgeAddress") ].

Definition decodeSignSweep (msg : Obj) : option Obj :=
  reserveId ← big0 msg "reserveId";
  roundId ← big0 msg "roundId";
  Some [ ("reserveId", JBigInt reserveId);
         ("roundId", JBigInt roundId);
         ("signerPublicKey", get msg "signerPublicKey");
         ("sweepSignatures", jsOr (get msg "sweepSignature") (JArr []));
         ("signerAddress", get msg "signerAddress") ].

Definition decodeProposeRefundHash (msg : Obj) : option Obj :=
  Some [ ("refundHash", get msg "refundHash");
         ("judgeAddress", get msg "judgeAddress") ].

Definition decodeUnsignedTxSweep (msg : Obj) : option Obj :=
  reserveId ← big0 msg "reserveId";
  roundId ← big0 msg "roundId";
  Some [ ("txId", get msg "txId");
         ("btcUnsignedSweepTx", get msg "btcUnsignedSweepTx");
         ("reserveId", JBigInt reserveId);
         ("roundId", JBigInt roundId);
         ("judgeAddress", get msg "judgeAddress") ].

Definition decodeUnsignedTxRefund (msg : Obj) : option Obj :=
  reserveId ← big0 msg "reserveId";
  roundId ← big0 msg "roundId";
  Some [ ("reserveId", JBigInt reserveId);
         ("roundId", JBigInt roundId);
         ("btcUnsignedRefundTx", get msg "btcUnsignedRefundTx");
         ("judgeAddress", get msg "judgeAddress") ].

Definition decodeBroadcastTxRefund (msg : Obj) : option Obj :=
  reserveId ← big0 msg "reserveId";
  roundId ← big0 msg "roundId";
  Some [ ("reserveId", JBigInt reserveId);
         ("roundId", JBigInt roundId);
         ("signedRefundTx", get msg "signedRefundTx");
         ("judgeAddress", get msg "judgeAddress") ].

Definition decodeProposeSweepAddress (msg : Obj) : option Obj :=
  reserveId ← big0 msg "reserveId";
  roundId ← big0 msg "roundId";
  Some [ ("btcAddress", get msg "btcAddress");
         ("btcScript", get msg "btcScript");
         ("reserveId", JBigInt reserveId);
         ("roundId", JBigInt roundId);
         ("judgeAddress", get msg "judgeAddress") ].

Definition isBridgeMessage (msgType : string) : bool := includes msgType ".bridge.".

(** ** [forks.ts] *)

Definition decodeSetDelegateAddresses (msg : Obj) : option Obj :=
  Some [ ("validatorAddress", get msg "validatorAddress");
         ("btcOracleAddress", get msg "btcOracleAddress");
         ("btcPublicKey", get msg "btcPublicKey");
         ("zkOracleAddress", jsOr (get msg "zkOracleAddress") JNull) ].

Definition decodeSeenBtcChainTip (msg : Obj) : option Obj :=
  btcHeight ← big0 msg "height";
  Some [ ("btcHeight", JBigInt btcHeight);
         ("btcHash", get msg "hash");
         ("btcOracleAddress", get msg "btcOracleAddress") ].

Definition isForksMessage (msgType : string) : bool := includes msgType ".forks.".

(** ** [volt.ts] *)

Definition decodeSignerApplication (msg : Obj) : option Obj :=
  fragmentId ← big0 msg "fragmentId";
  applicationFee ← big0 msg "applicationFee";
  Some [ ("fragmentId", JBigInt fragmentId);
         ("applicationFee", JBigInt applicationFee);
         ("feeBips", int0 msg "feeBips");
         ("btcPubKey", get msg "btcPubKey");
         ("signerAddress", get msg "signerAddress") ].

(** [(msg.signerApplicationIds || []).map((id) => BigInt(id))]: calling
    [.map] on anything but an array throws. *)
Definition decodeAcceptSigners (msg : Obj) : option Obj :=
  fragmentId ← big0 msg "fragmentId";
  signerApplicationIds ←
    match jsOr (get msg "signerApplicationIds") (JArr []) with
    | JArr ids => mapM BigInt ids
    | _ => None
    end;
  Some [ ("fragmentId", JBigInt fragmentId);
         ("signerApplicationIds", JArr (JBigInt <$> signerApplicationIds));
         ("judgeAddress", get msg "judgeAddress") ].

Definition isVoltMessage (msgType : string) : bool := includes msgType ".volt.".

(** ** [zkos.ts] *)

Definition decodeTransferTx (msg : Obj) : option Obj :=
  txFee ← big0 msg "txFee";
  Some [ ("zkTxId", get msg "txId");
         ("txByteCode", get msg "txByteCode");
         ("txFee", JBigInt txFee);
         ("zkOracleAddress", get msg "zkOracleAddress") ].

Definition decodeMintBurnTradingBtc (msg : Obj) : option Obj :=
  btcValue ← big0 msg "btcValue";
  Some [ ("mintOrBurn", get msg "mintOrBurn");
         ("btcValue", JBigInt btcValue);
         ("qqAccount", get msg "qqAccount");
         ("encryptScalar", get msg "encryptScalar");
         ("twilightAddress", get msg "twilightAddress") ].

Definition isZkosMessage (msgType : string) : bool := includes msgType ".zkos.".

(** ** [index.ts] *)

(** The [switch] of each module branch: the decoder of a [case], or [None]
    for [default]. *)
Definition bridgeSwitch (msgType : string) : option (Obj -> option Obj) :=
  if String.eqb msgType CONFIRM_BTC_DEPOSIT then Some decodeConfirmBtcDeposit
  else if String.eqb msgType REGISTER_BTC_DEPOSIT_ADDRESS then Some decodeRegisterBtcDepositAddress
  else if String.eqb msgType REGISTER_RESERVE_ADDRESS then Some decodeRegisterReserveAddress
  else if String.eqb msgType BOOTSTRAP_FRAGMENT then Some decodeBootstrapFragment
  else if String.eqb msgType WITHDRAW_BTC_REQUEST then Some decodeWithdrawBtcRequest
  else if String.eqb msgType SWEEP_PROPOSAL then Some decodeSweepProposal
  else if String.eqb msgType WITHDRAW_TX_SIGNED then Some decodeWithdrawTxSigned
  else if String.eqb msgType WITHDRAW_TX_FINAL then Some decodeWithdrawTxFinal
  else if String.eqb msgType CONFIRM_BTC_WITHDRAW then Some decodeConfirmBtcWithdraw
  else if String.eqb msgType SIGN_REFUND then Some decodeSignRefund
  else if String.eqb msgType BROADCAST_TX_SWEEP then Some decodeBroadcastTxSweep
  else if String.eqb msgType SIGN_SWEEP then Some decodeSignSweep
  else if String.eqb msgType PROPOSE_REFUND_HASH then Some decodeProposeRefundHash
  else if String.eqb msgType UNSIGNED_TX_SWEEP then Some decodeUnsignedTxSweep
  else if String.eqb msgType UNSIGNED_TX_REFUND then Some decodeUnsignedTxRefund
  else if String.eqb msgType BROADCAST_TX_REFUND then Some decodeBroadcastTxRefund
  else if String.eqb msgType PROPOSE_SWEEP_ADDRESS then Some decodeProposeSweepAddress
  else None.

Definition forksSwitch (msgType : string) : option (Obj -> option Obj) :=
  if String.eqb msgType SET_DELEGATE_ADDRESSES then Some decodeSetDelegateAddresses
  else if String.eqb msgType SEEN_BTC_CHAIN_TIP then Some decodeSeenBtcChainTip
  else None.

Definition voltSwitch (msgType : string) : option (Obj -> option Obj) :=
  if String.eqb msgType SIGNER_APPLICATION then Some decodeSignerApplication
  else if String.eqb msgType ACCEPT_SIGNERS then Some decodeAcceptSigners
  else None.

Definition zkosSwitch (msgType : string) : option (Obj -> option Obj) :=
  if String.eqb msgType TRANSFER_TX then Some decodeTransferTx
  else if String.eqb msgType MINT_BURN_TRADING_BTC then Some decodeMintBurnTradingBtc
  else None.

(** The specific decoder [decodeMessage] selects for a type identifier:
    module by namespace, then the [case] of that module's [switch]. *)
Definition specificDecoder (msgType : string) : option (Obj -> option Obj) :=
  if isBridgeMessage msgType then bridgeSwitch msgType
  else if isForksMessage msgType then forksSwitch msgType
  else if isVoltMessage msgType then voltSwitch msgType
  else if isZkosMessage msgType then zkosSwitch msgType
  else None.

(** [data = { ...msg }; delete data['@type']]. *)
Definition passthrough (msg : Obj) : Obj := deleteKey "@type" msg.

(** [decodeMessage].  The result is [None] when the call throws, which
    happens only before the [try], when ['@type'] is not a string
    ([msgType.split] is then not callable).  Inside the [try] a [default]
    arm and the [catch] both produce the passthrough copy. *)
Definition decodeMessage (msg : Obj) : option DecodedMessage :=
  match get msg "@type" with
  | JStr msgType =>
      let typeName :=
        match MESSAGE_TYPE_NAMES msgType with
        | Some name => name
        | None =>
            let last := lastSegment msgType EmptyString in
            if String.eqb last "" then "Unknown" else last
        end in
      let module := getModuleFromType msgType in
      let attempt :=
        match specificDecoder msgType with
        | Some decoder => decoder msg
        | None => Some (passthrough msg)
        end in
      let data :=
        match attempt with
        | Some d => d
        | None => passthrough msg
        end in
      Some {| type := msgType; typeName := typeName; module := module;
              data := data; raw := msg |}
  | _ => None
  end.

Definition isTwilightMessage (msgType : string) : bool :=
  includes msgType "twilightproject.nyks".

End WithRuntime.

(** [serializeDecodedData].  An array is mapped one level deep (a bigint
    element becomes its string, any other element is kept as it is); a
    non-null object is serialized recursively.  The assignment
    [serialized[key] = ...] creates no own property for the key
    [__proto__]. *)
Definition serializeElement (v : JValue) : JValue :=
  match v with
  | JBigInt z => JStr (toString z)
  | _ => v
  end.

Fixpoint serializeValue (value : JValue) : JValue :=
  match value with
  | JBigInt z => JStr (toString z)
  | JArr items => JArr (map serializeElement items)
  | JObj fields =>
      JObj ((fix entries (fs : list (string * JValue)) : list (string * JValue) :=
               match fs with
               | [] => []
               | (key, v) :: rest =>
                   if String.eqb key "__proto__" then entries rest
                   else (key, serializeValue v) :: entries rest
               end) fields)
  | _ => value
  end.

Fixpoint serializeDecodedData (data : Obj) : Obj :=
  match data with
  | [] => []
  | (key, v) :: rest =>
      if String.eqb key "__proto__" then serializeDecodedData rest
      else (key, serializeValue v) :: serializeDecodedData rest
  end.




(** The relation the specification states between a decoded value and its
    stored form, against which [serializeDecodedData] is compared:
    [Decimalized before after] when [after] is [before] with every bigint,
    at any depth, replaced by its decimal string and nothing else changed.
    Arrays are compared item by item and objects field by field, the key
    [__proto__] apart, which an assignment does not create. *)
Inductive Decimalized : JValue -> JValue -> Prop :=
| decimalized_bigint (z : Z) :
    Decimalized (JBigInt z) (JStr (toString z))
| decimalized_array (items items' : list JValue) :
    Forall2 Decimalized items items' ->
    Decimalized (JArr items) (JArr items')
| decimalized_object (fields fields' : list (string * JValue)) :
    (forall k, k <> "__proto__" -> Decimalized (get fields k) (get fields' k)) ->
    Decimalized (JObj fields) (JObj fields')
| decimalized_scalar (v : JValue) :
    match v with
    | JBigInt _ | JArr _ | JObj _ => False
    | _ => True
    end ->
    Decimalized v v.

(** The fields the decoders hand to [BigInt]. *)
Definition numericFields : list string :=
  [ "depositAmount"; "height"; "btcSatoshiTestAmount"; "twilightStakingAmount";
    "fragmentId"; "signerApplicationFee"; "reserveId"; "withdrawAmount";
    "BtcBlockNumber"; "btcRelayCapacityValue"; "UnlockHeight"; "roundId";
    "applicationFee"; "txFee"; "btcValue" ].

End Decoders.

(* ===================================================================== *)
(** * Sync engine ([sync.ts]) *)
(* ===================================================================== *)

Module Sync.
Import Js Decoders Exec Exec.Notations.

(** ** Errors *)

(** What an [await] can throw.  Only an axios error carries
    [response.status]; the catch of [processBlock] tests it against 400. *)
Inductive Error : Type :=
| HttpError (status : Z)
| TransportError
| StoreError
| RuntimeError.

Abbreviation Result := (Exec.Result Error).

(** ** The ledger API ([lcd-client.ts]) *)

Record BlockHeader : Type := {
  time : string;
  (** [header.last_block_id?.hash] *)
  last_block_id_hash : option string;
  proposer_address : string
}.

Record Block : Type := {
  block_id_hash : string;
  header : BlockHeader
}.

Record TxEvent : Type := {
  ev_type : string;
  ev_attributes : list (string * string)
}.

Record TxResponse : Type := {
  txhash : string;
  (** [tx.tx?.body || tx.body], with [body.messages] and [body.memo] *)
  body : option (list Obj * string);
  (** [signer_infos[i].public_key?.key] of [tx.tx?.auth_info || tx.auth_info] *)
  signer_infos : option (list (option string));
  fee : JValue;
  gas_used : string;
  gas_wanted : string;
  code : Z;
  raw_log : string;
  events : option (list TxEvent)
}.

(** ** Rows of the persistence store *)

Record BlockRow : Type := {
  b_hash : string;
  b_timestamp : string;
  b_proposer : option string;
  b_txCount : Z;
  b_gasUsed : Z;
  b_gasWanted : Z
}.

Record StoredMessage : Type := {
  sm_type : string;
  sm_typeName : string;
  sm_module : option string;
  sm_data : Obj
}.

Record ProcessedTransaction : Type := {
  tx_hash : string;
  tx_blockHeight : Z;
  tx_blockTime : string;
  tx_type : JValue;
  tx_messageTypes : list JValue;
  tx_messages : list StoredMessage;
  tx_fee : JValue;
  tx_gasUsed : Z;
  tx_gasWanted : Z;
  tx_memo : option string;
  tx_status : string;
  tx_errorLog : option string;
  tx_signers : list string
}.

Record EventRow : Type := {
  e_txHash : option string;
  e_blockHeight : Z;
  e_type : string;
  e_attributes : list (string * string)
}.

Record AccountRow : Type := {
  a_txCount : Z;
  a_firstSeen : string;
  a_lastSeen : string
}.

(** A write issued to one of the per-module side tables. *)
Record DomainWrite : Type := {
  d_table : string;
  d_txHash : string;
  d_blockHeight : Z;
  d_data : Obj
}.

(** The store.  [Block], [Account] and [IndexerState] are keyed by their
    primary key; [Transaction] and [Event] have a generated id and are kept
    as the list of their rows; the side tables are kept as the journal of
    the writes issued to them. *)
Record Store : Type := {
  blocks : gmap Z BlockRow;
  transactions : list ProcessedTransaction;
  eventRows : list EventRow;
  accounts : gmap string AccountRow;
  indexerState : gmap string string;
  domain : list DomainWrite
}.

Definition emptyStore : Store :=
  {| blocks := ∅; transactions := []; eventRows := []; accounts := ∅;
     indexerState := ∅; domain := [] |}.

(** Payloads handed to [indexerEvents.emit]. *)
Inductive Emitted : Type :=
| BlockNew (height : Z) (hash : string) (txCount : Z)
| TxNew (tx : ProcessedTransaction)
| DepositNew (data : Obj)
| WithdrawalNew (data : Obj).

(** One pass of the batch loop over a height, as seen from outside: whether
    [processBlock] returned, whether a stop was requested by then, and the
    store it left. *)
Record Observation : Type := {
  obs_height : Z;
  obs_returned : bool;
  obs_stopRequested : bool;
  obs_store : Store
}.

(** Process state: the store, the module-level flags of [sync.ts], the
    events emitted so far, a clock that counts the external calls made, and
    the passes observed so far. *)
Record State : Type := {
  store : Store;
  isRunning : bool;
  stopRequested : bool;
  lockAcquired : bool;
  emitted : list Emitted;
  clock : nat;
  observed : list Observation
}.

Definition initialState (st : Store) : State :=
  {| store := st; isRunning := false; stopRequested := false;
     lockAcquired := false; emitted := []; clock := 0%nat; observed := [] |}.

Definition withStore (st : Store) (s : State) : State :=
  {| store := st; isRunning := isRunning s; stopRequested := stopRequested s;
     lockAcquired := lockAcquired s; emitted := emitted s; clock := clock s;
     observed := observed s |}.

Definition withStop (b : bool) (s : State) : State :=
  {| store := store s; isRunning := isRunning s; stopRequested := b;
     lockAcquired := lockAcquired s; emitted := emitted s; clock := clock s;
     observed := observed s |}.

Definition withRunning (b : bool) (s : State) : State :=
  {| store := store s; isRunning := b; stopRequested := stopRequested s;
     lockAcquired := lockAcquired s; emitted := emitted s; clock := clock s;
     observed := observed s |}.

Definition withLock (b : bool) (s : State) : State :=
  {| store := store s; isRunning := isRunning s; stopRequested := stopRequested s;
     lockAcquired := b; emitted := emitted s; clock := clock s;
     observed := observed s |}.

Definition withEmitted (e : Emitted) (s : State) : State :=
  {| store := store s; isRunning := isRunning s; stopRequested := stopRequested s;
     lockAcquired := lockAcquired s; emitted := emitted s ++ [e]; clock := clock s;
     observed := observed s |}.

Definition withTick (s : State) : State :=
  {| store := store s; isRunning := isRunning s; stopRequested := stopRequested s;
     lockAcquired := lockAcquired s; emitted := emitted s; clock := S (clock s);
     observed := observed s |}.

Definition withObservation (o : Observation) (s : State) : State :=
  {| store := store s; isRunning := isRunning s; stopRequested := stopRequested s;
     lockAcquired := lockAcquired s; emitted := emitted s; clock := clock s;
     observed := observed s ++ [o] |}.

(** The world outside the process: what the ledger API answers to the call
    made at a given clock value, and whether the store operation issued at a
    given clock value fails. *)
Record World : Type := {
  getBlockByHeight : nat -> Z -> Result Block;
  (** [tx_responses] of the answer, when present *)
  getTxsByHeight : nat -> Z -> Result (option (list TxResponse));
  (** [None] when the reported height parses to [NaN] *)
  getLatestBlockHeight : nat -> Result (option Z);
  storeFails : nat -> bool;
  (** [pg_try_advisory_lock] *)
  tryAdvisoryLock : nat -> Result bool
}.

Record Config : Type := {
  startHeight : Z;
  pollInterval : Z;
  batchSize : Z
}.

Abbreviation M := (Exec.M State Error).

(** The clock value of the next external call; the call advances it. *)
Definition tick : M nat := fun s => (Ok (clock s), withTick s).

Definition emit (e : Emitted) : M unit := modify (withEmitted e).

Section Engine.
Context {rt : JsRuntime} (config : Config) (w : World).

(** A call of the ledger API. *)
Definition lcd {A} (call : nat -> Z -> Result A) (height : Z) : M A :=
  let* t := tick in liftResult (call t height).

(** A store operation: it fails when the world says so, and otherwise reads
    or changes the store. *)
Definition dbRead {A} (query : Store -> A) : M A :=
  let* t := tick in
  if storeFails w t then throw StoreError else gets (fun s => query (store s)).

Definition dbWrite (change : Store -> Store) : M unit :=
  let* t := tick in
  if storeFails w t then throw StoreError
  else modify (fun s => withStore (change (store s)) s).

(** The client [tx] that [prisma.$transaction] hands to its callback: the
    clock value at which the transaction began. *)
Definition TxClient : Type := nat.

(** Whether the transaction [tx] is aborted at clock value [t].  On
    PostgreSQL the first statement of a transaction that fails aborts the
    transaction: every later statement of it is rejected too, whether or not
    the rejection of the first one was caught. *)
Definition aborted (tx : TxClient) (t : nat) : bool :=
  existsb (storeFails w) (seq tx (S t - tx)).

(** A write issued on the client of a transaction. *)
Definition txWrite (tx : TxClient) (change : Store -> Store) : M unit :=
  let* t := tick in
  if aborted tx t then throw StoreError
  else modify (fun s => withStore (change (store s)) s).

(** [prisma.$transaction(async (tx) => body)]: when the body throws, the
    writes it made are rolled back; the commit is one more statement of the
    transaction. *)
Definition transaction {A} (body : TxClient -> M A) : M A := fun s =>
  match body (clock s) s with
  | (Ok a, s') =>
      if aborted (clock s) (clock s')
      then (Throw StoreError, withStore (store s) (withTick s'))
      else (Ok a, withTick s')
  | (Throw e, s') => (Throw e, withStore (store s) s')
  end.

(** ** Indexer state *)

Definition lastIndexedHeightKey : string := "lastIndexedHeight".

Definition readLastIndexedHeight (st : Store) : option Z :=
  match indexerState st !! lastIndexedHeightKey with
  | Some value => parseInt10 (JStr value)
  | None => Some (startHeight config - 1)
  end.

(** [getLastIndexedHeight]; [None] stands for [NaN]. *)
Definition getLastIndexedHeight : M (option Z) := dbRead readLastIndexedHeight.

Definition upsertIndexerState (key value : string) (st : Store) : Store :=
  {| blocks := blocks st; transactions := transactions st;
     eventRows := eventRows st; accounts := accounts st;
     indexerState := <[key := value]> (indexerState st); domain := domain st |}.

Definition setLastIndexedHeight (height : Z) : M unit :=
  dbWrite (upsertIndexerState lastIndexedHeightKey (toString height)).

(** ** Store operations of [processBlock] *)

Definition upsertBlock (height : Z) (row : BlockRow) (st : Store) : Store :=
  {| blocks := <[height := row]> (blocks st); transactions := transactions st;
     eventRows := eventRows st; accounts := accounts st;
     indexerState := indexerState st; domain := domain st |}.

(** The upsert of the empty-block path: an existing row keeps its gas
    columns, a new row takes the column defaults. *)
Definition upsertEmptyBlock (height : Z) (info : Block) (st : Store) : Store :=
  let old := blocks st !! height in
  upsertBlock height
    {| b_hash := block_id_hash info;
       b_timestamp := time (header info);
       b_proposer := if String.eqb (proposer_address (header info)) "" then None
                     else Some (proposer_address (header info));
       b_txCount := 0;
       b_gasUsed := from_option b_gasUsed 0 old;
       b_gasWanted := from_option b_gasWanted 0 old |} st.

(** [transaction.upsert({ where: { hash }, update: txData, create: txData })] *)
Fixpoint upsertByHash (txData : ProcessedTransaction)
  (rows : list ProcessedTransaction) : list ProcessedTransaction :=
  match rows with
  | [] => [txData]
  | row :: rest =>
      if String.eqb (tx_hash row) (tx_hash txData) then txData :: rest
      else row :: upsertByHash txData rest
  end.

Definition upsertTransaction (txData : ProcessedTransaction) (st : Store) : Store :=
  {| blocks := blocks st; transactions := upsertByHash txData (transactions st);
     eventRows := eventRows st; accounts := accounts st;
     indexerState := indexerState st; domain := domain st |}.

(** [event.create({ data: event })] *)
Definition createEvent (event : EventRow) (st : Store) : Store :=
  {| blocks := blocks st; transactions := transactions st;
     eventRows := eventRows st ++ [event]; accounts := accounts st;
     indexerState := indexerState st; domain := domain st |}.

Definition upsertAccount (address : string) (blockTime : string) (st : Store) : Store :=
  let row :=
    match accounts st !! address with
    | Some old => {| a_txCount := a_txCount old + 1; a_firstSeen := a_firstSeen old;
                     a_lastSeen := blockTime |}
    | None => {| a_txCount := 1; a_firstSeen := blockTime; a_lastSeen := blockTime |}
    end in
  {| blocks := blocks st; transactions := transactions st;
     eventRows := eventRows st; accounts := <[address := row]> (accounts st);
     indexerState := indexerState st; domain := domain st |}.

Definition writeDomain (entry : DomainWrite) (st : Store) : Store :=
  {| blocks := blocks st; transactions := transactions st;
     eventRows := eventRows st; accounts := accounts st;
     indexerState := indexerState st; domain := domain st ++ [entry] |}.

(** ** [processTransaction] *)

Definition decodeAndSerialize (msg : Obj) : option StoredMessage :=
  decoded ← decodeMessage msg;
  Some {| sm_type := type decoded; sm_typeName := typeName decoded;
          sm_module := module decoded;
          sm_data := serializeDecodedData (data decoded) |}.

Definition processTransaction (tx : TxResponse) (blockHeight : Z)
  (blockTime : string) : Result ProcessedTransaction :=
  let messages := from_option fst [] (body tx) in
  let messageTypes := map (fun m => get m "@type") messages in
  let primaryType := jsOr (hd JUndefined messageTypes) (JStr "unknown") in
  let signers :=
    omap (fun key => match key with
                     | Some k => if String.eqb k "" then None else Some k
                     | None => None
                     end)
         (default [] (signer_infos tx)) in
  match mapM decodeAndSerialize messages,
        BigInt (jsOr (JStr (gas_used tx)) (JStr "0")),
        BigInt (jsOr (JStr (gas_wanted tx)) (JStr "0")) with
  | Some decodedMessages, Some gasUsed, Some gasWanted =>
      Ok {| tx_hash := txhash tx;
            tx_blockHeight := blockHeight;
            tx_blockTime := blockTime;
            tx_type := primaryType;
            tx_messageTypes := messageTypes;
            tx_messages := decodedMessages;
            tx_fee := jsOr (fee tx) JNull;
            tx_gasUsed := gasUsed;
            tx_gasWanted := gasWanted;
            tx_memo := match body tx with
                       | Some (_, memo) => if String.eqb memo "" then None else Some memo
                       | None => None
                       end;
            tx_status := if Z.eqb (code tx) 0 then "success" else "failed";
            tx_errorLog := if Z.eqb (code tx) 0 then None else Some (raw_log tx);
            tx_signers := signers |}
  | _, _, _ => Throw RuntimeError
  end.

(** [acc[attr.key] = attr.value] *)
Fixpoint assignKey (k v : string) (o : list (string * string)) : list (string * string) :=
  match o with
  | [] => [(k, v)]
  | (k', v') :: rest =>
      if String.eqb k' k then (k', v) :: rest else (k', v') :: assignKey k v rest
  end.

Definition eventsOf (tx : TxResponse) (height : Z) : list EventRow :=
  map (fun event =>
         {| e_txHash := Some (txhash tx);
            e_blockHeight := height;
            e_type := ev_type event;
            e_attributes :=
              fold_left (fun acc attr =>
                           if String.eqb (fst attr) "__proto__" then acc
                           else assignKey (fst attr) (snd attr) acc)
                        (ev_attributes event) [] |})
      (default [] (events tx)).

(** What the loop over [txResponses] accumulates. *)
Record Collected : Type := {
  c_gasUsed : Z;
  c_gasWanted : Z;
  c_transactions : list ProcessedTransaction;
  c_events : list EventRow
}.

Fixpoint collect (txResponses : list TxResponse) (height : Z) (timestamp : string)
  (acc : Collected) : Result Collected :=
  match txResponses with
  | [] => Ok acc
  | tx :: rest =>
      if String.eqb (txhash tx) "" then collect rest height timestamp acc
      else
        match processTransaction tx height timestamp with
        | Throw e => Throw e
        | Ok processedTx =>
            collect rest height timestamp
              {| c_gasUsed := c_gasUsed acc + tx_gasUsed processedTx;
                 c_gasWanted := c_gasWanted acc + tx_gasWanted processedTx;
                 c_transactions := c_transactions acc ++ [processedTx];
                 c_events := c_events acc ++ eventsOf tx height |}
        end
  end.

(** ** [updateAccounts] *)

(** [addresses.add(value)] on an insertion-ordered [Set]. *)
Definition setAdd (value : string) (set : list string) : list string :=
  if bool_decide (value ∈ set) then set else set ++ [value].

(** A field that looks like an address. *)
Definition looksLikeAddress (key : string) (value : JValue) : option string :=
  match value with
  | JStr v =>
      if includes (toLowerCase key) "address" || startsWith v "twilight"
      then Some v else None
  | _ => None
  end.

Definition collectFromData (data : Obj) (set : list string) : list string :=
  fold_left (fun acc kv =>
               match looksLikeAddress (fst kv) (snd kv) with
               | Some v => setAdd v acc
               | None => acc
               end) data set.

Definition collectAddresses (transactions : list ProcessedTransaction) : list string :=
  fold_left (fun acc txData =>
               fold_left (fun acc' msg => collectFromData (sm_data msg) acc')
                         (tx_messages txData) acc)
            transactions [].

(** [!address || address.length < 10] *)
Definition skipAddress (address : string) : bool :=
  String.eqb address "" || (String.length address <? 10)%nat.

(** The body of the loop over the collected addresses. *)
Definition accountStep (tx : TxClient) (blockTime : string) (address : string) : M unit :=
  if skipAddress address then ret tt
  else tryCatch (txWrite tx (upsertAccount address blockTime)) (fun _ => ret tt).

Definition updateAccounts (tx : TxClient) (transactions : list ProcessedTransaction)
  (blockTime : string) : M unit :=
  forEach (collectAddresses transactions) (accountStep tx blockTime).

(** ** [processCustomMessages] *)

(** The side table a message type is written to, if any. *)
Definition domainTable (msgType : string) : option string :=
  if String.eqb msgType CONFIRM_BTC_DEPOSIT then Some "btcDeposit"
  else if String.eqb msgType REGISTER_BTC_DEPOSIT_ADDRESS then Some "btcDepositAddress"
  else if String.eqb msgType WITHDRAW_BTC_REQUEST then Some "btcWithdrawal"
  else if String.eqb msgType SWEEP_PROPOSAL then Some "sweepProposal"
  else if String.eqb msgType SIGN_SWEEP then Some "sweepSignature"
  else if String.eqb msgType SIGN_REFUND then Some "refundSignature"
  else if String.eqb msgType SET_DELEGATE_ADDRESSES then Some "delegateKey"
  else if String.eqb msgType SEEN_BTC_CHAIN_TIP then Some "btcChainTip"
  else if String.eqb msgType SIGNER_APPLICATION then Some "fragmentSigner"
  else if String.eqb msgType TRANSFER_TX then Some "zkosTransfer"
  else if String.eqb msgType MINT_BURN_TRADING_BTC then Some "zkosMintBurn"
  else None.

Definition processCustomMessages (txData : ProcessedTransaction)
  (blockHeight : Z) : M unit :=
  forEach (tx_messages txData) (fun msg =>
    tryCatch
      (match domainTable (sm_type msg) with
       | Some table =>
           dbWrite (writeDomain {| d_table := table; d_txHash := tx_hash txData;
                                   d_blockHeight := blockHeight;
                                   d_data := sm_data msg |}) ;;
           if String.eqb (sm_type msg) CONFIRM_BTC_DEPOSIT
           then emit (DepositNew (sm_data msg))
           else if String.eqb (sm_type msg) WITHDRAW_BTC_REQUEST
           then emit (WithdrawalNew (sm_data msg))
           else ret tt
       | None => ret tt
       end)
      (fun _ => ret tt)).

(** ** [processBlock] *)

(** A present, non-empty [last_block_id] hash. *)
Definition expectedPrevHashOf (info : Block) : option string :=
  match last_block_id_hash (header info) with
  | Some h => if String.eqb h "" then None else Some h
  | None => None
  end.

(** Linkage validation; [true] when the block does not link to the stored
    predecessor, in which case a stop has been requested. *)
Definition validateLinkage (height : Z) (blockInfo : Block) : M bool :=
  if height >? 1 then
    match expectedPrevHashOf blockInfo with
    | Some expectedPrevHash =>
        let* prevBlock := dbRead (fun st => blocks st !! (height - 1)) in
        match prevBlock with
        | Some prev =>
            if negb (String.eqb (b_hash prev) expectedPrevHash)
            then modify (withStop true) ;; ret true
            else ret false
        | None => ret false
        end
    | None => ret false
    end
  else ret false.

(** The atomic database write. *)
Definition commitBlock (height : Z) (block : BlockRow)
  (transactions : list ProcessedTransaction) (events : list EventRow) : M unit :=
  transaction (fun tx =>
    txWrite tx (upsertBlock height block) ;;
    forEach transactions (fun txData => txWrite tx (upsertTransaction txData)) ;;
    forEach events (fun event => txWrite tx (createEvent event)) ;;
    updateAccounts tx transactions (b_timestamp block) ;;
    txWrite tx (upsertIndexerState lastIndexedHeightKey (toString height))).

(** The block row built from the header and the collected transactions. *)
Definition blockRowOf (blockInfo : Block) (txResponses : list TxResponse)
  (collected : Collected) : BlockRow :=
  {| b_hash := block_id_hash blockInfo;
     b_timestamp := time (header blockInfo);
     b_proposer := if String.eqb (proposer_address (header blockInfo)) "" then None
                   else Some (proposer_address (header blockInfo));
     b_txCount := Z.of_nat (length txResponses);
     b_gasUsed := c_gasUsed collected;
     b_gasWanted := c_gasWanted collected |}.

Definition noneCollected : Collected :=
  {| c_gasUsed := 0; c_gasWanted := 0; c_transactions := []; c_events := [] |}.

(** What the [try] does once the header and the transactions are fetched:
    build the rows, commit them, populate the side tables, emit. *)
Definition persistBlock (height : Z) (blockInfo : Block)
  (txResponses : list TxResponse) : M unit :=
  let* collected :=
    liftResult (collect txResponses height (time (header blockInfo)) noneCollected) in
  let block := blockRowOf blockInfo txResponses collected in
  commitBlock height block (c_transactions collected) (c_events collected) ;;
  forEach (c_transactions collected) (fun txData =>
    tryCatch (processCustomMessages txData height) (fun _ => ret tt)) ;;
  emit (BlockNew height (b_hash block) (b_txCount block)) ;;
  forEach (c_transactions collected) (fun tx => emit (TxNew tx)).

(** The fetch of the transactions; a failure counts as no transaction. *)
Definition fetchTxs (height : Z) : M (list TxResponse) :=
  tryCatch (let* txData := lcd (getTxsByHeight w) height in ret (default [] txData))
           (fun _ => ret []).

(** The body of the [try]. *)
Definition processBlockMain (height : Z) : M unit :=
  let* blockInfo := lcd (getBlockByHeight w) height in
  let* mismatch := validateLinkage height blockInfo in
  if mismatch then ret tt
  else
    let* txResponses := fetchTxs height in
    persistBlock height blockInfo txResponses.

(** The [catch] when the error carries status 400. *)
Definition processEmptyBlock (height : Z) : M unit :=
  let* blockInfo := lcd (getBlockByHeight w) height in
  dbWrite (upsertEmptyBlock height blockInfo) ;;
  setLastIndexedHeight height ;;
  emit (BlockNew height (block_id_hash blockInfo) 0).

Definition processBlock (height : Z) : M unit :=
  tryCatch (processBlockMain height)
    (fun error =>
       match error with
       | HttpError status =>
           if Z.eqb status 400 then processEmptyBlock height else throw error
       | _ => throw error
       end).

(** ** The main loop of [startSync] *)

(** The [for] loop over a batch; [n] bounds the number of heights left. *)
Fixpoint batch (n : nat) (height endHeight : Z) : M unit :=
  match n with
  | O => ret tt
  | S n' =>
      let* stop := gets stopRequested in
      if (height <=? endHeight) && negb stop then
        let* returned :=
          tryCatch (processBlock height ;; ret true)
                   (fun _ => sleep 5000 ;; ret false) in
        modify (fun s => withObservation
                           {| obs_height := height; obs_returned := returned;
                              obs_stopRequested := stopRequested s;
                              obs_store := store s |} s) ;;
        if returned then batch n' (height + 1) endHeight else ret tt
      else ret tt
  end.

(** The [while (!stopRequested)] loop, for at most [fuel] iterations.  With a
    [NaN] on either side every comparison is false: the batch is entered and
    its loop body never runs. *)
Fixpoint syncLoop (fuel : nat) : M LoopEnd :=
  match fuel with
  | O => gets (fun s => if stopRequested s then Stopped else StillRunning)
  | S fuel' =>
      let* stop := gets stopRequested in
      if stop then ret Stopped
      else
        let* lastIndexed := getLastIndexedHeight in
        let* latestHeight := let* t := tick in liftResult (getLatestBlockHeight w t) in
        match lastIndexed, latestHeight with
        | Some lastIndexed, Some latestHeight =>
            if lastIndexed >=? latestHeight then
              sleep (pollInterval config) ;; syncLoop fuel'
            else
              let startHeight := lastIndexed + 1 in
              let endHeight := Z.min (startHeight + batchSize config - 1) latestHeight in
              batch (Z.to_nat (endHeight - startHeight + 1)) startHeight endHeight ;;
              syncLoop fuel'
        | _, _ => syncLoop fuel'
        end
  end.

(** The [finally] of [startSync]. *)
Definition releaseLock : M unit :=
  modify (withRunning false) ;;
  let* locked := gets lockAcquired in
  if locked then
    tryCatch (let* t := tick in
              if storeFails w t then throw StoreError
              else modify (withLock false))
             (fun _ => ret tt)
  else ret tt.

(** [startSync], its loop bounded by [fuel]; a run cut by the bound has not
    reached the [finally]. *)
Definition startSync (fuel : nat) : M LoopEnd :=
  let* running := gets isRunning in
  if running then ret Stopped
  else
    let* lockResult := let* t := tick in liftResult (tryAdvisoryLock w t) in
    if negb lockResult then ret Stopped
    else
      modify (withLock true) ;;
      modify (withRunning true) ;;
      modify (withStop false) ;;
      fun s =>
        match syncLoop fuel s with
        | (Ok StillRunning, s') => (Ok StillRunning, s')
        | (r, s') => tryFinally (liftResult r) releaseLock s'
        end.

(** ** [stopSync], [isSyncRunning], [getSyncStatus] *)

Definition stopSync : M unit :=
  modify (withStop true) ;;
  let* locked := gets lockAcquired in
  if locked then
    tryCatch (let* t := tick in
              if storeFails w t then throw StoreError
              else modify (withLock false))
             (fun _ => ret tt)
  else ret tt.

Definition isSyncRunning : M bool := gets isRunning.

(** The object [getSyncStatus] resolves to; [None] stands for [NaN]. *)
Record SyncStatus : Type := {
  status_isRunning : bool;
  status_lastIndexedHeight : option Z;
  status_latestHeight : option Z;
  status_blocksRemaining : option Z
}.

Definition getSyncStatus : M SyncStatus :=
  let* lastIndexed := getLastIndexedHeight in
  let* latestHeight := let* t := tick in liftResult (getLatestBlockHeight w t) in
  let* running := gets isRunning in
  ret {| status_isRunning := running;
         status_lastIndexedHeight := lastIndexed;
         status_latestHeight := latestHeight;
         status_blocksRemaining :=
           match latestHeight, lastIndexed with
           | Some latest, Some last => Some (latest - last)
           | _, _ => None
           end |}.

End Engine.

(** ** Vocabulary for statements about runs *)

(** A run leaves an observable of the state as it was. *)
Definition Keeps {X} (f : State -> X) (s s' : State) : Prop := f s' = f s.

Definition sameAccount (a : string) (s s' : State) : Prop :=
  accounts (store s') !! a = accounts (store s) !! a.

(** The rows a committed ingestion of [height] has written on top of [st]. *)
Definition committedBy {rt : JsRuntime} (height : Z) (info : Block)
  (txResponses : list TxResponse) (st st' : Store) : Prop :=
  exists collected,
    collect txResponses height (time (header info)) noneCollected = Ok collected /\
    blocks st' = <[height := blockRowOf info txResponses collected]> (blocks st) /\
    transactions st'
      = fold_left (fun rows x => upsertByHash x rows) (c_transactions collected)
                  (transactions st) /\
    eventRows st' = (eventRows st ++ c_events collected)%list /\
    indexerState st' = <[lastIndexedHeightKey := toString height]> (indexerState st).

(** All the transactions of a block upserted, in order. *)
Definition upsertAll (txs rows : list ProcessedTransaction) : list ProcessedTransaction :=
  fold_left (fun rows x => upsertByHash x rows) txs rows.

Section Checkpoint.
Context {rt : JsRuntime} (config : Config).

(** The checkpoint reads [c] and the block rows are exactly those of the
    heights from the start height up to [c]. *)
Definition Tracks (c : Z) (st : Store) : Prop :=
  readLastIndexedHeight config st = Some c /\
  startHeight config - 1 <= c /\
  forall k, is_Some (blocks st !! k) <-> startHeight config <= k <= c.

(** The same, except that a row of the next height may be there already. *)
Definition TracksUpTo (c : Z) (st : Store) : Prop :=
  readLastIndexedHeight config st = Some c /\
  startHeight config - 1 <= c /\
  (forall k, startHeight config <= k <= c -> is_Some (blocks st !! k)) /\
  (forall k, is_Some (blocks st !! k) -> startHeight config <= k <= c + 1).

(** A pass in which [processBlock] returned without requesting a stop: a
    completed ingestion. *)
Definition Ingested (o : Observation) : Prop :=
  obs_returned o = true /\ obs_stopRequested o = false.

Definition ObservedTracks (o : Observation) : Prop :=
  Ingested o -> Tracks (obs_height o) (obs_store o).

(** What holds between two iterations of the main loop. *)
Definition LoopInv (s : State) : Prop :=
  (exists c, TracksUpTo c (store s)) /\
  Forall ObservedTracks (observed s).

End Checkpoint.

(** ** Vocabulary for statements about blocks and their rows *)

(** The events [processCustomMessages] emits. *)
Definition isCustomEvent (e : Emitted) : bool :=
  match e with
  | DepositNew _ | WithdrawalNew _ => true
  | _ => false
  end.

(** [o[k]] on an attribute object. *)
Fixpoint attribute (k : string) (o : list (string * string)) : option string :=
  match o with
  | [] => None
  | (k', v) :: rest => if String.eqb k' k then Some v else attribute k rest
  end.

(** The value of the last attribute of a list that carries key [k]. *)
Definition lastValue (k : string) (attrs : list (string * string)) : option string :=
  fold_left (fun acc attr => if String.eqb (fst attr) k then Some (snd attr) else acc)
            attrs None.

Definition totalGasUsed (txs : list ProcessedTransaction) : Z :=
  foldr (fun tx acc => tx_gasUsed tx + acc) 0 txs.

Definition totalGasWanted (txs : list ProcessedTransaction) : Z :=
  foldr (fun tx acc => tx_gasWanted tx + acc) 0 txs.

(** A response that carries a transaction hash. *)
Definition hasHash (tx : TxResponse) : bool := negb (String.eqb (txhash tx) "").

(** The heights [height], [height + 1], ... of [n] consecutive blocks. *)
Definition heightsFrom (height : Z) (n : nat) : list Z :=
  map (fun i => height + Z.of_nat i) (seq 0 n).

(** The stored predecessor, if there is one, carries the hash the header
    names, if it names one. *)
Definition Linked (height : Z) (info : Block) (st : Store) : Prop :=
  forall expectedPrevHash prev,
    expectedPrevHashOf info = Some expectedPrevHash ->
    blocks st !! (height - 1) = Some prev ->
    b_hash prev = expectedPrevHash.

(** An account row after at most one more upsert. *)
Definition UpsertedAtMostOnce (blockTime : string) (before after : option AccountRow) : Prop :=
  after = before \/
  after = Some match before with
               | Some old => {| a_txCount := a_txCount old + 1;
                                a_firstSeen := a_firstSeen old;
                                a_lastSeen := blockTime |}
               | None => {| a_txCount := 1; a_firstSeen := blockTime;
                            a_lastSeen := blockTime |}
               end.

(** The transactions the engine goes on with, given the answer to its
    query. *)
Definition fetchedTxs (answer : Result (option (list TxResponse))) : list TxResponse :=
  match answer with
  | Ok txData => default [] txData
  | Throw _ => []
  end.


(** A run only adds events to those emitted, all of a given kind. *)
Definition EmitsOnly (kind : Emitted -> bool) (s s' : State) : Prop :=
  exists l, emitted s' = emitted s ++ l /\ Forall (fun e => kind e = true) l.

(** A run only adds entries to the journal of the side tables, all written
    for a message of a given transaction at a given height. *)
Definition JournalsOnly (txData : ProcessedTransaction) (height : Z) (s s' : State) : Prop :=
  exists entries,
    domain (store s') = domain (store s) ++ entries /\
    Forall (fun d => d_txHash d = tx_hash txData /\ d_blockHeight d = height /\
                     exists msg, In msg (tx_messages txData) /\
                                 domainTable (sm_type msg) = Some (d_table d) /\
                                 d_data d = sm_data msg) entries.

End Sync.

(* ===================================================================== *)
(** * Enrichment worker ([enrichment.ts], [decoders/zkos.ts]) *)
(* ===================================================================== *)

Module Enrichment.
Import Js Exec Exec.Notations.

Definition BATCH_SIZE : nat := 20.
Definition POLL_INTERVAL_MS : Z := 10000.
Definition MAX_ATTEMPTS : Z := 5.

(** A row of [ZkosTransfer]. *)
Record ZkosTransfer : Type := {
  id : Z;
  zkTxId : string;
  txByteCode : string;
  decodedData : JValue;
  inputs : JValue;
  outputs : JValue;
  programType : JValue;
  decodeStatus : string;
  decodeAttempts : Z;
  lastDecodeError : option string
}.

(** Lines written to the log. *)
Inductive LogLine : Type :=
| FailedToDecodeZkosTransaction
| ZkosDecodeAttemptFailed (zkTxId : string) (attempt : Z) (error : string)
| EnrichmentWorkerError (error : string).

Record State : Type := {
  table : list ZkosTransfer;
  running : bool;
  stopRequested : bool;
  logged : list LogLine;
  clock : nat
}.

(** An error is its message. *)
Abbreviation Result := (Exec.Result string).
Abbreviation M := (Exec.M State string).

(** The world outside the worker: what [axios.post] does with the request
    made at a given clock value, and the message of the error a store
    operation issued at a given clock value fails with, if it fails.
    [axios.post] rejects, with the message given, on a transport failure, a
    timeout or an error status; otherwise it resolves, and [response.data]
    is the body of the answer: the JSON value it parses to or, for a body
    that is not JSON, the text of the body as a string (axios parses
    silently). *)
Record World : Type := {
  axiosPost : nat -> string -> Result JValue;
  storeError : nat -> option string
}.

Definition withTable (t : list ZkosTransfer) (s : State) : State :=
  {| table := t; running := running s; stopRequested := stopRequested s;
     logged := logged s; clock := clock s |}.

Definition withRunning (b : bool) (s : State) : State :=
  {| table := table s; running := b; stopRequested := stopRequested s;
     logged := logged s; clock := clock s |}.

Definition withStop (b : bool) (s : State) : State :=
  {| table := table s; running := running s; stopRequested := b;
     logged := logged s; clock := clock s |}.

Definition withLog (l : LogLine) (s : State) : State :=
  {| table := table s; running := running s; stopRequested := stopRequested s;
     logged := logged s ++ [l]; clock := clock s |}.

Definition withTick (s : State) : State :=
  {| table := table s; running := running s; stopRequested := stopRequested s;
     logged := logged s; clock := S (clock s) |}.

Definition tick : M nat := fun s => (Ok (clock s), withTick s).

Definition log (l : LogLine) : M unit := modify (withLog l).

(** [o?.k] on a value. *)
Definition prop (v : JValue) (k : string) : JValue :=
  match v with
  | JObj o => get o k
  | _ => JUndefined
  end.

(** [orderBy: { id: 'asc' }] *)
Definition idAsc (a b : ZkosTransfer) : Prop := id a <= id b.

#[global] Instance idAsc_dec : RelDecision idAsc :=
  fun a b => decide (id a <= id b).

Section Worker.
Context (w : World).

(** [decodeZkosTransactionFromApi] of [decoders/zkos.ts]; the value is
    [response.data]. *)
Definition decodeZkosTransactionFromApi (txByteCode : string) : M (option JValue) :=
  tryCatch
    (let* response_data := let* t := tick in liftResult (axiosPost w t txByteCode) in
     if truthy response_data then ret (Some response_data) else ret None)
    (fun error => log FailedToDecodeZkosTransaction ;; ret None).

(** [where: { decodeStatus: 'pending', decodeAttempts: { lt: MAX_ATTEMPTS } }] *)
Definition isPending (record : ZkosTransfer) : bool :=
  String.eqb (decodeStatus record) "pending" && (decodeAttempts record <? MAX_ATTEMPTS).

(** [findMany({ where, orderBy: { id: 'asc' }, take: BATCH_SIZE })] *)
Definition findMany (rows : list ZkosTransfer) : list ZkosTransfer :=
  take BATCH_SIZE
    (merge_sort idAsc (List.filter isPending rows)).

(** [update({ where: { id }, data })] *)
Definition updateRow (recordId : Z) (change : ZkosTransfer -> ZkosTransfer)
  (rows : list ZkosTransfer) : list ZkosTransfer :=
  map (fun r => if Z.eqb (id r) recordId then change r else r) rows.

Definition dbFindMany : M (list ZkosTransfer) :=
  let* t := tick in
  match storeError w t with
  | Some message => throw message
  | None => gets (fun s => findMany (table s))
  end.

Definition dbUpdate (recordId : Z) (change : ZkosTransfer -> ZkosTransfer) : M unit :=
  let* t := tick in
  match storeError w t with
  | Some message => throw message
  | None => modify (fun s => withTable (updateRow recordId change (table s)) s)
  end.

(** A column whose [data] is [undefined] is left as it is. *)
Definition assigned (value old : JValue) : JValue :=
  match value with
  | JUndefined => old
  | _ => value
  end.

(** The [data] of the three updates. *)
Definition decodedOk (record : ZkosTransfer) (decoded : JValue)
  (row : ZkosTransfer) : ZkosTransfer :=
  {| id := id row; zkTxId := zkTxId row; txByteCode := txByteCode row;
     decodedData := decoded;
     inputs := assigned (prop decoded "inputs") (inputs row);
     outputs := assigned (prop decoded "outputs") (outputs row);
     programType :=
       jsOr (jsOr (prop (prop decoded "summary") "program_type")
                  (prop decoded "tx_type"))
            JNull;
     decodeStatus := "ok";
     decodeAttempts := decodeAttempts record + 1;
     lastDecodeError := None |}.

Definition decodeFailed (record : ZkosTransfer) (message : string)
  (row : ZkosTransfer) : ZkosTransfer :=
  let attempts := decodeAttempts record + 1 in
  {| id := id row; zkTxId := zkTxId row; txByteCode := txByteCode row;
     decodedData := decodedData row; inputs := inputs row;
     outputs := outputs row; programType := programType row;
     decodeStatus := if attempts >=? MAX_ATTEMPTS then "failed" else "pending";
     decodeAttempts := attempts;
     lastDecodeError := Some message |}.

(** The body of the [for] loop for one record. *)
Definition processRecord (record : ZkosTransfer) : M unit :=
  tryCatch
    (let* decoded := decodeZkosTransactionFromApi (txByteCode record) in
     match decoded with
     | Some d => dbUpdate (id record) (decodedOk record d)
     | None => dbUpdate (id record) (decodeFailed record "Decode API returned null")
     end)
    (fun err =>
       dbUpdate (id record) (decodeFailed record err) ;;
       log (ZkosDecodeAttemptFailed (zkTxId record) (decodeAttempts record + 1) err)).

(** [for (const record of pending) { if (stopRequested) break; ... }] *)
Fixpoint processPending (pending : list ZkosTransfer) : M unit :=
  match pending with
  | [] => ret tt
  | record :: rest =>
      let* stop := gets stopRequested in
      if stop then ret tt
      else processRecord record ;; processPending rest
  end.

(** One iteration of the [while] loop. *)
Definition cycle : M unit :=
  tryCatch
    (let* pending := dbFindMany in
     if Nat.eqb (length pending) 0 then sleep POLL_INTERVAL_MS
     else processPending pending)
    (fun err => log (EnrichmentWorkerError err) ;; sleep POLL_INTERVAL_MS).

(** [while (!stopRequested)], for at most [fuel] iterations. *)
Fixpoint enrichmentLoop (fuel : nat) : M LoopEnd :=
  match fuel with
  | O => gets (fun s => if stopRequested s then Stopped else StillRunning)
  | S fuel' =>
      let* stop := gets stopRequested in
      if stop then ret Stopped else cycle ;; enrichmentLoop fuel'
  end.

(** [startEnrichment], its loop bounded by [fuel]. *)
Definition startEnrichment (fuel : nat) : M LoopEnd :=
  let* isRunning := gets running in
  if isRunning then ret Stopped
  else
    modify (withRunning true) ;;
    modify (withStop false) ;;
    let* loopEnd := enrichmentLoop fuel in
    match loopEnd with
    | Stopped => modify (withRunning false) ;; ret Stopped
    | StillRunning => ret StillRunning
    end.

End Worker.

Definition stopEnrichment : M unit := modify (withStop true).

(** ** Vocabulary for statements about runs *)

Definition nullMessage : string := "Decode API returned null".

(** The decode request made at clock value [t] for a payload is rejected
    (transport failure, timeout, error status), or [response.data] is
    falsy.  An answer whose body is not JSON is neither: its
    [response.data] is the text of the body. *)
Definition decodeFailsAt (w : World) (txByteCode : string) (t : nat) : Prop :=
  match axiosPost w t txByteCode with
  | Ok body => truthy body = false
  | Throw _ => True
  end.

(** The update [processRecord] issues for a record whose decode request is
    made at clock value [t], when the store takes the update. *)
Definition attemptOf (w : World) (record : ZkosTransfer) (t : nat)
  : ZkosTransfer -> ZkosTransfer :=
  match axiosPost w t (txByteCode record) with
  | Ok body => if truthy body then decodedOk record body
               else decodeFailed record nullMessage
  | Throw _ => decodeFailed record nullMessage
  end.

Definition Reliable (w : World) : Prop := forall t, storeError w t = None.


(** The same records, row by row: the columns the worker never writes. *)
Definition SameRecord (r r' : ZkosTransfer) : Prop :=
  id r' = id r /\ zkTxId r' = zkTxId r /\ txByteCode r' = txByteCode r.

(** The decode columns of a row are within the retry bound. *)
Definition WithinAttempts (row : ZkosTransfer) : Prop :=
  decodeAttempts row <= MAX_ATTEMPTS /\
  (decodeStatus row = "failed" -> decodeAttempts row = MAX_ATTEMPTS) /\
  (decodeStatus row = "pending" -> decodeAttempts row < MAX_ATTEMPTS).

(** A run relates the rows of the table one by one. *)
Definition Touches (P : ZkosTransfer -> ZkosTransfer -> Prop) (s s' : State) : Prop :=
  Forall2 P (table s) (table s').

(** The updates the worker makes for a record relate each row they change
    to the row they leave. *)
Definition Respects (P : ZkosTransfer -> ZkosTransfer -> Prop)
  (record : ZkosTransfer) : Prop :=
  (forall r decoded, id r = id record -> P r (decodedOk record decoded r)) /\
  (forall r message, id r = id record -> P r (decodeFailed record message r)).

(** Rows identified by their id; the rows named in [ids] apart, a run
    leaves every row as it was. *)
Definition OnlyTouches (ids : list Z) (r r' : ZkosTransfer) : Prop :=
  SameRecord r r' /\ (~ In (id r) ids -> r' = r).

(** The attempts a row may still take: none once it is settled. *)
Definition attemptsLeft (row : ZkosTransfer) : Z :=
  if String.eqb (decodeStatus row) "pending" && (decodeAttempts row <? MAX_ATTEMPTS)
  then MAX_ATTEMPTS - decodeAttempts row else 0.

(** The attempts the whole table may still take. *)
Definition backlog (rows : list ZkosTransfer) : Z :=
  foldr (fun row acc => attemptsLeft row + acc) 0 rows.

End Enrichment.

(* ===================================================================== *)
(** * Scenarios *)
(* ===================================================================== *)

(** Concrete ledgers, stores and workers on which the model is run. *)
Module Scenarios.
Import Js Decoders Exec Sync.


Definition sendMsg : Obj :=
  [ ("@type", JStr "/cosmos.bank.v1beta1.MsgSend");
    ("from_address", JStr "twilight1sender00");
    ("to_address", JStr "short") ].



Definition txOf (hash : string) (messages : list Obj) : TxResponse :=
  {| txhash := hash;
     body := Some (messages, "");
     signer_infos := Some [Some "A1B2"];
     fee := JUndefined;
     gas_used := "10";
     gas_wanted := "20";
     code := 0;
     raw_log := "";
     events := Some [ {| ev_type := "message"; ev_attributes := [("action", "send")] |} ] |}.

Definition blockAt (hash : string) (prev : option string) : Block :=
  {| block_id_hash := hash;
     header := {| time := "2024-02-04T00:00:00Z"; last_block_id_hash := prev;
                  proposer_address := "PROPOSER" |} |}.

(** A ledger of four blocks whose answers do not depend on the time of the
    call: block 3 names a predecessor hash that is not block 2's, block 4
    carries an empty predecessor hash, block 2 holds one transaction. *)
Definition ledger : nat -> Z -> Sync.Result Block := fun _ h =>
  if Z.eqb h 1 then Ok (blockAt "H1" None)
  else if Z.eqb h 2 then Ok (blockAt "H2" (Some "H1"))
  else if Z.eqb h 3 then Ok (blockAt "H3" (Some "XX"))
  else if Z.eqb h 4 then Ok (blockAt "H4" (Some ""))
  else Throw (HttpError 404).

Definition worldWith (blocksAt : nat -> Z -> Sync.Result Block) (failsAt : nat -> bool) : World :=
  {| getBlockByHeight := blocksAt;
     getTxsByHeight := fun _ h =>
       if Z.eqb h 2 then Ok (Some [txOf "TX1" [sendMsg]]) else Ok (Some []);
     getLatestBlockHeight := fun _ => Ok (Some 4);
     storeFails := failsAt;
     tryAdvisoryLock := fun _ => Ok true |}.

Definition steady : World := worldWith ledger (fun _ => false).

(** The ledger answers the first request with status 400 and then as
    [ledger]. *)
Definition flaky (failsAt : nat -> bool) : World :=
  worldWith (fun t h => if Nat.eqb t 0 then Throw (HttpError 400) else ledger t h) failsAt.

Definition rowOf (hash : string) : BlockRow :=
  {| b_hash := hash; b_timestamp := "2024-02-04T00:00:00Z"; b_proposer := Some "PROPOSER";
     b_txCount := 0; b_gasUsed := 0; b_gasWanted := 0 |}.

(** A store holding one block and the checkpoint at its height. *)
Definition storeAt (height : Z) (hash : string) : Store :=
  {| blocks := {[ height := rowOf hash ]}; transactions := []; eventRows := [];
     accounts := ∅; indexerState := {[ lastIndexedHeightKey := toString height ]};
     domain := [] |}.

Definition config : Config := {| startHeight := 1; pollInterval := 2000; batchSize := 10 |}.

(** A second instance: the advisory lock is held by another one. *)
Definition contended : World :=
  {| getBlockByHeight := ledger;
     getTxsByHeight := fun _ _ => Ok (Some []);
     getLatestBlockHeight := fun _ => Ok (Some 4);
     storeFails := fun _ => false;
     tryAdvisoryLock := fun _ => Ok false |}.

(** The ledger with its transaction query out of order. *)
Definition txQueryDown : World :=
  {| getBlockByHeight := ledger;
     getTxsByHeight := fun _ _ => Throw TransportError;
     getLatestBlockHeight := fun _ => Ok (Some 4);
     storeFails := fun _ => false;
     tryAdvisoryLock := fun _ => Ok true |}.

(** A message without a type identifier. *)
Definition untypedMsg : Obj := [ ("amount", JStr "1") ].

(** The ledger whose block 2 holds a transaction with such a message. *)
Definition poisoned : World :=
  {| getBlockByHeight := ledger;
     getTxsByHeight := fun _ _ => Ok (Some [txOf "TX9" [sendMsg; untypedMsg]]);
     getLatestBlockHeight := fun _ => Ok (Some 4);
     storeFails := fun _ => false;
     tryAdvisoryLock := fun _ => Ok true |}.

End Scenarios.

Module WorkerScenarios.
Import Js Exec Enrichment.

Definition freshTransfer (i : Z) (payload : string) : ZkosTransfer :=
  {| id := i; zkTxId := "zk"; txByteCode := payload;
     decodedData := JNull; inputs := JNull; outputs := JNull; programType := JNull;
     decodeStatus := "pending"; decodeAttempts := 0; lastDecodeError := None |}.

(** A decode API that rejects every request for payload [bad] and answers
    every other one. *)
Definition rejecting (bad : string) : World :=
  {| axiosPost := fun _ payload =>
       if String.eqb payload bad then Throw "timeout of 10000ms exceeded"
       else Ok (JObj [("tx_type", JStr "Transfer"); ("inputs", JArr []);
                      ("outputs", JArr [])]);
     storeError := fun _ => None |}.

(** A decode API that rejects the requests made before clock value [t0] and
    answers the later ones. *)
Definition recovering (t0 : nat) : World :=
  {| axiosPost := fun t _ =>
       if (t <? t0)%nat then Throw "connect ECONNREFUSED"
       else Ok (JObj [("summary", JObj [("program_type", JStr "Transfer")]);
                      ("inputs", JArr []); ("outputs", JArr [])]);
     storeError := fun _ => None |}.

Definition workerState (rows : list ZkosTransfer) : State :=
  {| table := rows; running := true; stopRequested := false; logged := []; clock := 0 |}.

(** A decode API that answers every request with status 200 and a body
    that is not JSON. *)
Definition unparsable : World :=
  {| axiosPost := fun _ _ => Ok (JStr "upstream not ready");
     storeError := fun _ => None |}.

(** A decode API that answers every request, before a store that rejects the
    operation issued at clock value [t0]. *)
Definition storeDownAt (t0 : nat) : World :=
  {| axiosPost := fun _ _ => Ok (JObj [("tx_type", JStr "Transfer")]);
     storeError := fun t => if Nat.eqb t t0 then Some "deadlock detected" else None |}.

End WorkerScenarios.

(* ===================================================================== *)
(** * Properties *)
(* ===================================================================== *)

(** ** Values and the decimal runtime *)

Module JsFacts.
Import Js.

(** Induction on values that reaches the items of arrays and the fields of
    objects. *)
Lemma JValue_nested_ind (P : JValue -> Prop) :
  P JUndefined -> P JNull -> (forall b, P (JBool b)) -> (forall n, P (JNum n)) ->
  P JNaN -> (forall s, P (JStr s)) -> (forall z, P (JBigInt z)) ->
  (forall items, Forall P items -> P (JArr items)) ->
  (forall fields, Forall (fun kv => P (snd kv)) fields -> P (JObj fields)) ->
  forall v, P v.
Proof.
  intros Hu Hn Hb Hnum Hnan Hs Hz Harr Hobj.
  fix IH 1. intros [ | | b | n | | s | z | items | fields ].
  - exact Hu.
  - exact Hn.
  - apply Hb.
  - apply Hnum.
  - exact Hnan.
  - apply Hs.
  - apply Hz.
  - apply Harr. induction items as [ | x xs IHxs ]; constructor.
    + apply IH.
    + exact IHxs.
  - apply Hobj. induction fields as [ | [k x] fs IHfs ]; constructor.
    + apply IH.
    + exact IHfs.
Qed.





End JsFacts.

(** ** Message decode registry *)

Module DecoderFacts.
Import Js Decoders JsFacts.







Section WithRuntime.
Context {rt : JsRuntime}.






(** The specific decoders are those of the identifiers listed in
    [MESSAGE_TYPES]. *)
Lemma specificDecoder_unknown (msgType : string) :
  ~ In msgType getAllMessageTypes -> specificDecoder msgType = None.
Proof.
  intros Hnot.
  assert (Hne : forall c, In c getAllMessageTypes -> String.eqb msgType c = false).
  { intros c Hc. apply String.eqb_neq. intros ->. now apply Hnot. }
  unfold specificDecoder, bridgeSwitch, forksSwitch, voltSwitch, zkosSwitch.
  repeat match goal with
         | |- context [String.eqb msgType ?c] =>
             rewrite (Hne c) by (vm_compute; tauto)
         end.
  now repeat match goal with |- context [if ?c then _ else _] => destruct c end.
Qed.

Lemma specificDecoder_known (msgType : string) :
  In msgType getAllMessageTypes -> specificDecoder msgType <> None.
Proof.
  intros Hin.
  repeat (destruct Hin as [ <- | Hin ]; [ vm_compute; discriminate | ]).
  destruct Hin.
Qed.


(** A message with a string type identifier is always decoded. *)
Lemma decodeMessage_total (msg : Obj) (msgType : string) :
  get msg "@type" = JStr msgType ->
  exists decoded, decodeMessage msg = Some decoded /\ type decoded = msgType.
Proof.
  intros Htype. unfold decodeMessage. rewrite Htype. eexists. split; reflexivity.
Qed.


End WithRuntime.

(** [serializeDecodedData] alone goes one level into an array: a bigint
    inside an object inside an array is left where it is.  No decoder builds
    such a value from a JSON message. *)
Example serializeDecodedData_one_level :
  serializeDecodedData [("a", JArr [JObj [("b", JBigInt 1)]])]
  = [("a", JArr [JObj [("b", JBigInt 1)]])].
Proof. reflexivity. Qed.

(** ** The table of message types *)

Lemma find_type_In (msgType : string) (kv : string * string) :
  find (fun kv => String.eqb (snd kv) msgType) MESSAGE_TYPES = Some kv ->
  In kv MESSAGE_TYPES /\ snd kv = msgType.
Proof.
  intros H. apply find_some in H as [Hin Heq].
  split; [ exact Hin | now apply String.eqb_eq ].
Qed.

(** The reverse table inverts [MESSAGE_TYPES]: its entry for a type
    identifier is the name of the constant that holds that identifier, and
    it has an entry for no other string.  No two constants hold the same
    identifier. *)
Theorem message_type_names_inverse :
  (forall name msgType,
     MESSAGE_TYPE_NAMES msgType = Some name <-> In (name, msgType) MESSAGE_TYPES)
  /\ List.NoDup getAllMessageTypes
  /\ length getAllMessageTypes = 23%nat.
Proof.
  split; [ | split; [ | reflexivity ] ].
  - intros name msgType. unfold MESSAGE_TYPE_NAMES. split.
    + destruct (find _ MESSAGE_TYPES) as [ [k v] | ] eqn:Hfind; [ | discriminate ].
      apply find_type_In in Hfind as [Hin Hv]. cbn in *. intros [= <-]. now subst.
    + intros Hin.
      repeat (destruct Hin as [ Hin | Hin ];
              [ injection Hin as <- <-; reflexivity | ]).
      destruct Hin.
  - apply NoDup_ListNoDup. apply (bool_decide_unpack _). vm_compute. reflexivity.
Qed.

Section Registry.
Context {rt : JsRuntime}.

(** The registry and the table agree: [decodeMessage] has a specific decoder
    for a type identifier exactly when [MESSAGE_TYPES] lists it.  A message
    of a listed type is a Twilight message, and is decoded under the name of
    its constant and the module of its namespace. *)
Theorem registry_covers_message_types (msgType : string) :
  (In msgType getAllMessageTypes <-> is_Some (specificDecoder msgType))
  /\
  (In msgType getAllMessageTypes ->
   isTwilightMessage msgType = true /\
   exists name namespace,
     In (name, msgType) MESSAGE_TYPES /\
     getModuleFromType msgType = Some namespace /\
     includes msgType ("." ++ namespace ++ ".") = true /\
     forall msg, get msg "@type" = JStr msgType ->
                 exists decoded,
                   decodeMessage msg = Some decoded /\
                   typeName decoded = name /\ module decoded = Some namespace).
Proof.
  split.
  - split.
    + intros Hin. pose proof (specificDecoder_known msgType Hin) as Hk.
      destruct (specificDecoder msgType); [ eauto | congruence ].
    + intros [decoder Hd].
      destruct (in_dec string_dec msgType getAllMessageTypes) as [ Hin | Hnot ];
        [ exact Hin | ].
      rewrite (specificDecoder_unknown msgType Hnot) in Hd. discriminate.
  - intros Hin.
    repeat (destruct Hin as [ <- | Hin ];
            [ split; [ reflexivity | ];
              eexists _, _; split; [ cbn; tauto | ];
              split; [ reflexivity | ]; split; [ reflexivity | ];
              intros msg Htype; unfold decodeMessage; rewrite Htype;
              eexists; split; [ reflexivity | ]; split; reflexivity | ]).
    destruct Hin.
Qed.

(** A specific decoder throws only over a number: when [BigInt] accepts
    each of the numeric fields of a message (an absent field counts as 0)
    and each of its signer application ids, the decoder of its type returns,
    and [decodeMessage] hands on what it returned, not the passthrough
    copy. *)
Theorem specific_decoder_needs_numbers (msgType : string)
  (decoder : Obj -> option Obj) (msg : Obj) :
  specificDecoder msgType = Some decoder ->
  get msg "@type" = JStr msgType ->
  (forall k, In k numericFields -> big0 msg k <> None) ->
  (exists ids, jsOr (get msg "signerApplicationIds") (JArr []) = JArr ids /\
               forall id, In id ids -> BigInt id <> None) ->
  exists decodedData decoded,
    decoder msg = Some decodedData /\
    decodeMessage msg = Some decoded /\
    data decoded = decodedData.
Proof.
  intros Hd Htype Hnum (ids & Hids & Hall).
  assert (Hrun : exists decodedData, decoder msg = Some decodedData).
  { revert Hd.
    unfold specificDecoder, bridgeSwitch, forksSwitch, voltSwitch, zkosSwitch.
    intros Hd.
    repeat match type of Hd with
           | (if ?c then _ else _) = _ => destruct c
           end;
      try discriminate Hd; injection Hd as <-;
      cbv beta delta [decodeConfirmBtcDeposit decodeRegisterBtcDepositAddress
             decodeRegisterReserveAddress decodeBootstrapFragment
             decodeWithdrawBtcRequest decodeSweepProposal decodeWithdrawTxSigned
             decodeWithdrawTxFinal decodeConfirmBtcWithdraw decodeSignRefund
             decodeBroadcastTxSweep decodeSignSweep decodeProposeRefundHash
             decodeUnsignedTxSweep decodeUnsignedTxRefund decodeBroadcastTxRefund
             decodeProposeSweepAddress decodeSetDelegateAddresses
             decodeSeenBtcChainTip decodeSignerApplication decodeAcceptSigners
             decodeTransferTx decodeMintBurnTradingBtc];
      repeat match goal with
             | |- context [big0 msg ?k] =>
                 let H := fresh "Hk" in
                 destruct (big0 msg k) eqn:H;
                 [ cbn [mbind option_bind]
                 | exfalso; apply (Hnum k); [ cbn; tauto | exact H ] ]
             end;
      try (eexists; reflexivity).
    all: rewrite Hids.
    all: assert (Hmap : exists zs, mapM BigInt ids = Some zs)
           by (apply mapM_is_Some, Forall_forall; intros id Hid;
               apply list_elem_of_In in Hid;
               destruct (BigInt id) eqn:Hb; [ eauto | now destruct (Hall id Hid) ]).
    all: destruct Hmap as (zs & ->); cbn; eexists; reflexivity. }
  destruct Hrun as (decodedData & Hrun).
  exists decodedData. unfold decodeMessage. rewrite Htype, Hd, Hrun.
  eexists. split; [ reflexivity | ]. split; reflexivity.
Qed.

End Registry.

(** ** Serialization *)

Lemma serializeElement_idempotent (v : JValue) :
  serializeElement (serializeElement v) = serializeElement v.
Proof. now destruct v. Qed.

Lemma serializeValue_idempotent (v : JValue) :
  serializeValue (serializeValue v) = serializeValue v.
Proof.
  induction v as [ | | b | n | | s | z | items IH | fields IH ]
    using JValue_nested_ind; cbn; try reflexivity.
  - f_equal. rewrite map_map. apply map_ext. intros x. apply serializeElement_idempotent.
  - f_equal. induction fields as [ | [k x] fs IHfs ]; cbn; [ reflexivity | ].
    apply Forall_cons in IH as [IHx IHrest].
    destruct (String.eqb k "__proto__") eqn:Hk; cbn.
    + now apply IHfs.
    + rewrite Hk. cbn in IHx. rewrite IHx. f_equal. now apply IHfs.
Qed.

(** Serializing serialized data changes nothing. *)
Theorem serializeDecodedData_idempotent (data : Obj) :
  serializeDecodedData (serializeDecodedData data) = serializeDecodedData data.
Proof.
  induction data as [ | [k x] rest IH ]; cbn; [ reflexivity | ].
  destruct (String.eqb k "__proto__") eqn:Hk; cbn; [ exact IH | ].
  now rewrite Hk, serializeValue_idempotent, IH.
Qed.

Lemma get_serializeDecodedData (data : Obj) (k : string) :
  k <> "__proto__" ->
  get (serializeDecodedData data) k = serializeValue (get data k).
Proof.
  intros Hk. induction data as [ | [k0 x] rest IH ]; cbn; [ reflexivity | ].
  destruct (String.eqb k0 "__proto__") eqn:Hp.
  - apply String.eqb_eq in Hp as ->.
    destruct (String.eqb "__proto__" k) eqn:Hk'; [ | exact IH ].
    apply String.eqb_eq in Hk'. congruence.
  - cbn. destruct (String.eqb k0 k); [ reflexivity | exact IH ].
Qed.

(** ** The serialized form against the value *)







(** Where the value holds a bigint, its stored form holds the decimal
    string of that bigint. *)
Lemma decimalized_bigint_inv (z : Z) (v : JValue) :
  Decimalized (JBigInt z) v -> v = JStr (toString z).
Proof. inversion 1; [ reflexivity | contradiction ]. Qed.

(** A field of the serialized data is the serialized field of the data; in
    particular a bigint the decoder produced is stored as the decimal string
    that a [BigInt] which reads what [toString] writes parses back to the
    same integer, as [processCustomMessages] does for the side tables. *)
Theorem serialized_bigint_parses_back {rt : JsRuntime} (data : Obj) (k : string) :
  k <> "__proto__" ->
  (forall z, BigInt (JStr (toString z)) = Some z) ->
  get (serializeDecodedData data) k = serializeValue (get data k) /\
  forall z, get data k = JBigInt z ->
            get (serializeDecodedData data) k = JStr (toString z) /\
            BigInt (get (serializeDecodedData data) k) = Some z.
Proof.
  intros Hk Hparse. pose proof (get_serializeDecodedData data k Hk) as Hget.
  split; [ exact Hget | ].
  intros z Hz. rewrite Hget, Hz. cbn. auto.
Qed.

(** ** The decoders on sample messages *)

Section DecoderWitnesses.
#[local] Existing Instance decimalRuntime.

(** A deposit confirmation whose numbers are decimal. *)
Lemma specific_decoder_needs_numbers_witness :
  let msg := [ ("@type", JStr CONFIRM_BTC_DEPOSIT);
               ("reserveAddress", JStr "bc1qreserve0");
               ("depositAmount", JStr "100");
               ("height", JStr "7");
               ("hash", JStr "00ab") ] in
  exists decodedData decoded,
    decodeConfirmBtcDeposit msg = Some decodedData /\
    decodeMessage msg = Some decoded /\
    data decoded = decodedData /\
    get decodedData "depositAmount" = JBigInt 100 /\
    get decodedData "btcHash" = JStr "00ab".
Proof.
  intros msg.
  assert (Hnum : forall k, In k numericFields -> big0 msg k <> None).
  { intros k Hk. repeat (destruct Hk as [ <- | Hk ]; [ discriminate | ]). destruct Hk. }
  assert (Hids : exists ids, jsOr (get msg "signerApplicationIds") (JArr []) = JArr ids /\
                             forall id, In id ids -> BigInt id <> None).
  { exists []. split; [ reflexivity | intros id [] ]. }
  destruct (specific_decoder_needs_numbers CONFIRM_BTC_DEPOSIT decodeConfirmBtcDeposit msg
              eq_refl eq_refl Hnum Hids) as (decodedData & decoded & H1 & H2 & H3).
  exists decodedData, decoded. split; [ exact H1 | ]. split; [ exact H2 | ].
  split; [ exact H3 | ].
  vm_compute in H1. injection H1 as <-. split; reflexivity.
Defined.

(** The amount of a decoded deposit, stored and read again. *)
Lemma serialized_bigint_parses_back_witness :
  let data := [ ("reserveAddress", JStr "bc1qreserve0"); ("depositAmount", JBigInt 100) ] in
  get (serializeDecodedData data) "depositAmount" = JStr "100" /\
  BigInt (get (serializeDecodedData data) "depositAmount") = Some 100.
Proof.
  intros data.
  assert (Hk : "depositAmount" <> "__proto__") by discriminate.
  exact (proj2 (serialized_bigint_parses_back data "depositAmount" Hk toString_roundtrip)
           100 eq_refl).
Defined.

End DecoderWitnesses.

End DecoderFacts.

(** ** Computations *)

Module ExecFacts.
Import Exec.

Section Preservation.
Context {S E : Type} (R : S -> S -> Prop).
Context (R_refl : forall s, R s s) (R_trans : forall a b c, R a b -> R b c -> R a c).

Lemma preserves_ret {A} (a : A) : Preserves R (@ret S E A a).
Proof. intros s r s' [= <- <-]. apply R_refl. Qed.

Lemma preserves_throw {A} (e : E) : Preserves R (@throw S E A e).
Proof. intros s r s' [= <- <-]. apply R_refl. Qed.

Lemma preserves_gets {A} (f : S -> A) : Preserves R (@gets S E A f).
Proof. intros s r s' [= <- <-]. apply R_refl. Qed.

Lemma preserves_liftResult {A} (x : Result E A) : Preserves R (@liftResult S E A x).
Proof. intros s r s' [= <- <-]. apply R_refl. Qed.

Lemma preserves_sleep (ms : Z) : Preserves R (@sleep S E ms).
Proof. apply preserves_ret. Qed.

Lemma preserves_modify (f : S -> S) :
  (forall s, R s (f s)) -> Preserves R (@modify S E f).
Proof. intros H s r s' [= <- <-]. apply H. Qed.

Lemma preserves_bind {A B} (m : M S E A) (k : A -> M S E B) :
  Preserves R m -> (forall a, Preserves R (k a)) -> Preserves R (bind m k).
Proof.
  intros Hm Hk s r s'. unfold bind.
  destruct (m s) as [[a | e] s1] eqn:Em.
  - intros Hr. eapply R_trans; [ eapply Hm, Em | eapply Hk, Hr ].
  - intros [= <- <-]. eapply Hm, Em.
Qed.

Lemma preserves_tryCatch {A} (m : M S E A) (h : E -> M S E A) :
  Preserves R m -> (forall e, Preserves R (h e)) -> Preserves R (tryCatch m h).
Proof.
  intros Hm Hh s r s'. unfold tryCatch.
  destruct (m s) as [[a | e] s1] eqn:Em.
  - intros [= <- <-]. eapply Hm, Em.
  - intros Hr. eapply R_trans; [ eapply Hm, Em | eapply Hh, Hr ].
Qed.

Lemma preserves_forEach {A} (l : list A) (f : A -> M S E unit) :
  (forall x, In x l -> Preserves R (f x)) -> Preserves R (forEach l f).
Proof.
  induction l as [ | x rest IH ]; intros Hf; simpl.
  - apply preserves_ret.
  - apply preserves_bind.
    + apply Hf. now left.
    + intros _. apply IH. intros y Hy. apply Hf. now right.
Qed.

End Preservation.

Section ErrorKinds.
Context {S E : Type} (P : E -> Prop).

Lemma throwsOnly_ret {A} (a : A) : ThrowsOnly P (@ret S E A a).
Proof. intros s e s'. discriminate. Qed.

Lemma throwsOnly_gets {A} (f : S -> A) : ThrowsOnly P (@gets S E A f).
Proof. intros s e s'. discriminate. Qed.

Lemma throwsOnly_modify (f : S -> S) : ThrowsOnly P (@modify S E f).
Proof. intros s e s'. discriminate. Qed.

Lemma throwsOnly_throw {A} (e : E) : P e -> ThrowsOnly P (@throw S E A e).
Proof. now intros He s e' s' [= <- <-]. Qed.

Lemma throwsOnly_bind {A B} (m : M S E A) (k : A -> M S E B) :
  ThrowsOnly P m -> (forall a, ThrowsOnly P (k a)) -> ThrowsOnly P (bind m k).
Proof.
  intros Hm Hk s e s'. unfold bind. destruct (m s) as [[a | e0] s1] eqn:Em.
  - apply Hk.
  - intros [= <- <-]. eapply Hm, Em.
Qed.

Lemma throwsOnly_tryCatch {A} (m : M S E A) (h : E -> M S E A) :
  (forall e, ThrowsOnly P (h e)) -> ThrowsOnly P (tryCatch m h).
Proof.
  intros Hh s e s'. unfold tryCatch. destruct (m s) as [[a | e0] s1].
  - discriminate.
  - apply Hh.
Qed.

Lemma throwsOnly_forEach {A} (l : list A) (f : A -> M S E unit) :
  (forall x, ThrowsOnly P (f x)) -> ThrowsOnly P (forEach l f).
Proof.
  intros Hf. induction l as [ | x rest IH ]; simpl.
  - apply throwsOnly_ret.
  - apply throwsOnly_bind; auto.
Qed.

Lemma neverThrows_throwsOnly {A} (m : M S E A) : NeverThrows m -> ThrowsOnly P m.
Proof. intros Hm s e s' H. destruct (Hm s) as (a & s1 & H1). congruence. Qed.

End ErrorKinds.

Section Totality.
Context {S E : Type}.

Lemma neverThrows_ret {A} (a : A) : NeverThrows (@ret S E A a).
Proof. intros s. now eexists _, _. Qed.

Lemma neverThrows_bind {A B} (m : M S E A) (k : A -> M S E B) :
  NeverThrows m -> (forall a, NeverThrows (k a)) -> NeverThrows (bind m k).
Proof.
  intros Hm Hk s. unfold bind. destruct (Hm s) as (a & s1 & ->). apply Hk.
Qed.

Lemma neverThrows_modify (f : S -> S) : NeverThrows (@modify S E f).
Proof. intros s. now eexists _, _. Qed.

Lemma neverThrows_gets {A} (f : S -> A) : NeverThrows (@gets S E A f).
Proof. intros s. now eexists _, _. Qed.

Lemma neverThrows_tryCatch {A} (m : M S E A) (h : E -> M S E A) :
  (forall e, NeverThrows (h e)) -> NeverThrows (tryCatch m h).
Proof.
  intros Hh s. unfold tryCatch. destruct (m s) as [[a | e] s1].
  - now eexists _, _.
  - apply Hh.
Qed.

Lemma neverThrows_forEach {A} (l : list A) (f : A -> M S E unit) :
  (forall x, NeverThrows (f x)) -> NeverThrows (forEach l f).
Proof.
  intros Hf. induction l as [ | x rest IH ]; simpl.
  - apply neverThrows_ret.
  - apply neverThrows_bind; auto.
Qed.

End Totality.
End ExecFacts.

(** ** Sync engine *)

Module SyncFacts.
Import Js Decoders Exec Exec.Notations Sync ExecFacts JsFacts DecoderFacts.

Section Engine.
Context {rt : JsRuntime} (w : World).

Lemma dbWrite_run (change : Store -> Store) (s : State) :
  dbWrite w change s =
  if storeFails w (clock s) then (Throw StoreError, withTick s)
  else (Ok tt, withStore (change (store s)) (withTick s)).
Proof. unfold dbWrite, bind, tick. simpl. now destruct (storeFails w (clock s)). Qed.

Lemma dbRead_run {A} (query : Store -> A) (s : State) :
  dbRead w query s =
  if storeFails w (clock s) then (Throw StoreError, withTick s)
  else (Ok (query (store s)), withTick s).
Proof. unfold dbRead, bind, tick. simpl. now destruct (storeFails w (clock s)). Qed.

Lemma lcd_run {A} (call : nat -> Z -> Result A) (height : Z) (s : State) :
  lcd call height s = (call (clock s) height, withTick s).
Proof. reflexivity. Qed.

Lemma preserves_dbWrite (R : State -> State -> Prop) (change : Store -> Store) :
  (forall s, R s (withTick s)) ->
  (forall s, R s (withStore (change (store s)) (withTick s))) ->
  Preserves R (dbWrite w change).
Proof.
  intros Ht Hc s r s'. rewrite dbWrite_run.
  destruct (storeFails w (clock s)); intros [= <- <-]; auto.
Qed.

(** ** Statements of a transaction *)

Lemma aborted_spec (tx : TxClient) (t : nat) :
  aborted w tx t = true <-> exists u, (tx <= u <= t)%nat /\ storeFails w u = true.
Proof.
  unfold aborted. rewrite existsb_exists. split.
  - intros (u & Hin & Hu). apply in_seq in Hin. exists u. split; [ lia | exact Hu ].
  - intros (u & Hin & Hu). exists u. split; [ | exact Hu ]. apply in_seq. lia.
Qed.

Lemma aborted_false (tx : TxClient) (t : nat) :
  aborted w tx t = false <-> forall u, (tx <= u <= t)%nat -> storeFails w u = false.
Proof.
  rewrite <- not_true_iff_false, aborted_spec. split.
  - intros Hno u Hu. destruct (storeFails w u) eqn:Hf; [ | reflexivity ].
    destruct Hno. now exists u.
  - intros Hall (u & Hu & Hf). rewrite (Hall u Hu) in Hf. discriminate.
Qed.

Lemma aborted_mono (tx : TxClient) (t t' : nat) :
  aborted w tx t = true -> (t <= t')%nat -> aborted w tx t' = true.
Proof.
  rewrite !aborted_spec. intros (u & Hu & Hf) Hle. exists u. split; [ lia | exact Hf ].
Qed.

Lemma aborted_reliable (tx : TxClient) (t : nat) :
  (forall u, storeFails w u = false) -> aborted w tx t = false.
Proof. intros Hok. apply aborted_false. auto. Qed.

Lemma aborted_first (tx : TxClient) :
  aborted w tx tx = storeFails w tx.
Proof.
  unfold aborted. replace (S tx - tx)%nat with 1%nat by lia. cbn. apply orb_false_r.
Qed.

Lemma txWrite_run (tx : TxClient) (change : Store -> Store) (s : State) :
  txWrite w tx change s =
  if aborted w tx (clock s) then (Throw StoreError, withTick s)
  else (Ok tt, withStore (change (store s)) (withTick s)).
Proof. unfold txWrite, bind, tick. simpl. now destruct (aborted w tx (clock s)). Qed.

Lemma preserves_txWrite (R : State -> State -> Prop) (tx : TxClient)
  (change : Store -> Store) :
  (forall s, R s (withTick s)) ->
  (forall s, R s (withStore (change (store s)) (withTick s))) ->
  Preserves R (txWrite w tx change).
Proof.
  intros Ht Hc s r s'. rewrite txWrite_run.
  destruct (aborted w tx (clock s)); intros [= <- <-]; auto.
Qed.

(** ** Addresses *)

Lemma setAdd_In (x y : string) (set : list string) :
  In y (setAdd x set) <-> y = x \/ In y set.
Proof.
  unfold setAdd. case_bool_decide as Hx.
  - apply list_elem_of_In in Hx. split; [ tauto | intros [ -> | ]; auto ].
  - rewrite in_app_iff. simpl. split; [ intros [ | [ | [] ] ]; auto | intros [ | ]; auto ].
Qed.

Lemma setAdd_NoDup (x : string) (set : list string) :
  List.NoDup set -> List.NoDup (setAdd x set).
Proof.
  intros Hnd. unfold setAdd. case_bool_decide as Hx; [ exact Hnd | ].
  apply NoDup_ListNoDup. apply NoDup_app. repeat split.
  - now apply NoDup_ListNoDup.
  - intros y Hy [= ->]%list_elem_of_singleton. contradiction.
  - apply NoDup_singleton.
Qed.

Lemma collectFromData_In (data : Obj) (set : list string) (a : string) :
  In a (collectFromData data set) <->
  In a set \/ exists key value, In (key, value) data /\ looksLikeAddress key value = Some a.
Proof.
  unfold collectFromData. revert set.
  induction data as [ | [k v] rest IH ]; intros set; simpl.
  - split; [ auto | intros [ | (? & ? & [] & _) ]; auto ].
  - rewrite IH. destruct (looksLikeAddress k v) as [ x | ] eqn:Hl.
    + rewrite setAdd_In. split.
      * intros [ [ -> | H ] | (key & value & Hin & Hlk) ]; eauto 8.
      * intros [ H | (key & value & [ [= <- <-] | Hin ] & Hlk) ]; eauto 8.
        left. left. congruence.
    + split.
      * intros [ H | (key & value & Hin & Hlk) ]; eauto 8.
      * intros [ H | (key & value & [ [= <- <-] | Hin ] & Hlk) ]; eauto 8.
        congruence.
Qed.

Lemma collectFromData_NoDup (data : Obj) (set : list string) :
  List.NoDup set -> List.NoDup (collectFromData data set).
Proof.
  unfold collectFromData. revert set.
  induction data as [ | [k v] rest IH ]; intros set Hnd; simpl; [ exact Hnd | ].
  apply IH. destruct (looksLikeAddress k v); [ now apply setAdd_NoDup | exact Hnd ].
Qed.

Lemma collectMessages_In (msgs : list StoredMessage) (set : list string) (a : string) :
  In a (fold_left (fun acc msg => collectFromData (sm_data msg) acc) msgs set) <->
  In a set \/ exists msg key value,
      In msg msgs /\ In (key, value) (sm_data msg) /\ looksLikeAddress key value = Some a.
Proof.
  revert set. induction msgs as [ | m rest IH ]; intros set; simpl.
  - split; [ auto | intros [ | (? & ? & ? & [] & _) ]; auto ].
  - rewrite IH, collectFromData_In. split.
    + intros [ [ H | (key & value & Hin & Hlk) ] | (msg & key & value & Hm & Hin & Hlk) ];
        eauto 10.
    + intros [ H | (msg & key & value & [ <- | Hm ] & Hin & Hlk) ]; eauto 10.
Qed.

Lemma collectMessages_NoDup (msgs : list StoredMessage) (set : list string) :
  List.NoDup set ->
  List.NoDup (fold_left (fun acc msg => collectFromData (sm_data msg) acc) msgs set).
Proof.
  revert set. induction msgs as [ | m rest IH ]; intros set Hnd; simpl; [ exact Hnd | ].
  apply IH. now apply collectFromData_NoDup.
Qed.

(** An address is collected exactly when some decoded message field looks
    like it. *)
Lemma collectAddresses_In (transactions : list ProcessedTransaction) (a : string) :
  In a (collectAddresses transactions) <->
  exists txData msg key value,
    In txData transactions /\ In msg (tx_messages txData) /\
    In (key, value) (sm_data msg) /\ looksLikeAddress key value = Some a.
Proof.
  unfold collectAddresses.
  enough (Hgen : forall set,
    In a (fold_left (fun acc txData =>
                       fold_left (fun acc' msg => collectFromData (sm_data msg) acc')
                                 (tx_messages txData) acc) transactions set) <->
    In a set \/ exists txData msg key value,
      In txData transactions /\ In msg (tx_messages txData) /\
      In (key, value) (sm_data msg) /\ looksLikeAddress key value = Some a).
  { rewrite Hgen. simpl. tauto. }
  induction transactions as [ | t rest IH ]; intros set; simpl.
  - split; [ auto | intros [ | (? & ? & ? & ? & [] & _) ]; auto ].
  - rewrite IH, collectMessages_In. split.
    + intros [ [ H | (msg & key & value & Hm & Hin & Hlk) ]
             | (txData & msg & key & value & Ht & Hm & Hin & Hlk) ]; eauto 12.
    + intros [ H | (txData & msg & key & value & [ <- | Ht ] & Hm & Hin & Hlk) ];
        eauto 12.
Qed.

Lemma collectAddresses_NoDup (transactions : list ProcessedTransaction) :
  List.NoDup (collectAddresses transactions).
Proof.
  unfold collectAddresses. generalize (@List.NoDup_nil string).
  generalize (@nil string) as set.
  induction transactions as [ | t rest IH ]; intros set Hnd; simpl; [ exact Hnd | ].
  apply IH. now apply collectMessages_NoDup.
Qed.

Lemma skipAddress_false (address : string) :
  skipAddress address = false <-> address <> "" /\ (10 <= String.length address)%nat.
Proof.
  unfold skipAddress. rewrite orb_false_iff, String.eqb_neq, Nat.ltb_ge. tauto.
Qed.

(** ** [updateAccounts] *)

Lemma upsertAccount_lookup (a blockTime : string) (st : Store) :
  accounts (upsertAccount a blockTime st) !! a =
  Some match accounts st !! a with
       | Some old => {| a_txCount := a_txCount old + 1;
                        a_firstSeen := a_firstSeen old; a_lastSeen := blockTime |}
       | None => {| a_txCount := 1; a_firstSeen := blockTime; a_lastSeen := blockTime |}
       end.
Proof. unfold upsertAccount. simpl. now rewrite lookup_insert_eq. Qed.

Lemma upsertAccount_other (a x blockTime : string) (st : Store) :
  x <> a -> accounts (upsertAccount x blockTime st) !! a = accounts st !! a.
Proof. intros Hne. unfold upsertAccount. simpl. now rewrite lookup_insert_ne. Qed.

Lemma accountStep_other (tx : TxClient) (a x blockTime : string) :
  x <> a \/ skipAddress x = true -> Preserves (sameAccount a) (accountStep w tx blockTime x).
Proof.
  intros Hx. unfold accountStep.
  destruct (skipAddress x) eqn:Hskip.
  - apply preserves_ret. now intros s.
  - destruct Hx as [ Hne | ]; [ | discriminate ].
    apply preserves_tryCatch.
    + unfold sameAccount. congruence.
    + apply preserves_txWrite; intros s; unfold sameAccount; simpl; auto.
      now rewrite lookup_insert_ne.
    + intros e. apply preserves_ret. now intros s.
Qed.

Lemma accounts_untouched (tx : TxClient) (a blockTime : string) (l : list string) :
  (forall x, In x l -> x <> a \/ skipAddress x = true) ->
  Preserves (sameAccount a) (forEach l (accountStep w tx blockTime)).
Proof.
  intros Hl. apply preserves_forEach.
  - now intros s.
  - unfold sameAccount. congruence.
  - intros x Hx. apply accountStep_other. now apply Hl.
Qed.

Lemma accounts_upserted (tx : TxClient) (a blockTime : string) (l : list string) (s : State) :
  (forall t, storeFails w t = false) ->
  List.NoDup l -> In a l -> skipAddress a = false ->
  accounts (store (forEach l (accountStep w tx blockTime) s).2) !! a
  = accounts (upsertAccount a blockTime (store s)) !! a.
Proof.
  intros Hok Hnd. revert s.
  induction l as [ | x rest IH ]; intros s Hin Hskip; [ destruct Hin | ].
  apply List.NoDup_cons_iff in Hnd as [Hx Hrest].
  cbn [forEach]. unfold bind at 1.
  destruct (accountStep w tx blockTime x s) as [[ [] | e ] s1] eqn:Hstep.
  - destruct (string_dec x a) as [ -> | Hne ].
    + destruct (forEach rest (accountStep w tx blockTime) s1) as [r s2] eqn:Hrest2.
      pose proof (accounts_untouched tx a blockTime rest) as Hun.
      unfold Preserves, sameAccount in Hun. cbn [snd].
      rewrite (Hun (fun y Hy => or_introl (fun E => Hx (eq_ind_r (fun z => In z rest) Hy (eq_sym E)))) _ _ _ Hrest2).
      unfold accountStep in Hstep. rewrite Hskip in Hstep.
      unfold tryCatch in Hstep. rewrite txWrite_run, aborted_reliable in Hstep by exact Hok.
      injection Hstep as <-. reflexivity.
    + destruct Hin as [ -> | Hin ]; [ contradiction | ].
      rewrite (IH Hrest s1 Hin Hskip).
      pose proof (accountStep_other tx a x blockTime (or_introl Hne) s _ _ Hstep) as Hsame.
      unfold sameAccount in Hsame.
      rewrite !upsertAccount_lookup, Hsame. reflexivity.
  - exfalso. unfold accountStep in Hstep.
    destruct (skipAddress x); [ discriminate | ].
    unfold tryCatch in Hstep. rewrite txWrite_run, aborted_reliable in Hstep by exact Hok. discriminate.
Qed.

(** ** What a run leaves alone *)

Lemma keeps_refl {X} (f : State -> X) (s : State) : Keeps f s s.
Proof. reflexivity. Qed.

Lemma keeps_trans {X} (f : State -> X) (a b c : State) :
  Keeps f a b -> Keeps f b c -> Keeps f a c.
Proof. unfold Keeps. congruence. Qed.

(** Applies the rule of the combinator at the head of the computation. *)
Ltac keep_step :=
  first
    [ apply preserves_ret; [ apply keeps_refl ]
    | apply preserves_throw; [ apply keeps_refl ]
    | apply preserves_gets; [ apply keeps_refl ]
    | apply preserves_liftResult; [ apply keeps_refl ]
    | apply preserves_sleep; [ apply keeps_refl ]
    | apply preserves_bind; [ apply keeps_trans | | intro ]
    | apply preserves_tryCatch; [ apply keeps_trans | | intro ]
    | apply preserves_forEach; [ apply keeps_refl | apply keeps_trans | intros ? ? ] ].

Section Untouched.
Context {X : Type} (f : State -> X).
Context (f_store : forall st s, f (withStore st s) = f s).
Context (f_tick : forall s, f (withTick s) = f s).

Lemma keeps_tick : Preserves (Keeps f) tick.
Proof. intros s r s' [= <- <-]. apply f_tick. Qed.

Lemma keeps_dbWrite (change : Store -> Store) : Preserves (Keeps f) (dbWrite w change).
Proof.
  apply preserves_dbWrite; intros s; unfold Keeps.
  - apply f_tick.
  - now rewrite f_store, f_tick.
Qed.

Lemma keeps_dbRead {A} (query : Store -> A) : Preserves (Keeps f) (dbRead w query).
Proof.
  intros s r s'. rewrite dbRead_run.
  destruct (storeFails w (clock s)); intros [= <- <-]; apply f_tick.
Qed.

Lemma keeps_lcd {A} (call : nat -> Z -> Result A) (height : Z) :
  Preserves (Keeps f) (lcd call height).
Proof. intros s r s'. rewrite lcd_run. intros [= <- <-]. apply f_tick. Qed.

Lemma keeps_txWrite (tx : TxClient) (change : Store -> Store) :
  Preserves (Keeps f) (txWrite w tx change).
Proof.
  apply preserves_txWrite; intros s; unfold Keeps.
  - apply f_tick.
  - now rewrite f_store, f_tick.
Qed.

Lemma keeps_transaction {A} (body : TxClient -> M A) :
  (forall tx, Preserves (Keeps f) (body tx)) -> Preserves (Keeps f) (transaction w body).
Proof.
  intros Hb s r s'. unfold transaction.
  destruct (body (clock s) s) as [[a | e] s1] eqn:Eb; pose proof (Hb _ _ _ _ Eb) as H1;
    unfold Keeps in *.
  - destruct (aborted w (clock s) (clock s1)); intros [= <- <-];
      now rewrite ?f_store, f_tick.
  - intros [= <- <-]. now rewrite f_store.
Qed.

Ltac keep :=
  repeat first
    [ apply keeps_dbWrite | apply keeps_txWrite | apply keeps_dbRead | apply keeps_lcd
    | apply keeps_tick | keep_step ].

Lemma keeps_accountStep (tx : TxClient) (blockTime address : string) :
  Preserves (Keeps f) (accountStep w tx blockTime address).
Proof. unfold accountStep. destruct (skipAddress address); keep. Qed.

Lemma keeps_updateAccounts (tx : TxClient) (transactions : list ProcessedTransaction)
  (blockTime : string) :
  Preserves (Keeps f) (updateAccounts w tx transactions blockTime).
Proof.
  unfold updateAccounts. keep_step.
  apply (keeps_accountStep tx blockTime).
Qed.

Lemma keeps_commitBlock (height : Z) (block : BlockRow)
  (transactions : list ProcessedTransaction) (events : list EventRow) :
  Preserves (Keeps f) (commitBlock w height block transactions events).
Proof.
  unfold commitBlock. apply keeps_transaction. intros tx.
  repeat first [ apply keeps_updateAccounts | apply keeps_txWrite | keep_step ].
Qed.

Context (f_emit : forall e s, f (withEmitted e s) = f s).

Lemma keeps_emit (e : Emitted) : Preserves (Keeps f) (emit e).
Proof. intros s r s' [= <- <-]. apply f_emit. Qed.

Lemma keeps_processCustomMessages (txData : ProcessedTransaction) (height : Z) :
  Preserves (Keeps f) (processCustomMessages w txData height).
Proof.
  unfold processCustomMessages. keep_step. keep_step; [ | keep ].
  destruct (domainTable (sm_type x)); [ | keep ].
  keep_step; [ keep | ].
  repeat match goal with |- context [if ?c then _ else _] => destruct c end;
    first [ apply keeps_emit | keep ].
Qed.

Lemma keeps_persistBlock (height : Z) (info : Block) (txResponses : list TxResponse) :
  Preserves (Keeps f) (persistBlock w height info txResponses).
Proof.
  unfold persistBlock.
  repeat first [ apply keeps_commitBlock | apply keeps_processCustomMessages
               | apply keeps_emit | keep_step ].
Qed.

Lemma keeps_processEmptyBlock (height : Z) :
  Preserves (Keeps f) (processEmptyBlock w height).
Proof.
  unfold processEmptyBlock, setLastIndexedHeight.
  repeat first [ apply keeps_lcd | apply keeps_dbWrite | apply keeps_emit | keep_step ].
Qed.

Context (f_stop : forall b s, f (withStop b s) = f s).

Lemma keeps_validateLinkage (height : Z) (info : Block) :
  Preserves (Keeps f) (validateLinkage w height info).
Proof.
  unfold validateLinkage.
  destruct (height >? 1); [ | keep ].
  destruct (expectedPrevHashOf info); [ | keep ].
  keep_step; [ apply keeps_dbRead | ].
  destruct a as [ prev | ]; [ | keep ].
  destruct (negb _); [ | keep ].
  keep_step; [ | keep ].
  apply preserves_modify. intros s0. apply f_stop.
Qed.

Lemma keeps_processBlock (height : Z) :
  Preserves (Keeps f) (processBlock w height).
Proof.
  unfold processBlock, processBlockMain. keep_step.
  - keep_step; [ apply keeps_lcd | ].
    keep_step; [ apply keeps_validateLinkage | ].
    destruct a0; [ keep | ].
    repeat first [ apply keeps_lcd | apply keeps_persistBlock | keep_step ].
  - destruct e; try keep_step.
    destruct (Z.eqb status 400); [ apply keeps_processEmptyBlock | keep_step ].
Qed.

End Untouched.

(** ** What a run leaves alone in the store *)

Section StoreUntouched.
Context {X : Type} (g : Store -> X).

Let f (s : State) : X := g (store s).

Lemma keepsStore_dbWrite (change : Store -> Store) :
  (forall st, g (change st) = g st) -> Preserves (Keeps f) (dbWrite w change).
Proof.
  intros Hc. apply preserves_dbWrite; intros s; unfold Keeps, f; simpl; auto.
Qed.

Lemma keepsStore_txWrite (tx : TxClient) (change : Store -> Store) :
  (forall st, g (change st) = g st) -> Preserves (Keeps f) (txWrite w tx change).
Proof.
  intros Hc. apply preserves_txWrite; intros s; unfold Keeps, f; simpl; auto.
Qed.

Lemma keepsStore_accountStep (tx : TxClient) (blockTime address : string) :
  (forall a st, g (upsertAccount a blockTime st) = g st) ->
  Preserves (Keeps f) (accountStep w tx blockTime address).
Proof.
  intros Hg. unfold accountStep. destruct (skipAddress address).
  - keep_step.
  - keep_step; [ | keep_step ]. apply keepsStore_txWrite. apply Hg.
Qed.

Lemma keepsStore_updateAccounts (tx : TxClient) (transactions : list ProcessedTransaction)
  (blockTime : string) :
  (forall a st, g (upsertAccount a blockTime st) = g st) ->
  Preserves (Keeps f) (updateAccounts w tx transactions blockTime).
Proof.
  intros Hg. unfold updateAccounts. keep_step.
  now apply (keepsStore_accountStep tx blockTime).
Qed.

Lemma keepsStore_emit (e : Emitted) : Preserves (Keeps f) (emit e).
Proof. now intros s r s' [= <- <-]. Qed.

Lemma keepsStore_processCustomMessages (txData : ProcessedTransaction) (height : Z) :
  (forall entry st, g (writeDomain entry st) = g st) ->
  Preserves (Keeps f) (processCustomMessages w txData height).
Proof.
  intros Hg. unfold processCustomMessages. keep_step. keep_step; [ | keep_step ].
  destruct (domainTable (sm_type x)); [ | keep_step ].
  keep_step; [ now apply keepsStore_dbWrite | ].
  repeat match goal with |- context [if ?c then _ else _] => destruct c end;
    first [ apply keepsStore_emit | keep_step ].
Qed.

End StoreUntouched.

(** ** Inversion of runs *)

Lemma bind_ok_inv {A B} (m : M A) (k : A -> M B) (s s' : State) (b : B) :
  bind m k s = (Ok b, s') ->
  exists a s1, m s = (Ok a, s1) /\ k a s1 = (Ok b, s').
Proof.
  unfold bind. destruct (m s) as [[a | e] s1]; [ eauto | discriminate ].
Qed.

Lemma bind_throw_inv {A B} (m : M A) (k : A -> M B) (s s' : State) (e : Error) :
  bind m k s = (Throw e, s') ->
  m s = (Throw e, s') \/ exists a s1, m s = (Ok a, s1) /\ k a s1 = (Throw e, s').
Proof.
  unfold bind. destruct (m s) as [[a | e0] s1]; [ eauto | intros [= <- <-]; auto ].
Qed.

Lemma dbWrite_ok_inv (change : Store -> Store) (s s' : State) (u : unit) :
  dbWrite w change s = (Ok u, s') ->
  storeFails w (clock s) = false /\ s' = withStore (change (store s)) (withTick s).
Proof.
  rewrite dbWrite_run. destruct (storeFails w (clock s)); [ discriminate | ].
  now intros [= <-].
Qed.

Lemma dbWrite_throw_inv (change : Store -> Store) (s s' : State) (e : Error) :
  dbWrite w change s = (Throw e, s') -> e = StoreError /\ s' = withTick s.
Proof.
  rewrite dbWrite_run. destruct (storeFails w (clock s)); [ | discriminate ].
  now intros [= <- <-].
Qed.

Lemma txWrite_ok_inv (tx : TxClient) (change : Store -> Store) (s s' : State) (u : unit) :
  txWrite w tx change s = (Ok u, s') ->
  aborted w tx (clock s) = false /\ s' = withStore (change (store s)) (withTick s).
Proof.
  rewrite txWrite_run. destruct (aborted w tx (clock s)); [ discriminate | ].
  now intros [= <-].
Qed.

Lemma txWrite_throw_inv (tx : TxClient) (change : Store -> Store) (s s' : State)
  (e : Error) :
  txWrite w tx change s = (Throw e, s') ->
  e = StoreError /\ s' = withTick s /\ aborted w tx (clock s) = true.
Proof.
  rewrite txWrite_run. destruct (aborted w tx (clock s)); [ | discriminate ].
  now intros [= <- <-].
Qed.

Lemma forEach_txWrite_ok {A} (tx : TxClient) (change : A -> Store -> Store) (l : list A)
  (s s' : State) (u : unit) :
  forEach l (fun x => txWrite w tx (change x)) s = (Ok u, s') ->
  store s' = fold_left (fun st x => change x st) l (store s).
Proof.
  destruct u. revert s. induction l as [ | x rest IH ]; intros s; simpl.
  - now intros [= <-].
  - intros (a & s1 & Hw & Hrest)%bind_ok_inv.
    apply txWrite_ok_inv in Hw as [_ ->]. rewrite (IH _ Hrest). reflexivity.
Qed.

Lemma forEach_txWrite_throw {A} (tx : TxClient) (change : A -> Store -> Store)
  (l : list A) (s s' : State) (e : Error) :
  forEach l (fun x => txWrite w tx (change x)) s = (Throw e, s') -> e = StoreError.
Proof.
  revert s. induction l as [ | x rest IH ]; intros s; simpl; [ discriminate | ].
  intros [ Hw | (a & s1 & _ & Hrest) ]%bind_throw_inv.
  - now apply txWrite_throw_inv in Hw.
  - eauto.
Qed.

Lemma neverThrows_updateAccounts (tx : TxClient) (transactions : list ProcessedTransaction)
  (blockTime : string) :
  NeverThrows (updateAccounts w tx transactions blockTime).
Proof.
  unfold updateAccounts. apply neverThrows_forEach. intros x. unfold accountStep.
  destruct (skipAddress x).
  - apply neverThrows_ret.
  - apply neverThrows_tryCatch. intros e. apply neverThrows_ret.
Qed.

(** A transaction that throws has changed nothing in the store. *)
Lemma transaction_throw {A} (body : TxClient -> M A) (s s' : State) (e : Error) :
  transaction w body s = (Throw e, s') -> store s' = store s.
Proof.
  unfold transaction. destruct (body (clock s) s) as [[a | e0] s1].
  - destruct (aborted w (clock s) (clock s1)); [ | discriminate ]. now intros [= <- <-].
  - now intros [= <- <-].
Qed.

Lemma transaction_ok_inv {A} (body : TxClient -> M A) (s s' : State) (a : A) :
  transaction w body s = (Ok a, s') ->
  exists s1, body (clock s) s = (Ok a, s1) /\
             aborted w (clock s) (clock s1) = false /\ s' = withTick s1.
Proof.
  unfold transaction. destruct (body (clock s) s) as [[a0 | e0] s1]; [ | discriminate ].
  destruct (aborted w (clock s) (clock s1)) eqn:Hc; [ discriminate | ].
  intros [= <- <-]. eauto.
Qed.

Lemma fold_upsertTransaction (txs : list ProcessedTransaction) (st : Store) :
  fold_left (fun st x => upsertTransaction x st) txs st
  = {| blocks := blocks st;
       transactions := fold_left (fun rows x => upsertByHash x rows) txs (transactions st);
       eventRows := eventRows st; accounts := accounts st;
       indexerState := indexerState st; domain := domain st |}.
Proof.
  revert st. induction txs as [ | x rest IH ]; intros st; simpl.
  - now destruct st.
  - now rewrite IH.
Qed.

Lemma fold_createEvent (evs : list EventRow) (st : Store) :
  fold_left (fun st x => createEvent x st) evs st
  = {| blocks := blocks st; transactions := transactions st;
       eventRows := eventRows st ++ evs; accounts := accounts st;
       indexerState := indexerState st; domain := domain st |}.
Proof.
  revert st. induction evs as [ | x rest IH ]; intros st; simpl.
  - rewrite app_nil_r. now destruct st.
  - rewrite IH. simpl. now rewrite <- app_assoc.
Qed.

(** What a committed unit has written. *)
Lemma commitBlock_ok (height : Z) (block : BlockRow)
  (txs : list ProcessedTransaction) (evs : list EventRow) (s s' : State) (u : unit) :
  commitBlock w height block txs evs s = (Ok u, s') ->
  blocks (store s') = <[height := block]> (blocks (store s)) /\
  transactions (store s')
    = fold_left (fun rows x => upsertByHash x rows) txs (transactions (store s)) /\
  eventRows (store s') = (eventRows (store s) ++ evs)%list /\
  indexerState (store s')
    = <[lastIndexedHeightKey := toString height]> (indexerState (store s)) /\
  domain (store s') = domain (store s).
Proof.
  unfold commitBlock.
  intros (s5 & Hbody & _ & ->)%transaction_ok_inv.
  apply bind_ok_inv in Hbody as (? & s1 & H1 & Hbody).
  apply bind_ok_inv in Hbody as (? & s2 & H2 & Hbody).
  apply bind_ok_inv in Hbody as (? & s3 & H3 & Hbody).
  apply bind_ok_inv in Hbody as (? & s4 & H4 & H5).
  apply txWrite_ok_inv in H1 as [_ ->].
  apply forEach_txWrite_ok in H2. rewrite fold_upsertTransaction in H2.
  apply forEach_txWrite_ok in H3. rewrite fold_createEvent in H3.
  apply txWrite_ok_inv in H5 as [_ ->].
  pose proof (keepsStore_updateAccounts
                (fun st => (blocks st, transactions st, eventRows st,
                            indexerState st, domain st))
                (clock s) txs (b_timestamp block) (fun _ _ => eq_refl) _ _ _ H4) as Hacc.
  unfold Keeps in Hacc. simpl in Hacc. rewrite H3, H2 in Hacc. simpl in Hacc.
  injection Hacc as Hb Ht He Hi Hd.
  simpl. rewrite Hb, Ht, He, Hi, Hd. auto.
Qed.

Lemma throwsOnly_dbWrite (change : Store -> Store) :
  ThrowsOnly (fun e => e = StoreError) (dbWrite w change).
Proof. intros s e s' H. now apply dbWrite_throw_inv in H. Qed.

Lemma throwsOnly_txWrite (tx : TxClient) (change : Store -> Store) :
  ThrowsOnly (fun e => e = StoreError) (txWrite w tx change).
Proof. intros s e s' H. now apply txWrite_throw_inv in H. Qed.

Lemma throwsOnly_commitBlock (height : Z) (block : BlockRow)
  (txs : list ProcessedTransaction) (evs : list EventRow) :
  ThrowsOnly (fun e => e = StoreError) (commitBlock w height block txs evs).
Proof.
  intros s e s'. unfold commitBlock, transaction.
  match goal with |- context [let (_, _) := ?body s in _] => set (run := body) end.
  assert (Hb : ThrowsOnly (fun e => e = StoreError) run).
  { subst run.
    repeat first
      [ apply throwsOnly_txWrite
      | apply neverThrows_throwsOnly, neverThrows_updateAccounts
      | apply throwsOnly_bind; [ | intro ]
      | apply throwsOnly_forEach; intro ]. }
  destruct (run s) as [[a | e0] s1] eqn:Erun.
  - destruct (aborted w (clock s) (clock s1)); [ | discriminate ]. now intros [= <- <-].
  - intros [= <- <-]. eapply Hb, Erun.
Qed.

Lemma collect_throw (txResponses : list TxResponse) (height : Z) (timestamp : string)
  (acc : Collected) (e : Error) :
  collect txResponses height timestamp acc = Throw e -> e = RuntimeError.
Proof.
  revert acc. induction txResponses as [ | tx rest IH ]; intros acc; simpl.
  - discriminate.
  - destruct (String.eqb (txhash tx) ""); [ apply IH | ].
    destruct (processTransaction tx height timestamp) as [ p | e0 ] eqn:Hp.
    + apply IH.
    + intros [= <-]. unfold processTransaction in Hp.
      repeat match type of Hp with
             | match ?x with _ => _ end = _ => destruct x
             end; congruence.
Qed.

Lemma neverThrows_emit (e : Emitted) : NeverThrows (emit e).
Proof. apply neverThrows_modify. Qed.

(** Once the unit is committed, nothing in [persistBlock] throws. *)
Lemma neverThrows_afterCommit (height : Z) (block : BlockRow)
  (txs : list ProcessedTransaction) :
  NeverThrows
    (forEach txs (fun txData =>
       tryCatch (processCustomMessages w txData height) (fun _ => ret tt)) ;;
     emit (BlockNew height (b_hash block) (b_txCount block)) ;;
     forEach txs (fun tx => emit (TxNew tx))).
Proof.
  apply neverThrows_bind.
  - apply neverThrows_forEach. intros x. apply neverThrows_tryCatch.
    intros e. apply neverThrows_ret.
  - intros _. apply neverThrows_bind; [ apply neverThrows_emit | ].
    intros _. apply neverThrows_forEach. intros x. apply neverThrows_emit.
Qed.

(** The store is left alone by what follows the commit, side tables apart. *)
Lemma afterCommit_core {X} (g : Store -> X) (height : Z) (block : BlockRow)
  (txs : list ProcessedTransaction) :
  (forall entry st, g (writeDomain entry st) = g st) ->
  Preserves (Keeps (fun s => g (store s)))
    (forEach txs (fun txData =>
       tryCatch (processCustomMessages w txData height) (fun _ => ret tt)) ;;
     emit (BlockNew height (b_hash block) (b_txCount block)) ;;
     forEach txs (fun tx => emit (TxNew tx))).
Proof.
  intros Hg.
  repeat first
    [ apply (keepsStore_processCustomMessages g); assumption
    | apply (keepsStore_emit g)
    | keep_step ].
Qed.

Lemma persistBlock_throw (height : Z) (info : Block) (txResponses : list TxResponse)
  (s s' : State) (e : Error) :
  persistBlock w height info txResponses s = (Throw e, s') ->
  store s' = store s /\ (e = StoreError \/ e = RuntimeError).
Proof.
  unfold persistBlock.
  intros [ Hc | (collected & s1 & Hc & Hrest) ]%bind_throw_inv.
  - unfold liftResult in Hc. injection Hc as Hc <-.
    apply collect_throw in Hc. auto.
  - unfold liftResult in Hc. injection Hc as Hc <-.
    apply bind_throw_inv in Hrest as [ Hcommit | (u & s2 & Hcommit & Hrest) ].
    + split.
      * eapply transaction_throw. exact Hcommit.
      * left. eapply throwsOnly_commitBlock. exact Hcommit.
    + exfalso.
      destruct (neverThrows_afterCommit height
                  (blockRowOf info txResponses collected)
                  (c_transactions collected) s2) as (a & s3 & Hok).
      unfold blockRowOf in Hok. simpl in Hok, Hrest. congruence.
Qed.

Lemma persistBlock_ok (height : Z) (info : Block) (txResponses : list TxResponse)
  (s s' : State) (u : unit) :
  persistBlock w height info txResponses s = (Ok u, s') ->
  exists collected,
    collect txResponses height (time (header info)) noneCollected = Ok collected /\
    blocks (store s')
      = <[height := blockRowOf info txResponses collected]> (blocks (store s)) /\
    transactions (store s')
      = fold_left (fun rows x => upsertByHash x rows) (c_transactions collected)
                  (transactions (store s)) /\
    eventRows (store s') = (eventRows (store s) ++ c_events collected)%list /\
    indexerState (store s')
      = <[lastIndexedHeightKey := toString height]> (indexerState (store s)).
Proof.
  unfold persistBlock.
  intros (collected & s1 & Hc & Hrest)%bind_ok_inv.
  unfold liftResult in Hc. injection Hc as Hc <-.
  apply bind_ok_inv in Hrest as (u1 & s2 & Hcommit & Hrest).
  exists collected. split; [ exact Hc | ].
  apply commitBlock_ok in Hcommit as (Hb & Ht & He & Hi & _).
  pose proof (afterCommit_core
                (fun st => (blocks st, transactions st, eventRows st, indexerState st))
                height (blockRowOf info txResponses collected)
                (c_transactions collected) (fun _ _ => eq_refl) _ _ _ Hrest) as Hk.
  unfold Keeps in Hk. injection Hk as -> -> -> ->. auto.
Qed.

(** ** [processBlock], case by case *)

Lemma validateLinkage_run (height : Z) (info : Block) (s : State) :
  validateLinkage w height info s =
  if height >? 1 then
    match expectedPrevHashOf info with
    | Some expectedPrevHash =>
        if storeFails w (clock s) then (Throw StoreError, withTick s)
        else
          match blocks (store s) !! (height - 1) with
          | Some prev =>
              if negb (String.eqb (b_hash prev) expectedPrevHash)
              then (Ok true, withStop true (withTick s))
              else (Ok false, withTick s)
          | None => (Ok false, withTick s)
          end
    | None => (Ok false, s)
    end
  else (Ok false, s).
Proof.
  unfold validateLinkage.
  destruct (height >? 1); [ | reflexivity ].
  destruct (expectedPrevHashOf info) as [ e | ]; [ | reflexivity ].
  unfold bind at 1. rewrite dbRead_run.
  destruct (storeFails w (clock s)); [ reflexivity | ].
  destruct (blocks (store s) !! (height - 1)) as [ prev | ]; [ | reflexivity ].
  now destruct (negb (String.eqb (b_hash prev) e)).
Qed.

Lemma fetchTxs_run (height : Z) (s : State) :
  fetchTxs w height s =
  (Ok match getTxsByHeight w (clock s) height with
      | Ok txData => default [] txData
      | Throw _ => []
      end, withTick s).
Proof.
  unfold fetchTxs, tryCatch, bind. rewrite lcd_run.
  now destruct (getTxsByHeight w (clock s) height).
Qed.

Lemma validateLinkage_throw (height : Z) (info : Block) (s s' : State) (e : Error) :
  validateLinkage w height info s = (Throw e, s') ->
  e = StoreError /\ s' = withTick s.
Proof.
  rewrite validateLinkage_run.
  repeat match goal with
         | |- context [if ?c then _ else _] => destruct c
         | |- context [match ?x with _ => _ end] => destruct x
         end; try discriminate; now intros [= <- <-].
Qed.

Lemma validateLinkage_ok (height : Z) (info : Block) (s s' : State) (mismatch : bool) :
  validateLinkage w height info s = (Ok mismatch, s') ->
  store s' = store s /\
  if mismatch then
    stopRequested s' = true /\ emitted s' = emitted s /\
    height > 1 /\
    exists expectedPrevHash prev,
      expectedPrevHashOf info = Some expectedPrevHash /\
      storeFails w (clock s) = false /\
      blocks (store s) !! (height - 1) = Some prev /\
      b_hash prev <> expectedPrevHash
  else stopRequested s' = stopRequested s.
Proof.
  rewrite validateLinkage_run.
  destruct (height >? 1) eqn:Hh; [ | now intros [= <- <-] ].
  destruct (expectedPrevHashOf info) as [ e | ] eqn:He; [ | now intros [= <- <-] ].
  destruct (storeFails w (clock s)) eqn:Hf; [ discriminate | ].
  destruct (blocks (store s) !! (height - 1)) as [ prev | ] eqn:Hp;
    [ | now intros [= <- <-] ].
  destruct (String.eqb (b_hash prev) e) eqn:Heq; simpl; intros [= <- <-];
    [ now split | ].
  split; [ reflexivity | ]. repeat split; [ lia | ].
  exists e, prev. repeat split; auto. now apply String.eqb_neq.
Qed.

(** What the [try] can throw, and what it has done by then: nothing. *)
Lemma processBlockMain_throw (height : Z) (s s' : State) (e : Error) :
  processBlockMain w height s = (Throw e, s') ->
  store s' = store s /\ stopRequested s' = stopRequested s /\
  (getBlockByHeight w (clock s) height = Throw e \/ e = StoreError \/ e = RuntimeError).
Proof.
  unfold processBlockMain.
  intros [ Hfetch | (info & s1 & Hfetch & Hrest) ]%bind_throw_inv;
    rewrite lcd_run in Hfetch; injection Hfetch as Hfetch <-.
  - auto.
  - apply bind_throw_inv in Hrest as [ Hv | (mismatch & s2 & Hv & Hrest) ].
    + apply validateLinkage_throw in Hv as [-> ->]. auto.
    + apply validateLinkage_ok in Hv as [Hstore Hflag].
      destruct mismatch; [ discriminate | ].
      apply bind_throw_inv in Hrest as [ Ht | (txs & s3 & Ht & Hrest) ];
        rewrite fetchTxs_run in Ht; [ discriminate | ].
      injection Ht as _ <-.
      pose proof (keeps_persistBlock stopRequested (fun _ _ => eq_refl)
                    (fun _ => eq_refl) (fun _ _ => eq_refl) _ _ _ _ _ _ Hrest) as Hk.
      apply persistBlock_throw in Hrest as [Hst He].
      unfold Keeps in Hk. simpl in *. repeat split; [ congruence | congruence | tauto ].
Qed.

Lemma processBlockMain_ok (height : Z) (s s' : State) (u : unit) :
  processBlockMain w height s = (Ok u, s') ->
  exists info,
    getBlockByHeight w (clock s) height = Ok info /\
    ((store s' = store s /\ stopRequested s' = true /\ emitted s' = emitted s /\
      validateLinkage w height info (withTick s) = (Ok true, s'))
     \/
     (stopRequested s' = stopRequested s /\
      exists txResponses, committedBy height info txResponses (store s) (store s'))).
Proof.
  unfold processBlockMain.
  intros (info & s1 & Hfetch & Hrest)%bind_ok_inv.
  rewrite lcd_run in Hfetch. injection Hfetch as Hfetch <-.
  exists info. split; [ exact Hfetch | ].
  apply bind_ok_inv in Hrest as (mismatch & s2 & Hv & Hrest).
  pose proof (validateLinkage_ok _ _ _ _ _ Hv) as [Hstore Hflag].
  destruct mismatch.
  - injection Hrest as _ <-. left. destruct Hflag as (Hstop & Hem & _).
    simpl in *. repeat split; assumption.
  - right. apply bind_ok_inv in Hrest as (txs & s3 & Ht & Hrest).
    rewrite fetchTxs_run in Ht. injection Ht as <- <-.
    pose proof (keeps_persistBlock stopRequested (fun _ _ => eq_refl)
                  (fun _ => eq_refl) (fun _ _ => eq_refl) _ _ _ _ _ _ Hrest) as Hk.
    unfold Keeps in Hk. simpl in *. split; [ congruence | ].
    apply persistBlock_ok in Hrest as (collected & Hc & Hb & Htx & He & Hi).
    simpl in *. rewrite Hstore in *.
    eexists. exists collected. eauto.
Qed.

Lemma processEmptyBlock_cases (height : Z) (s s' : State) (r : Result unit) :
  processEmptyBlock w height s = (r, s') ->
  stopRequested s' = stopRequested s /\
  ((exists e, r = Throw e /\ store s' = store s) \/
   (exists info, r = Throw StoreError /\
                 store s' = upsertEmptyBlock height info (store s)) \/
   (exists info, r = Ok tt /\
                 store s' = upsertIndexerState lastIndexedHeightKey (toString height)
                              (upsertEmptyBlock height info (store s)))).
Proof.
  intros Hrun. split.
  { exact (keeps_processEmptyBlock stopRequested (fun _ _ => eq_refl)
             (fun _ => eq_refl) (fun _ _ => eq_refl) _ _ _ _ Hrun). }
  revert Hrun. unfold processEmptyBlock, setLastIndexedHeight.
  unfold bind at 1. rewrite lcd_run.
  destruct (getBlockByHeight w (clock s) height) as [ info | e ];
    [ | intros [= <- <-]; left; eauto ].
  unfold bind at 1. rewrite dbWrite_run. simpl.
  destruct (storeFails w (S (clock s))); [ intros [= <- <-]; left; eauto | ].
  unfold bind at 1. rewrite dbWrite_run. simpl.
  destruct (storeFails w (S (S (clock s)))); intros [= <- <-]; right; eauto.
Qed.

(** Every run of [processBlock] is a halt, an ingestion, or a failure that
    has left the checkpoint where it was. *)
Lemma processBlock_cases (height : Z) (s s' : State) (r : Result unit) :
  processBlock w height s = (r, s') ->
  (r = Ok tt /\ store s' = store s /\ stopRequested s' = true)
  \/
  (r = Ok tt /\ stopRequested s' = stopRequested s /\
   (exists row, blocks (store s') = <[height := row]> (blocks (store s))) /\
   indexerState (store s')
     = <[lastIndexedHeightKey := toString height]> (indexerState (store s)))
  \/
  (exists e, r = Throw e /\ stopRequested s' = stopRequested s /\
             indexerState (store s') = indexerState (store s) /\
             (blocks (store s') = blocks (store s) \/
              exists row, blocks (store s') = <[height := row]> (blocks (store s)))).
Proof.
  unfold processBlock, tryCatch.
  destruct (processBlockMain w height s) as [[ [] | e ] s1] eqn:Hmain.
  - intros [= <- <-].
    apply processBlockMain_ok in Hmain as (info & _ & [ (? & ? & _) | (? & txs & Hc) ]).
    + left. auto.
    + right. left. destruct Hc as (collected & _ & Hb & _ & _ & Hi). eauto 8.
  - apply processBlockMain_throw in Hmain as (Hstore & Hstop & _).
    assert (Hrethrow : (Throw e, s1) = (r, s') ->
      exists e0, r = Throw e0 /\ stopRequested s' = stopRequested s /\
        indexerState (store s') = indexerState (store s) /\
        (blocks (store s') = blocks (store s) \/
         exists row, blocks (store s') = <[height := row]> (blocks (store s)))).
    { intros [= <- <-]. exists e. rewrite Hstore. auto. }
    destruct e as [ status | | | ]; try (intros H; right; right; now apply Hrethrow).
    destruct (Z.eqb status 400); [ | intros H; right; right; now apply Hrethrow ].
    intros [Hk [ (e0 & -> & Hs) | [ (info & -> & Hs) | (info & -> & Hs) ] ]]%processEmptyBlock_cases.
    + right. right. exists e0. rewrite Hs, Hstore. repeat split; auto. congruence.
    + right. right. exists StoreError. rewrite Hs, Hstore.
      repeat split; [ congruence | ]. right. simpl. eauto.
    + right. left. rewrite Hs, Hstore. simpl.
      split; [ reflexivity | ]. split; [ congruence | ]. split; eauto.
Qed.

Lemma batch_stopped (n : nat) (height endHeight : Z) (s : State) :
  stopRequested s = true -> batch w n height endHeight s = (Ok tt, s).
Proof.
  intros Hstop. destruct n as [ | n' ]; [ reflexivity | ].
  simpl. unfold bind, gets. rewrite Hstop. now rewrite andb_false_r.
Qed.

Lemma syncLoop_stopped (config : Config) (fuel : nat) (s : State) :
  stopRequested s = true -> syncLoop config w fuel s = (Ok Stopped, s).
Proof.
  intros Hstop. destruct fuel as [ | fuel' ]; simpl; unfold bind, gets;
    now rewrite Hstop.
Qed.

Lemma expectedPrevHashOf_Some (info : Block) (e : string) :
  expectedPrevHashOf info = Some e <->
  last_block_id_hash (header info) = Some e /\ e <> "".
Proof.
  unfold expectedPrevHashOf.
  destruct (last_block_id_hash (header info)) as [ h | ].
  - destruct (String.eqb h "") eqn:Hh.
    + apply String.eqb_eq in Hh. split; [ discriminate | intros [[= ->] ?]; contradiction ].
    + apply String.eqb_neq in Hh. split; [ intros [= ->]; auto | intros [[= ->] _]; auto ].
  - split; [ discriminate | intros [? _]; discriminate ].
Qed.

(** The run of a block whose header does not link to the stored
    predecessor. *)
Lemma processBlock_mismatch (height : Z) (s : State) (info : Block)
  (expectedPrevHash : string) (prev : BlockRow) :
  height > 1 ->
  getBlockByHeight w (clock s) height = Ok info ->
  expectedPrevHashOf info = Some expectedPrevHash ->
  blocks (store s) !! (height - 1) = Some prev ->
  b_hash prev <> expectedPrevHash ->
  processBlock w height s =
  if storeFails w (S (clock s)) then (Throw StoreError, withTick (withTick s))
  else (Ok tt, withStop true (withTick (withTick s))).
Proof.
  intros Hh Hfetch He Hprev Hne.
  unfold processBlock, tryCatch, processBlockMain.
  unfold bind at 1. rewrite lcd_run, Hfetch.
  unfold bind at 1. rewrite validateLinkage_run.
  replace (height >? 1) with true by (symmetry; apply Z.gtb_lt; lia).
  rewrite He. simpl. destruct (storeFails w (S (clock s))); [ reflexivity | ].
  rewrite Hprev. apply String.eqb_neq in Hne. rewrite Hne. reflexivity.
Qed.

(** ** Decoding and serialization inside [processTransaction] *)





(** Claim C9.  An address is collected exactly when a string field of some
    decoded message has a key containing "address" (case-insensitively) or a
    value starting with "twilight".  [updateAccounts] creates or updates the
    Account row of a string only when it is collected, non-empty and at least
    10 characters long; a string shorter than 10 characters never changes an
    Account row; and with a store that takes every write, a collected string
    of 10 characters or more is upserted, once. *)
Theorem short_addresses_never_upserted (tx : TxClient)
  (transactions : list ProcessedTransaction)
  (blockTime : string) (s : State) (address : string) :
  let s' := (updateAccounts w tx transactions blockTime s).2 in
  (In address (collectAddresses transactions) <->
   exists txData msg key value,
     In txData transactions /\ In msg (tx_messages txData) /\
     In (key, value) (sm_data msg) /\ value = JStr address /\
     (includes (toLowerCase key) "address" || startsWith address "twilight") = true)
  /\
  (accounts (store s') !! address <> accounts (store s) !! address ->
   In address (collectAddresses transactions) /\
   address <> "" /\ (10 <= String.length address)%nat)
  /\
  ((String.length address < 10)%nat ->
   accounts (store s') !! address = accounts (store s) !! address)
  /\
  ((forall t, storeFails w t = false) ->
   In address (collectAddresses transactions) ->
   (10 <= String.length address)%nat ->
   accounts (store s') !! address
   = accounts (upsertAccount address blockTime (store s)) !! address).
Proof.
  intros s'.
  assert (Hdrop : ~ In address (collectAddresses transactions) \/ skipAddress address = true ->
                  accounts (store s') !! address = accounts (store s) !! address).
  { intros Hcase. subst s'.
    destruct (updateAccounts w tx transactions blockTime s) as [r s1] eqn:Hrun.
    unfold updateAccounts in Hrun.
    eapply (accounts_untouched tx address blockTime); [ | exact Hrun ].
    intros x Hx. destruct (string_dec x address) as [ -> | Hne ]; [ | now left ].
    right. destruct Hcase as [ Hnot | Hskip ]; [ contradiction | exact Hskip ]. }
  split; [ | split; [ | split ] ].
  - rewrite collectAddresses_In. split.
    + intros (txData & msg & key & value & Ht & Hm & Hk & Hl).
      exists txData, msg, key, value. repeat split; try assumption;
        unfold looksLikeAddress in Hl; destruct value; try discriminate;
        destruct (includes _ _ || startsWith _ _) eqn:Hc; try discriminate;
        injection Hl as ->; auto.
    + intros (txData & msg & key & value & Ht & Hm & Hk & -> & Hl).
      exists txData, msg, key, (JStr address). repeat split; try assumption.
      unfold looksLikeAddress. now rewrite Hl.
  - intros Hchanged.
    destruct (in_dec string_dec address (collectAddresses transactions)) as [ Hin | Hnot ];
      [ | exfalso; apply Hchanged, Hdrop; now left ].
    destruct (skipAddress address) eqn:Hskip;
      [ exfalso; apply Hchanged, Hdrop; now right | ].
    apply skipAddress_false in Hskip. tauto.
  - intros Hshort. apply Hdrop. right.
    unfold skipAddress. apply orb_true_iff. right. now apply Nat.ltb_lt.
  - intros Hok Hin Hlen. subst s'. unfold updateAccounts.
    apply accounts_upserted; try assumption.
    + apply collectAddresses_NoDup.
    + apply skipAddress_false. split; [ | exact Hlen ].
      intros ->. simpl in Hlen. lia.
Qed.

(** The reorg halt on the path whose first header request is answered.  For
    a height above 1 whose header carries a (non-empty) [last_block_id] hash
    that differs from the hash of the stored Block at the height before,
    [processBlock] writes nothing to the store and emits nothing; and, the
    stored Block having been read, it returns with [stopRequested] set, after
    which the batch loop and the main loop do no further step, whatever their
    bounds. *)
Theorem reorg_halts_without_write (height : Z) (s : State) (info : Block)
  (expectedPrevHash : string) (prev : BlockRow) :
  height > 1 ->
  getBlockByHeight w (clock s) height = Ok info ->
  last_block_id_hash (header info) = Some expectedPrevHash ->
  expectedPrevHash <> "" ->
  blocks (store s) !! (height - 1) = Some prev ->
  b_hash prev <> expectedPrevHash ->
  let r := (processBlock w height s).1 in
  let s' := (processBlock w height s).2 in
  store s' = store s /\
  emitted s' = emitted s /\
  (storeFails w (S (clock s)) = false ->
   r = Ok tt /\
   stopRequested s' = true /\
   (forall n nextHeight endHeight,
      batch w n nextHeight endHeight s' = (Ok tt, s')) /\
   (forall config fuel, syncLoop config w fuel s' = (Ok Stopped, s'))).
Proof.
  intros Hh Hfetch Hlast Hne Hprev Hdiff r s'. subst r s'.
  rewrite (processBlock_mismatch height s info expectedPrevHash prev) by
    (try assumption; now apply expectedPrevHashOf_Some).
  destruct (storeFails w (S (clock s))); simpl.
  - split; [ reflexivity | ]. split; [ reflexivity | ]. discriminate.
  - repeat split.
    + intros. now apply batch_stopped.
    + intros. now apply syncLoop_stopped.
Qed.

(** Claim C7, amended.  When the header of [height] has been fetched,
    [processBlock] halts the engine exactly when [height > 1], the header
    carries a non-empty [last_block_id] hash, the stored Block at
    [height - 1] could be read and exists, and its hash differs from that
    hash: the comparison is made for these heights and skipped for
    [height <= 1], for a header without such a hash, and when no Block is
    stored at [height - 1].  A halt leaves the store untouched. *)
Theorem linkage_check_scope (height : Z) (s : State) (info : Block) :
  getBlockByHeight w (clock s) height = Ok info ->
  stopRequested s = false ->
  let s' := (processBlock w height s).2 in
  (stopRequested s' = true <->
   height > 1 /\
   exists expectedPrevHash prev,
     last_block_id_hash (header info) = Some expectedPrevHash /\
     expectedPrevHash <> "" /\
     storeFails w (S (clock s)) = false /\
     blocks (store s) !! (height - 1) = Some prev /\
     b_hash prev <> expectedPrevHash)
  /\
  (stopRequested s' = true -> store s' = store s).
Proof.
  intros Hfetch Hrun s'.
  assert (Hfwd : stopRequested s' = true ->
    store s' = store s /\ height > 1 /\
    exists expectedPrevHash prev,
      last_block_id_hash (header info) = Some expectedPrevHash /\
      expectedPrevHash <> "" /\
      storeFails w (S (clock s)) = false /\
      blocks (store s) !! (height - 1) = Some prev /\
      b_hash prev <> expectedPrevHash).
  { subst s'. unfold processBlock, tryCatch.
    destruct (processBlockMain w height s) as [[ [] | e ] s1] eqn:Hmain; simpl.
    - apply processBlockMain_ok in Hmain
        as (info' & Hfetch' & [ (Hst & _ & _ & Hv) | (Hstop & _) ]);
        [ | congruence ].
      intros _. split; [ exact Hst | ].
      assert (info' = info) as -> by congruence.
      apply validateLinkage_ok in Hv as (_ & _ & _ & Hgt & e & prev & He & Hf & Hp & Hd).
      split; [ exact Hgt | ]. exists e, prev.
      apply expectedPrevHashOf_Some in He as [He1 He2]. simpl in *. auto.
    - apply processBlockMain_throw in Hmain as (_ & Hstop & [ Hf | [ -> | -> ] ]);
        simpl; congruence. }
  split; [ split | ].
  - intros H. apply Hfwd in H. tauto.
  - intros (Hgt & e & prev & Hl & Hne & Hf & Hp & Hd). subst s'.
    rewrite (processBlock_mismatch height s info e prev) by
      (try assumption; now apply expectedPrevHashOf_Some).
    now rewrite Hf.
  - intros H. apply Hfwd in H. tauto.
Qed.

(** The unit [commitBlock] of the path that has fetched the header is
    all-or-nothing: when it throws the store is as it was; it returns only
    when the store has rejected none of its statements, the Account upserts
    included, and the Block row, every Transaction upsert, every Event
    insert and the Checkpoint are then in the store.  On that path an error
    of [processBlock] leaves the store as it was.  On every path the
    Checkpoint changes only when [processBlock] returns, only to the
    ingested height, and only with the Block row of that height stored. *)
Theorem commit_unit_all_or_nothing :
  (forall height block txs evs s,
     match commitBlock w height block txs evs s with
     | (Throw _, s') => store s' = store s
     | (Ok _, s') =>
         (forall t, (clock s <= t < clock s')%nat -> storeFails w t = false) /\
         blocks (store s') = <[height := block]> (blocks (store s)) /\
         transactions (store s')
           = fold_left (fun rows x => upsertByHash x rows) txs (transactions (store s)) /\
         eventRows (store s') = eventRows (store s) ++ evs /\
         indexerState (store s')
           = <[lastIndexedHeightKey := toString height]> (indexerState (store s))
     end)
  /\
  (forall height s info e s',
     getBlockByHeight w (clock s) height = Ok info ->
     processBlock w height s = (Throw e, s') ->
     store s' = store s)
  /\
  (forall height s r s',
     processBlock w height s = (r, s') ->
     indexerState (store s') <> indexerState (store s) ->
     r = Ok tt /\
     is_Some (blocks (store s') !! height) /\
     indexerState (store s') !! lastIndexedHeightKey = Some (toString height)).
Proof.
  split; [ | split ].
  - intros height block txs evs s.
    destruct (commitBlock w height block txs evs s) as [[ u | e ] s'] eqn:Hrun.
    + split; [ | apply commitBlock_ok in Hrun; tauto ].
      unfold commitBlock in Hrun.
      apply transaction_ok_inv in Hrun as (s1 & _ & Hclean & ->).
      intros t Ht. cbn in Ht. eapply aborted_false; [ exact Hclean | lia ].
    + eapply transaction_throw. exact Hrun.
  - intros height s info e s' Hfetch. unfold processBlock, tryCatch.
    destruct (processBlockMain w height s) as [[ u | e0 ] s1] eqn:Hmain; [ discriminate | ].
    apply processBlockMain_throw in Hmain as (Hstore & _ & [ Hf | [ -> | -> ] ]).
    + congruence.
    + now intros [= <- <-].
    + now intros [= <- <-].
  - intros height s r s' Hrun Hchanged.
    apply processBlock_cases in Hrun
      as [ (_ & Hst & _) | [ (-> & _ & (row & Hb) & Hi) | (e & _ & _ & Hi & _) ] ].
    + now rewrite Hst in Hchanged.
    + split; [ reflexivity | ]. rewrite Hb, Hi.
      rewrite !lookup_insert_eq. eauto.
    + contradiction.
Qed.

(** ** Upsert by hash *)

Lemma upsertByHash_hashes_present (x : ProcessedTransaction)
  (rows : list ProcessedTransaction) :
  In (tx_hash x) (map tx_hash rows) ->
  map tx_hash (upsertByHash x rows) = map tx_hash rows.
Proof.
  induction rows as [ | row rest IH ]; simpl; [ intros [] | ].
  destruct (String.eqb (tx_hash row) (tx_hash x)) eqn:E; simpl.
  - apply String.eqb_eq in E. intros _. now rewrite E.
  - apply String.eqb_neq in E. intros [ H | H ]; [ contradiction | ].
    now rewrite IH.
Qed.

Lemma upsertByHash_hashes_absent (x : ProcessedTransaction)
  (rows : list ProcessedTransaction) :
  ~ In (tx_hash x) (map tx_hash rows) ->
  map tx_hash (upsertByHash x rows) = map tx_hash rows ++ [tx_hash x].
Proof.
  induction rows as [ | row rest IH ]; simpl; [ reflexivity | ].
  intros Hnot. destruct (String.eqb (tx_hash row) (tx_hash x)) eqn:E; simpl.
  - apply String.eqb_eq in E. exfalso. apply Hnot. now left.
  - rewrite IH; [ reflexivity | ]. intros H. apply Hnot. now right.
Qed.

Lemma upsertByHash_NoDup (x : ProcessedTransaction) (rows : list ProcessedTransaction) :
  List.NoDup (map tx_hash rows) -> List.NoDup (map tx_hash (upsertByHash x rows)).
Proof.
  intros Hnd.
  destruct (in_dec string_dec (tx_hash x) (map tx_hash rows)) as [ Hin | Hnot ].
  - now rewrite upsertByHash_hashes_present.
  - rewrite upsertByHash_hashes_absent by assumption.
    apply NoDup_ListNoDup. apply NoDup_app. repeat split.
    + now apply NoDup_ListNoDup.
    + intros y Hy [= ->]%list_elem_of_singleton. apply Hnot. now apply list_elem_of_In.
    + apply NoDup_singleton.
Qed.

Lemma upsertByHash_In (x : ProcessedTransaction) (rows : list ProcessedTransaction) :
  In x (upsertByHash x rows).
Proof.
  induction rows as [ | row rest IH ]; simpl; [ now left | ].
  destruct (String.eqb (tx_hash row) (tx_hash x)); simpl; auto.
Qed.

Lemma upsertByHash_hash_In (x : ProcessedTransaction) (rows : list ProcessedTransaction) :
  In (tx_hash x) (map tx_hash (upsertByHash x rows)).
Proof. apply in_map, upsertByHash_In. Qed.

Lemma upsertByHash_keeps (x r : ProcessedTransaction) (rows : list ProcessedTransaction) :
  In r rows -> tx_hash r <> tx_hash x -> In r (upsertByHash x rows).
Proof.
  induction rows as [ | row rest IH ]; simpl; [ intros [] | ].
  intros [ -> | Hin ] Hne.
  - apply String.eqb_neq in Hne. rewrite Hne. now left.
  - destruct (String.eqb (tx_hash row) (tx_hash x)); simpl; auto.
Qed.

Lemma upsertByHash_keeps_hash (x : ProcessedTransaction) (h : string)
  (rows : list ProcessedTransaction) :
  In h (map tx_hash rows) -> In h (map tx_hash (upsertByHash x rows)).
Proof.
  intros Hin.
  destruct (in_dec string_dec (tx_hash x) (map tx_hash rows)) as [ Hx | Hx ].
  - now rewrite upsertByHash_hashes_present.
  - rewrite upsertByHash_hashes_absent by assumption. apply in_app_iff. now left.
Qed.

(** Upserting a row that is in the table leaves the table as it is. *)
Lemma upsertByHash_same (x : ProcessedTransaction) (rows : list ProcessedTransaction) :
  List.NoDup (map tx_hash rows) -> In x rows -> upsertByHash x rows = rows.
Proof.
  induction rows as [ | row rest IH ]; simpl; [ intros _ [] | ].
  intros Hnd Hin. apply List.NoDup_cons_iff in Hnd as [Hrow Hrest].
  destruct (String.eqb (tx_hash row) (tx_hash x)) eqn:E.
  - apply String.eqb_eq in E. destruct Hin as [ -> | Hin ]; [ reflexivity | ].
    exfalso. apply Hrow. rewrite E. now apply in_map.
  - apply String.eqb_neq in E. destruct Hin as [ -> | Hin ]; [ contradiction | ].
    now rewrite IH.
Qed.

Lemma upsertAll_NoDup (txs rows : list ProcessedTransaction) :
  List.NoDup (map tx_hash rows) -> List.NoDup (map tx_hash (upsertAll txs rows)).
Proof.
  unfold upsertAll. revert rows. induction txs as [ | x rest IH ]; intros rows Hnd; simpl.
  - exact Hnd.
  - apply IH. now apply upsertByHash_NoDup.
Qed.

Lemma upsertAll_keeps_hash (txs rows : list ProcessedTransaction) (h : string) :
  In h (map tx_hash rows) -> In h (map tx_hash (upsertAll txs rows)).
Proof.
  unfold upsertAll. revert rows. induction txs as [ | x rest IH ]; intros rows Hin; simpl.
  - exact Hin.
  - apply IH. now apply upsertByHash_keeps_hash.
Qed.

Lemma upsertAll_hash_In (txs rows : list ProcessedTransaction) (x : ProcessedTransaction) :
  In x txs -> In (tx_hash x) (map tx_hash (upsertAll txs rows)).
Proof.
  unfold upsertAll. revert rows. induction txs as [ | y rest IH ]; intros rows; simpl.
  - intros [].
  - intros [ -> | Hin ]; [ | now apply IH ].
    apply (upsertAll_keeps_hash rest). apply upsertByHash_hash_In.
Qed.

Lemma upsertAll_hashes_present (txs rows : list ProcessedTransaction) :
  (forall x, In x txs -> In (tx_hash x) (map tx_hash rows)) ->
  map tx_hash (upsertAll txs rows) = map tx_hash rows.
Proof.
  unfold upsertAll. revert rows. induction txs as [ | y rest IH ]; intros rows Hall; simpl.
  - reflexivity.
  - rewrite IH.
    + apply upsertByHash_hashes_present. apply Hall. now left.
    + intros x Hx. apply upsertByHash_keeps_hash. apply Hall. now right.
Qed.

Lemma upsertAll_keeps (txs rows : list ProcessedTransaction) (r : ProcessedTransaction) :
  In r rows -> (forall x, In x txs -> tx_hash r <> tx_hash x) -> In r (upsertAll txs rows).
Proof.
  unfold upsertAll. revert rows. induction txs as [ | y rest IH ]; intros rows Hin Hne; simpl.
  - exact Hin.
  - apply IH.
    + apply upsertByHash_keeps; [ exact Hin | ]. apply Hne. now left.
    + intros x Hx. apply Hne. now right.
Qed.

Lemma upsertAll_In (txs rows : list ProcessedTransaction) (x : ProcessedTransaction) :
  List.NoDup (map tx_hash txs) -> In x txs -> In x (upsertAll txs rows).
Proof.
  unfold upsertAll. revert rows. induction txs as [ | y rest IH ]; intros rows Hnd; simpl.
  - intros [].
  - apply List.NoDup_cons_iff in Hnd as [Hy Hrest].
    intros [ -> | Hin ]; [ | now apply IH ].
    apply (upsertAll_keeps rest); [ apply upsertByHash_In | ].
    intros z Hz Heq. apply Hy. rewrite Heq. now apply in_map.
Qed.

Lemma upsertAll_same (txs rows : list ProcessedTransaction) :
  List.NoDup (map tx_hash rows) -> (forall x, In x txs -> In x rows) ->
  upsertAll txs rows = rows.
Proof.
  unfold upsertAll. induction txs as [ | y rest IH ]; intros Hnd Hall; simpl.
  - reflexivity.
  - rewrite upsertByHash_same; [ | exact Hnd | apply Hall; now left ].
    apply IH; [ exact Hnd | ]. intros x Hx. apply Hall. now right.
Qed.

Lemma readLastIndexedHeight_insert (config : Config) (height : Z) (st st' : Store) :
  indexerState st' = <[lastIndexedHeightKey := toString height]> (indexerState st) ->
  readLastIndexedHeight config st' = Some height.
Proof.
  intros Hi. unfold readLastIndexedHeight. rewrite Hi, lookup_insert_eq.
  apply parseInt10_toString.
Qed.

(** Claim C3, amended.  Ingesting again a height that has just been
    committed, with the same ledger data, creates no Transaction row and no
    duplicate hash (with distinct hashes in the block the Transaction table
    is unchanged), leaves the Block rows as they were and the Checkpoint at
    that height; the Event rows of the block are inserted a second time. *)
Theorem reingestion_rows (config : Config) (height : Z) (info : Block)
  (txResponses : list TxResponse) (s0 s1 s2 : State) :
  List.NoDup (map tx_hash (transactions (store s0))) ->
  persistBlock w height info txResponses s0 = (Ok tt, s1) ->
  persistBlock w height info txResponses s1 = (Ok tt, s2) ->
  exists collected,
    collect txResponses height (time (header info)) noneCollected = Ok collected /\
    List.NoDup (map tx_hash (transactions (store s2))) /\
    map tx_hash (transactions (store s2)) = map tx_hash (transactions (store s1)) /\
    (List.NoDup (map tx_hash (c_transactions collected)) ->
     transactions (store s2) = transactions (store s1)) /\
    blocks (store s2) = blocks (store s1) /\
    eventRows (store s1) = eventRows (store s0) ++ c_events collected /\
    eventRows (store s2) = eventRows (store s1) ++ c_events collected /\
    readLastIndexedHeight config (store s1) = Some height /\
    readLastIndexedHeight config (store s2) = Some height.
Proof.
  intros Hnd
    (collected & Hc & Hb1 & Ht1 & He1 & Hi1)%persistBlock_ok
    (collected' & Hc' & Hb2 & Ht2 & He2 & Hi2)%persistBlock_ok.
  assert (collected' = collected) as -> by congruence.
  fold (upsertAll (c_transactions collected) (transactions (store s0))) in Ht1.
  fold (upsertAll (c_transactions collected) (transactions (store s1))) in Ht2.
  assert (Hnd1 : List.NoDup (map tx_hash (transactions (store s1)))).
  { rewrite Ht1. now apply upsertAll_NoDup. }
  exists collected. repeat split; try assumption.
  - rewrite Ht2. now apply upsertAll_NoDup.
  - rewrite Ht2. apply upsertAll_hashes_present.
    intros x Hx. rewrite Ht1. now apply upsertAll_hash_In.
  - intros Hdistinct. rewrite Ht2. apply upsertAll_same; [ exact Hnd1 | ].
    intros x Hx. rewrite Ht1. now apply upsertAll_In.
  - rewrite Hb2, Hb1. apply insert_insert_eq.
  - eapply readLastIndexedHeight_insert. exact Hi1.
  - eapply readLastIndexedHeight_insert. exact Hi2.
Qed.

(** ** The checkpoint and the block rows *)

Section Checkpoint.
Context (config : Config).

Lemma tracks_weaken (c : Z) (st : Store) : Tracks config c st -> TracksUpTo config c st.
Proof.
  intros (Hr & Hc & Hk).
  split; [ exact Hr | ]. split; [ exact Hc | ]. split.
  - intros k Hk'. now apply Hk.
  - intros k Hk'. apply Hk in Hk'. lia.
Qed.

Lemma tracks_empty : TracksUpTo config (startHeight config - 1) emptyStore.
Proof.
  split; [ reflexivity | ]. split; [ lia | ]. split.
  - intros k Hk. lia.
  - intros k [row Hrow]. simpl in Hrow. now rewrite lookup_empty in Hrow.
Qed.

(** One run of [processBlock] on the height after the checkpoint. *)
Lemma processBlock_tracks (c : Z) (s s' : State) (r : Result unit) :
  TracksUpTo config c (store s) ->
  processBlock w (c + 1) s = (r, s') ->
  observed s' = observed s /\
  (stopRequested s' = true /\ store s' = store s
   \/ stopRequested s' = stopRequested s /\
      match r with
      | Ok _ => Tracks config (c + 1) (store s')
      | Throw _ => TracksUpTo config c (store s')
      end).
Proof.
  intros (Hread & Hc & Hlow & Hhigh) Hrun. split.
  { exact (keeps_processBlock observed (fun _ _ => eq_refl) (fun _ => eq_refl)
             (fun _ _ => eq_refl) (fun _ _ => eq_refl) _ _ _ _ Hrun). }
  apply processBlock_cases in Hrun
    as [ (-> & Hst & Hstop) | [ (-> & Hstop & (row & Hb) & Hi) | (e & -> & Hstop & Hi & Hb) ] ].
  - left. auto.
  - right. split; [ exact Hstop | ].
    split; [ eapply readLastIndexedHeight_insert; exact Hi | ].
    split; [ lia | ].
    intros k. rewrite Hb. split.
    + intros [row' Hrow'].
      destruct (Z.eq_dec k (c + 1)) as [ -> | Hne ]; [ lia | ].
      rewrite lookup_insert_ne in Hrow' by congruence.
      specialize (Hhigh k (ex_intro _ row' Hrow')). lia.
    + intros Hk.
      destruct (Z.eq_dec k (c + 1)) as [ -> | Hne ].
      * rewrite lookup_insert_eq. eauto.
      * rewrite lookup_insert_ne by congruence. apply Hlow. lia.
  - right. split; [ exact Hstop | ].
    split; [ unfold readLastIndexedHeight in *; now rewrite Hi | ].
    split; [ exact Hc | ]. split.
    + intros k Hk. destruct Hb as [ -> | (row & ->) ]; [ now apply Hlow | ].
      destruct (Z.eq_dec k (c + 1)) as [ -> | Hne ].
      * rewrite lookup_insert_eq. eauto.
      * rewrite lookup_insert_ne by congruence. now apply Hlow.
    + intros k. destruct Hb as [ -> | (row & ->) ]; [ apply Hhigh | ].
      intros [row' Hrow'].
      destruct (Z.eq_dec k (c + 1)) as [ -> | Hne ]; [ lia | ].
      rewrite lookup_insert_ne in Hrow' by congruence.
      specialize (Hhigh k (ex_intro _ row' Hrow')). lia.
Qed.

Lemma batch_unfold (n : nat) (height endHeight : Z) (s : State) :
  batch w (S n) height endHeight s =
  if (height <=? endHeight) && negb (stopRequested s) then
    let run := processBlock w height s in
    let returned := match run.1 with Ok _ => true | Throw _ => false end in
    let s2 := withObservation
                {| obs_height := height; obs_returned := returned;
                   obs_stopRequested := stopRequested run.2;
                   obs_store := store run.2 |} run.2 in
    if returned then batch w n (height + 1) endHeight s2 else (Ok tt, s2)
  else (Ok tt, s).
Proof.
  cbn [batch]. unfold bind at 1. unfold gets at 1.
  destruct ((height <=? endHeight) && negb (stopRequested s)); [ | reflexivity ].
  unfold bind at 1. unfold tryCatch at 1. unfold bind at 1.
  destruct (processBlock w height s) as [[ [] | e ] s1]; reflexivity.
Qed.

Lemma batch_inv (n : nat) (height endHeight : Z) (s : State) :
  (stopRequested s = true /\ exists c, TracksUpTo config c (store s)) \/
  TracksUpTo config (height - 1) (store s) ->
  Forall (ObservedTracks config) (observed s) ->
  LoopInv config (batch w n height endHeight s).2.
Proof.
  revert height s. induction n as [ | n IH ]; intros height s Hpre Hobs.
  - simpl. split; [ | exact Hobs ]. destruct Hpre as [ [_ H] | H ]; eauto.
  - rewrite batch_unfold.
    destruct (height <=? endHeight); simpl;
      [ | split; [ destruct Hpre as [ [_ H] | H ]; eauto | exact Hobs ] ].
    destruct (stopRequested s) eqn:Hstop; simpl;
      [ split; [ destruct Hpre as [ [_ H] | H ]; eauto | exact Hobs ] | ].
    destruct Hpre as [ [Hcontra _] | Htr ]; [ discriminate | ].
    destruct (processBlock w height s) as [r s1] eqn:Hrun.
    replace height with (height - 1 + 1) in Hrun by lia.
    destruct (processBlock_tracks (height - 1) s s1 r Htr Hrun)
      as (Hsame & [ (Hhalt & Hstore) | (Hkeep & Hres) ]); simpl.
    + assert (Hobs' : Forall (ObservedTracks config)
                (observed s1 ++
                 [{| obs_height := height;
                     obs_returned := match r with Ok _ => true | Throw _ => false end;
                     obs_stopRequested := stopRequested s1;
                     obs_store := store s1 |}])).
      { rewrite Hsame. apply Forall_app. split; [ exact Hobs | ].
        constructor; [ | constructor ]. intros [_ Hns]. simpl in Hns. congruence. }
      destruct r as [ u | e ].
      * apply IH; [ left; simpl; split; [ exact Hhalt | ] | exact Hobs' ].
        rewrite Hstore. eauto.
      * split; simpl; [ rewrite Hstore; eauto | exact Hobs' ].
    + destruct r as [ u | e ].
      * replace (height - 1 + 1) with height in Hres by lia.
        apply IH.
        -- right. simpl. replace (height + 1 - 1) with height by lia.
           now apply tracks_weaken.
        -- simpl. rewrite Hsame. apply Forall_app. split; [ exact Hobs | ].
           constructor; [ | constructor ]. intros _. exact Hres.
      * split; simpl; [ eauto | ].
        rewrite Hsame. apply Forall_app. split; [ exact Hobs | ].
        constructor; [ | constructor ]. intros [Hret _]. discriminate Hret.
Qed.

Lemma syncLoop_inv (fuel : nat) (s : State) :
  LoopInv config s -> LoopInv config (syncLoop config w fuel s).2.
Proof.
  revert s. induction fuel as [ | fuel IH ]; intros s Hinv; [ exact Hinv | ].
  cbn [syncLoop]. unfold bind at 1. unfold gets at 1.
  destruct (stopRequested s); [ exact Hinv | ].
  unfold bind at 1. unfold getLastIndexedHeight. rewrite dbRead_run.
  destruct (storeFails w (clock s)); [ exact Hinv | ].
  destruct Hinv as [[c Htr] Hobs].
  pose proof Htr as (Hread & _). rewrite Hread.
  unfold bind at 1. unfold bind at 1. unfold tick, liftResult. simpl.
  destruct (getLatestBlockHeight w (S (clock s))) as [ [ latest | ] | e ]; simpl.
  - destruct (c >=? latest).
    + unfold bind at 1. unfold sleep, ret. apply IH. split; simpl; eauto.
    + unfold bind at 1.
      match goal with
      | |- context [batch w ?n ?h ?e ?st] =>
          pose proof (batch_inv n h e st) as Hb; destruct (batch w n h e st) as [[ u | e0 ] s1]
      end; simpl in Hb.
      * apply IH. apply Hb; [ right | exact Hobs ].
        replace (c + 1 - 1) with c by lia. exact Htr.
      * apply Hb; [ right | exact Hobs ].
        replace (c + 1 - 1) with c by lia. exact Htr.
  - apply IH. split; simpl; eauto.
  - split; simpl; eauto.
Qed.

Lemma releaseLock_inv (s : State) : LoopInv config s -> LoopInv config (releaseLock w s).2.
Proof.
  intros Hinv. unfold releaseLock, bind, modify, gets, tryCatch, tick. simpl.
  destruct (lockAcquired s); [ | exact Hinv ]. simpl.
  destruct (storeFails w (clock s)); exact Hinv.
Qed.

Lemma startSync_inv (fuel : nat) (s : State) :
  LoopInv config s -> LoopInv config (startSync config w fuel s).2.
Proof.
  intros Hinv. unfold startSync.
  unfold bind at 1. unfold gets at 1.
  destruct (isRunning s); [ exact Hinv | ].
  unfold bind at 1. unfold bind at 1. unfold tick, liftResult. simpl.
  destruct (tryAdvisoryLock w (clock s)) as [ [ | ] | e ]; simpl; try exact Hinv.
  unfold bind, modify. simpl.
  match goal with
  | |- context [syncLoop config w fuel ?st] =>
      pose proof (syncLoop_inv fuel st Hinv) as Hloop;
      destruct (syncLoop config w fuel st) as [[ [ | ] | e ] s1]
  end; simpl in Hloop; try exact Hloop.
  - unfold tryFinally, liftResult.
    pose proof (releaseLock_inv s1 Hloop) as Hrel.
    destruct (releaseLock w s1) as [[ u | e ] s2]; exact Hrel.
  - unfold tryFinally, liftResult.
    pose proof (releaseLock_inv s1 Hloop) as Hrel.
    destruct (releaseLock w s1) as [[ u | e0 ] s2]; exact Hrel.
Qed.

(** Claim C5.  Started from a store in which the Checkpoint reads [c] and
    the Block rows cover the heights from the start height to [c] (with at
    most one more row, at [c + 1], left by an interrupted run), the engine
    leaves, after every pass in which [processBlock] returned without
    halting, a store whose Checkpoint reads the height just ingested and
    whose Block rows are exactly those of the heights from the start height
    up to it. *)
Theorem checkpoint_tracks_blocks (fuel : nat) (st : Store) (c : Z) :
  TracksUpTo config c st ->
  let final := (startSync config w fuel (initialState st)).2 in
  Forall (fun o =>
            obs_returned o = true -> obs_stopRequested o = false ->
            readLastIndexedHeight config (obs_store o) = Some (obs_height o) /\
            forall k, is_Some (blocks (obs_store o) !! k)
                      <-> startHeight config <= k <= obs_height o)
         (observed final)
  /\ exists c', TracksUpTo config c' (store final).
Proof.
  intros Htr final.
  destruct (startSync_inv fuel (initialState st)) as [Hc Hobs].
  { split; [ eauto | constructor ]. }
  split; [ | exact Hc ].
  eapply Forall_impl; [ exact Hobs | ].
  intros o Ho Hret Hstop. destruct (Ho (conj Hret Hstop)) as (Hr & _ & Hk). auto.
Qed.

End Checkpoint.

End Engine.

(** ** The scenarios *)

Section Witnesses.
Import Scenarios.
#[local] Existing Instance decimalRuntime.



(** The reorg halt at block 3 of the ledger, which names a predecessor hash
    that is not block 2's. *)
Lemma reorg_halts_without_write_witness :
  let s := initialState (storeAt 2 "H2") in
  (3 > 1 /\
   getBlockByHeight steady (clock s) 3 = Ok (blockAt "H3" (Some "XX")) /\
   blocks (store s) !! (3 - 1) = Some (rowOf "H2") /\
   b_hash (rowOf "H2") <> "XX") /\
  store (processBlock steady 3 s).2 = store s /\
  (processBlock steady 3 s).1 = Ok tt /\
  stopRequested (processBlock steady 3 s).2 = true /\
  syncLoop config steady 7 (processBlock steady 3 s).2
  = (Ok Stopped, (processBlock steady 3 s).2).
Proof.
  intros s.
  assert (H1 : 3 > 1) by lia.
  assert (H4 : b_hash (rowOf "H2") <> "XX") by discriminate.
  assert (H5 : "XX" <> "") by discriminate.
  split; [ repeat split; assumption || reflexivity | ].
  destruct (reorg_halts_without_write steady 3 s (blockAt "H3" (Some "XX")) "XX"
              (rowOf "H2") H1 eq_refl eq_refl H5 eq_refl H4)
    as (Hstore & _ & Hhalt).
  destruct (Hhalt eq_refl) as (Hr & Hstop & _ & Hloop).
  repeat split; first [ assumption | apply Hloop ].
Defined.

(** Witness of C7 (amended): the same block 3. *)
Lemma linkage_check_scope_witness :
  let s := initialState (storeAt 2 "H2") in
  getBlockByHeight steady (clock s) 3 = Ok (blockAt "H3" (Some "XX")) /\
  stopRequested s = false /\
  stopRequested (processBlock steady 3 s).2 = true /\
  store (processBlock steady 3 s).2 = store s.
Proof.
  intros s.
  destruct (linkage_check_scope steady 3 s (blockAt "H3" (Some "XX")) eq_refl eq_refl)
    as [[_ Hback] Hstore].
  assert (Hstop : stopRequested (processBlock steady 3 s).2 = true).
  { apply Hback. split; [ lia | ].
    exists "XX", (rowOf "H2"). repeat split; try reflexivity; discriminate. }
  split; [ reflexivity | ]. split; [ reflexivity | ].
  split; [ exact Hstop | exact (Hstore Hstop) ].
Defined.

(** Counterexample to C7 as stated: height 4 is not 1, Block 3 is stored
    with hash "H3", the header of block 4 carries the empty string as
    [last_block_id] hash, which differs from "H3"; the two are not compared
    and block 4 is ingested. *)
Lemma linkage_check_skipped_on_empty_hash :
  let s := initialState (storeAt 3 "H3") in
  let s' := (processBlock steady 4 s).2 in
  4 <> 1 /\
  blocks (store s) !! (4 - 1) = Some (rowOf "H3") /\
  getBlockByHeight steady (clock s) 4 = Ok (blockAt "H4" (Some "")) /\
  last_block_id_hash (header (blockAt "H4" (Some ""))) <> Some (b_hash (rowOf "H3")) /\
  (forall t, storeFails steady t = false) /\
  stopRequested s' = false /\
  blocks (store s') !! 4 = Some (rowOf "H4") /\
  indexerState (store s') !! lastIndexedHeightKey = Some "4".
Proof.
  intros s s'. repeat split; try reflexivity; try discriminate.
Qed.

(** The unit of block 2 with its Account upsert rejected (the sixth store
    operation of the run): the rejection is caught by [updateAccounts], the
    transaction it has aborted rejects the upsert of the Checkpoint, and
    the unit is rolled back; [processBlock] throws and no row of block 2 is
    stored. *)
Example rejected_account_upsert_aborts_unit :
  let w := worldWith ledger (fun t => Nat.eqb t 6) in
  let s := initialState emptyStore in
  let s' := (processBlock w 2 s).2 in
  accounts (store (processBlock steady 2 s).2) !! "twilight1sender00"
    = Some {| a_txCount := 1; a_firstSeen := "2024-02-04T00:00:00Z";
              a_lastSeen := "2024-02-04T00:00:00Z" |} /\
  storeFails w 6 = true /\
  (processBlock w 2 s).1 = Throw StoreError /\
  store s' = store s /\
  emitted s' = emitted s.
Proof. repeat split; reflexivity. Qed.

(** Claim C2 does not hold on the empty-block path.  Block 2 is stored and
    the Checkpoint is at 2; the first header request for height 3 is
    answered with HTTP 400 and the second with the header; the store takes
    the upsert of the Block row and rejects the write of the Checkpoint that
    follows it.  [processBlock] throws, and of the two writes the first has
    taken effect: the Block row of height 3 is in the store, with the
    Checkpoint left at 2.  The two writes are issued one after the other,
    outside any transaction. *)
Example empty_block_path_not_atomic :
  let w := flaky (fun t => Nat.eqb t 3) in
  let s := initialState (storeAt 2 "H2") in
  let s' := (processBlock w 3 s).2 in
  getBlockByHeight w 0 3 = Throw (HttpError 400) /\
  getBlockByHeight w 1 3 = Ok (blockAt "H3" (Some "XX")) /\
  storeFails w 2 = false /\ storeFails w 3 = true /\
  blocks (store s) !! 3 = None /\
  indexerState (store s) !! lastIndexedHeightKey = Some "2" /\
  (processBlock w 3 s).1 = Throw StoreError /\
  blocks (store s') !! 3 = Some (rowOf "H3") /\
  indexerState (store s') !! lastIndexedHeightKey = Some "2".
Proof. repeat split; reflexivity. Qed.

(** Claim C1 does not hold on the empty-block path.  Height 3 is above 1,
    Block 2 is stored with hash "H2", the first header request for height 3
    is answered with HTTP 400 and the second with a header whose
    [last_block_id] hash is "XX": [processBlock] validates no linkage there,
    returns without halting, stores Block 3, advances the Checkpoint to 3 and
    emits the block. *)
Example empty_block_path_skips_linkage :
  let w := flaky (fun _ => false) in
  let s := initialState (storeAt 2 "H2") in
  let s' := (processBlock w 3 s).2 in
  3 > 1 /\
  getBlockByHeight w 0 3 = Throw (HttpError 400) /\
  getBlockByHeight w 1 3 = Ok (blockAt "H3" (Some "XX")) /\
  blocks (store s) !! (3 - 1) = Some (rowOf "H2") /\
  b_hash (rowOf "H2") <> "XX" /\
  (processBlock w 3 s).1 = Ok tt /\
  stopRequested s' = false /\
  blocks (store s') !! 3 = Some (rowOf "H3") /\
  indexerState (store s) !! lastIndexedHeightKey = Some "2" /\
  indexerState (store s') !! lastIndexedHeightKey = Some "3" /\
  emitted s' <> emitted s.
Proof. repeat split; try reflexivity; try discriminate; lia. Qed.

(** Witness of C3 (amended): block 2 of the ledger, persisted twice. *)
Lemma reingestion_rows_witness :
  let txs := [txOf "TX1" [sendMsg]] in
  let info := blockAt "H2" (Some "H1") in
  let s1 := (persistBlock steady 2 info txs (initialState emptyStore)).2 in
  let s2 := (persistBlock steady 2 info txs s1).2 in
  List.NoDup (map tx_hash (transactions (store (initialState emptyStore)))) /\
  persistBlock steady 2 info txs (initialState emptyStore) = (Ok tt, s1) /\
  persistBlock steady 2 info txs s1 = (Ok tt, s2) /\
  transactions (store s2) = transactions (store s1) /\
  length (eventRows (store s1)) = 1%nat /\
  length (eventRows (store s2)) = 2%nat /\
  readLastIndexedHeight config (store s2) = Some 2.
Proof.
  intros txs info s1 s2.
  assert (H0 : List.NoDup (map tx_hash (transactions (store (initialState emptyStore)))))
    by constructor.
  assert (H1 : persistBlock steady 2 info txs (initialState emptyStore) = (Ok tt, s1)).
  { subst s1. destruct (persistBlock steady 2 info txs (initialState emptyStore))
      as [[ [] | e ] s] eqn:E; [ reflexivity | vm_compute in E; discriminate E ]. }
  assert (H2 : persistBlock steady 2 info txs s1 = (Ok tt, s2)).
  { subst s2. destruct (persistBlock steady 2 info txs s1)
      as [[ [] | e ] s] eqn:E; [ reflexivity | vm_compute in E; discriminate E ]. }
  destruct (reingestion_rows steady config 2 info txs _ s1 s2 H0 H1 H2)
    as (collected & Hc & _ & _ & Hsame & _ & He1 & He2 & _ & Hcp).
  vm_compute in Hc. injection Hc as <-.
  split; [ exact H0 | ]. split; [ exact H1 | ]. split; [ exact H2 | ].
  split; [ apply Hsame; repeat constructor; simpl; tauto | ].
  split; [ rewrite He1; reflexivity | ].
  split; [ rewrite He2, He1; reflexivity | exact Hcp ].
Defined.

(** Counterexample to C3 as stated: block 2, with one transaction and one
    event, is ingested and then ingested again; the Event table then holds
    the same row twice. *)
Lemma reingestion_duplicates_events :
  let event := {| e_txHash := Some "TX1"; e_blockHeight := 2; e_type := "message";
                  e_attributes := [("action", "send")] |} in
  let s1 := (processBlock steady 2 (initialState emptyStore)).2 in
  let s2 := (processBlock steady 2 s1).2 in
  (processBlock steady 2 (initialState emptyStore)).1 = Ok tt /\
  indexerState (store s1) !! lastIndexedHeightKey = Some "2" /\
  (processBlock steady 2 s1).1 = Ok tt /\
  length (transactions (store s2)) = 1%nat /\
  eventRows (store s1) = [event] /\
  eventRows (store s2) = [event; event] /\
  ~ List.NoDup (eventRows (store s2)).
Proof.
  intros event s1 s2.
  assert (He : eventRows (store s2) = [event; event]) by reflexivity.
  repeat split; try reflexivity.
  rewrite He. intros Hnd. apply List.NoDup_cons_iff in Hnd as [Hnot _].
  apply Hnot. now left.
Qed.

(** [processBlock] writes the height it is given as the Checkpoint, whatever
    the Checkpoint was: run on a height below it, which the main loop never
    does, it moves the Checkpoint back. *)
Example processBlock_below_checkpoint :
  let s := initialState (storeAt 3 "H3") in
  readLastIndexedHeight config (store s) = Some 3 /\
  readLastIndexedHeight config (store (processBlock steady 2 s).2) = Some 2.
Proof. split; reflexivity. Qed.

(** Witness of C5: the engine run on the ledger from an empty store; blocks
    1 and 2 are ingested and block 3 halts it. *)
Lemma checkpoint_tracks_blocks_witness :
  let final := (startSync config steady 3 (initialState emptyStore)).2 in
  TracksUpTo config 0 emptyStore /\
  map (fun o => (obs_height o, obs_returned o, obs_stopRequested o)) (observed final)
  = [(1, true, false); (2, true, false); (3, true, true)] /\
  Forall (fun o =>
            obs_returned o = true -> obs_stopRequested o = false ->
            readLastIndexedHeight config (obs_store o) = Some (obs_height o) /\
            forall k, is_Some (blocks (obs_store o) !! k)
                      <-> startHeight config <= k <= obs_height o)
         (observed final).
Proof.
  intros final.
  pose proof (tracks_empty config) as H0.
  change (startHeight config - 1) with 0 in H0.
  split; [ exact H0 | ]. split; [ reflexivity | ].
  exact (proj1 (checkpoint_tracks_blocks steady config 3 emptyStore 0 H0)).
Defined.

(** Witness of C9: a transfer whose sender address is long and whose
    recipient field holds a short string. *)
Lemma short_addresses_never_upserted_witness :
  let stored := {| sm_type := "/cosmos.bank.v1beta1.MsgSend"; sm_typeName := "MsgSend";
                   sm_module := None; sm_data := deleteKey "@type" sendMsg |} in
  let txData := {| tx_hash := "TX1"; tx_blockHeight := 2; tx_blockTime := "t";
                   tx_type := JStr "/cosmos.bank.v1beta1.MsgSend";
                   tx_messageTypes := [JStr "/cosmos.bank.v1beta1.MsgSend"];
                   tx_messages := [stored]; tx_fee := JNull; tx_gasUsed := 10;
                   tx_gasWanted := 20; tx_memo := None; tx_status := "success";
                   tx_errorLog := None; tx_signers := [] |} in
  let s := initialState emptyStore in
  let s' := (updateAccounts steady (clock s) [txData] "t" s).2 in
  collectAddresses [txData] = ["twilight1sender00"; "short"] /\
  accounts (store s') !! "short" = None /\
  accounts (store s') !! "twilight1sender00"
  = Some {| a_txCount := 1; a_firstSeen := "t"; a_lastSeen := "t" |}.
Proof.
  intros stored txData s s'.
  destruct (short_addresses_never_upserted steady (clock s) [txData] "t" s "short")
    as (_ & _ & Hshort & _).
  destruct (short_addresses_never_upserted steady (clock s) [txData] "t" s
              "twilight1sender00")
    as (_ & _ & _ & Hlong).
  split; [ reflexivity | ]. split.
  - subst s'. rewrite Hshort; [ reflexivity | simpl; lia ].
  - subst s'. rewrite Hlong; [ reflexivity | reflexivity | simpl; auto | simpl; lia ].
Defined.

End Witnesses.

(** ** Around the block loop: stopping, status, start *)

Section Operation.
Context {rt : JsRuntime} (w : World).

Lemma releaseAttempt_run (s : State) :
  tryCatch (let* t := tick in
            if storeFails w t then throw StoreError
            else modify (withLock false))
           (fun _ => ret tt) s
  = (Ok tt, if storeFails w (clock s) then withTick s
            else withLock false (withTick s)).
Proof.
  unfold tryCatch, bind, tick, throw, modify, ret. simpl.
  now destruct (storeFails w (clock s)).
Qed.

(** [stopSync] returns, whatever the store does.  It requests the stop and
    changes nothing else but the lock flag, which is cleared unless the
    unlock query failed; the batch loop and the main loop then make no
    further step. *)
Theorem stopSync_requests_stop (s : State) :
  exists s',
    stopSync w s = (Ok tt, s') /\
    stopRequested s' = true /\
    store s' = store s /\ emitted s' = emitted s /\
    isRunning s' = isRunning s /\ observed s' = observed s /\
    lockAcquired s' = lockAcquired s && storeFails w (clock s) /\
    (forall n height endHeight, batch w n height endHeight s' = (Ok tt, s')) /\
    (forall config fuel, syncLoop config w fuel s' = (Ok Stopped, s')).
Proof.
  unfold stopSync.
  unfold bind at 1. unfold modify at 1. unfold bind at 1. unfold gets at 1.
  cbn [lockAcquired withStop].
  destruct (lockAcquired s) eqn:Hlock.
  - rewrite releaseAttempt_run. eexists. split; [ reflexivity | ].
    cbn [clock withStop].
    destruct (storeFails w (clock s)); cbn;
      repeat split; try reflexivity; try assumption;
      intros; first [ now apply batch_stopped | now apply syncLoop_stopped ].
  - eexists. split; [ reflexivity | ].
    cbn. rewrite Hlock.
    repeat split; intros; first [ now apply batch_stopped | now apply syncLoop_stopped ].
Qed.

Lemma getSyncStatus_run (config : Config) (s : State) :
  getSyncStatus config w s =
  if storeFails w (clock s) then (Throw StoreError, withTick s)
  else
    match getLatestBlockHeight w (S (clock s)) with
    | Throw e => (Throw e, withTick (withTick s))
    | Ok latestHeight =>
        (Ok {| status_isRunning := isRunning s;
               status_lastIndexedHeight := readLastIndexedHeight config (store s);
               status_latestHeight := latestHeight;
               status_blocksRemaining :=
                 match latestHeight, readLastIndexedHeight config (store s) with
                 | Some latest, Some last => Some (latest - last)
                 | _, _ => None
                 end |},
         withTick (withTick s))
    end.
Proof.
  unfold getSyncStatus, getLastIndexedHeight.
  unfold bind at 1. rewrite dbRead_run.
  destruct (storeFails w (clock s)); [ reflexivity | ].
  unfold bind, tick, liftResult, gets, ret. cbn.
  now destruct (getLatestBlockHeight w (S (clock s))).
Qed.

(** [getSyncStatus] only reads: it leaves the store, the flags and the
    emitted events as they were.  Asked after a [processBlock] that wrote
    to the store, it reports the height of that block as last indexed
    height, and the distance to the head the ledger reports. *)
Theorem getSyncStatus_reports_checkpoint (config : Config) :
  (forall s,
     let s' := (getSyncStatus config w s).2 in
     store s' = store s /\ isRunning s' = isRunning s /\
     stopRequested s' = stopRequested s /\ lockAcquired s' = lockAcquired s /\
     emitted s' = emitted s /\ observed s' = observed s)
  /\
  (forall height latest s0 s,
     processBlock w height s0 = (Ok tt, s) ->
     store s <> store s0 ->
     storeFails w (clock s) = false ->
     getLatestBlockHeight w (S (clock s)) = Ok (Some latest) ->
     (getSyncStatus config w s).1
     = Ok {| status_isRunning := isRunning s;
             status_lastIndexedHeight := Some height;
             status_latestHeight := Some latest;
             status_blocksRemaining := Some (latest - height) |}).
Proof.
  split.
  - intros s. cbn zeta. rewrite getSyncStatus_run.
    destruct (storeFails w (clock s)); [ now cbn | ].
    destruct (getLatestBlockHeight w (S (clock s))); now cbn.
  - intros height latest s0 s Hrun Hwrote Hstore Hhead.
    rewrite getSyncStatus_run, Hstore, Hhead.
    apply processBlock_cases in Hrun
      as [ (_ & Hsame & _) | [ (_ & _ & _ & Hstate) | (e & He & _) ] ];
      [ congruence | | discriminate ].
    now rewrite (readLastIndexedHeight_insert config height s0.(store) s.(store) Hstate).
Qed.

Lemma startSync_run (config : Config) (fuel : nat) (s : State) :
  startSync config w fuel s =
  if isRunning s then (Ok Stopped, s)
  else
    match tryAdvisoryLock w (clock s) with
    | Throw e => (Throw e, withTick s)
    | Ok false => (Ok Stopped, withTick s)
    | Ok true =>
        match syncLoop config w fuel
                (withStop false (withRunning true (withLock true (withTick s)))) with
        | (Ok StillRunning, s') => (Ok StillRunning, s')
        | (r, s') => tryFinally (liftResult r) (releaseLock w) s'
        end
    end.
Proof.
  unfold startSync. unfold bind at 1. unfold gets at 1.
  destruct (isRunning s); [ reflexivity | ].
  unfold bind at 1. unfold bind at 1. unfold tick, liftResult. cbn.
  destruct (tryAdvisoryLock w (clock s)) as [ [ | ] | e ]; reflexivity.
Qed.

(** [startSync] does nothing when a sync is running already, and nothing but
    the lock query when the advisory lock is not granted: the store, the
    flags, the emitted events and the observed passes are as they were. *)
Theorem startSync_needs_the_lock (config : Config) (fuel : nat) (s : State) :
  isRunning s = true \/ tryAdvisoryLock w (clock s) <> Ok true ->
  let run := startSync config w fuel s in
  run.1 <> Ok StillRunning /\
  store run.2 = store s /\ isRunning run.2 = isRunning s /\
  stopRequested run.2 = stopRequested s /\ lockAcquired run.2 = lockAcquired s /\
  emitted run.2 = emitted s /\ observed run.2 = observed s.
Proof.
  intros Hguard. cbn zeta. rewrite startSync_run.
  destruct (isRunning s) eqn:Hrunning.
  - cbn. repeat split; first [ reflexivity | assumption | discriminate ].
  - destruct Hguard as [ Hr | Hlock ]; [ discriminate | ].
    destruct (tryAdvisoryLock w (clock s)) as [ [ | ] | e ]; cbn;
      [ congruence | | ];
      repeat split; first [ reflexivity | assumption | discriminate ].
Qed.

(** ** Errors and the loops *)

Lemma batch_returns (n : nat) (height endHeight : Z) (s : State) :
  exists s', batch w n height endHeight s = (Ok tt, s').
Proof.
  revert height s. induction n as [ | n IH ]; intros height s.
  - now eexists.
  - rewrite batch_unfold.
    destruct ((height <=? endHeight) && negb (stopRequested s)); [ | now eexists ].
    cbn zeta. destruct (processBlock w height s).1; [ apply IH | now eexists ].
Qed.

Lemma syncLoop_step (config : Config) (fuel : nat) (s : State) :
  syncLoop config w (S fuel) s =
  if stopRequested s then (Ok Stopped, s)
  else if storeFails w (clock s) then (Throw StoreError, withTick s)
  else
    let s2 := withTick (withTick s) in
    match getLatestBlockHeight w (S (clock s)) with
    | Throw e => (Throw e, s2)
    | Ok latestHeight =>
        match readLastIndexedHeight config (store s), latestHeight with
        | Some lastIndexed, Some latest =>
            if lastIndexed >=? latest then syncLoop config w fuel s2
            else
              let startHeight := lastIndexed + 1 in
              let endHeight := Z.min (startHeight + batchSize config - 1) latest in
              syncLoop config w fuel
                (batch w (Z.to_nat (endHeight - startHeight + 1))
                       startHeight endHeight s2).2
        | _, _ => syncLoop config w fuel s2
        end
    end.
Proof.
  cbn [syncLoop]. unfold bind at 1. unfold gets at 1.
  destruct (stopRequested s); [ reflexivity | ].
  unfold getLastIndexedHeight. unfold bind at 1. rewrite dbRead_run.
  destruct (storeFails w (clock s)); [ reflexivity | ].
  unfold bind at 1. unfold bind at 1. unfold tick, liftResult. cbn [clock withTick].
  destruct (getLatestBlockHeight w (S (clock s))) as [ latestHeight | e ]; [ | reflexivity ].
  cbn zeta.
  destruct (readLastIndexedHeight config (store s)) as [ lastIndexed | ];
    [ | reflexivity ].
  destruct latestHeight as [ latest | ]; [ | reflexivity ].
  destruct (lastIndexed >=? latest); [ reflexivity | ].
  unfold bind.
  match goal with
  | |- context [batch w ?n ?a ?b ?st] =>
      destruct (batch_returns n a b st) as (s3 & ->)
  end.
  reflexivity.
Qed.

Lemma syncLoop_throw (config : Config) (fuel : nat) (s s' : State) (e : Error) :
  syncLoop config w fuel s = (Throw e, s') ->
  (e = StoreError /\ exists t, storeFails w t = true) \/
  exists t, getLatestBlockHeight w t = Throw e.
Proof.
  revert s. induction fuel as [ | fuel IH ]; intros s.
  - cbn. discriminate.
  - rewrite syncLoop_step.
    destruct (stopRequested s); [ discriminate | ].
    destruct (storeFails w (clock s)) eqn:Hfail.
    { intros [= <- _]. left. eauto. }
    cbn zeta.
    destruct (getLatestBlockHeight w (S (clock s))) as [ latestHeight | e0 ] eqn:Hhead.
    2: { intros [= <- _]. right. eauto. }
    destruct (readLastIndexedHeight config (store s)) as [ lastIndexed | ];
      [ | apply IH ].
    destruct latestHeight as [ latest | ]; [ | apply IH ].
    destruct (lastIndexed >=? latest); apply IH.
Qed.

Lemma releaseLock_run (s : State) :
  releaseLock w s =
  (Ok tt, if lockAcquired s
          then if storeFails w (clock s) then withTick (withRunning false s)
               else withLock false (withTick (withRunning false s))
          else withRunning false s).
Proof.
  unfold releaseLock. unfold bind at 1. unfold modify at 1.
  unfold bind at 1. unfold gets at 1. cbn [lockAcquired withRunning].
  destruct (lockAcquired s); [ | reflexivity ].
  now rewrite releaseAttempt_run.
Qed.

(** An error raised while a block is processed never leaves the batch
    loop.  The main loop throws only when the read of the checkpoint or the
    query of the chain head fails, and [startSync] only then or when the lock
    query fails. *)
Theorem processing_errors_never_escape :
  (forall n height endHeight, NeverThrows (batch w n height endHeight))
  /\
  (forall config fuel s e s',
     syncLoop config w fuel s = (Throw e, s') ->
     (e = StoreError /\ exists t, storeFails w t = true) \/
     exists t, getLatestBlockHeight w t = Throw e)
  /\
  (forall config fuel s e s',
     startSync config w fuel s = (Throw e, s') ->
     (e = StoreError /\ exists t, storeFails w t = true) \/
     (exists t, getLatestBlockHeight w t = Throw e) \/
     exists t, tryAdvisoryLock w t = Throw e).
Proof.
  split; [ | split ].
  - intros n height endHeight s.
    destruct (batch_returns n height endHeight s) as (s' & ->). now eexists _, _.
  - intros config fuel s e s'. apply syncLoop_throw.
  - intros config fuel s e s'. rewrite startSync_run.
    destruct (isRunning s); [ discriminate | ].
    destruct (tryAdvisoryLock w (clock s)) as [ [ | ] | e0 ] eqn:Hlock.
    + destruct (syncLoop config w fuel _) as [[ [ | ] | e1 ] s1] eqn:Hloop;
        unfold tryFinally, liftResult; rewrite ?releaseLock_run; try discriminate.
      intros [= <- _]. apply syncLoop_throw in Hloop. tauto.
    + discriminate.
    + intros [= <- _]. right. right. eauto.
Qed.

(** When [startSync] ends, by a stop, by a halt or by an error, the running
    flag is cleared; and the lock flag is cleared too, unless the unlock
    query failed. *)
Theorem startSync_finally_clears_flags (config : Config) (fuel : nat)
  (s s' : State) (r : Result LoopEnd) :
  isRunning s = false -> lockAcquired s = false ->
  startSync config w fuel s = (r, s') ->
  r <> Ok StillRunning ->
  isRunning s' = false /\
  (lockAcquired s' = true -> exists t, storeFails w t = true).
Proof.
  intros Hrunning Hlock. rewrite startSync_run, Hrunning.
  assert (Hend : forall r1 s1,
            tryFinally (liftResult r1) (releaseLock w) s1 = (r, s') ->
            isRunning s' = false /\
            (lockAcquired s' = true -> exists t, storeFails w t = true)).
  { intros r1 s1. unfold tryFinally, liftResult. rewrite releaseLock_run.
    intros [= _ <-].
    destruct (lockAcquired s1) eqn:Hl1;
      [ destruct (storeFails w (clock s1)) eqn:Hfail | ];
      cbn; (split; [ reflexivity | ]); eauto; congruence. }
  destruct (tryAdvisoryLock w (clock s)) as [ [ | ] | e0 ].
  - destruct (syncLoop config w fuel _) as [[ [ | ] | e1 ] s1] eqn:Hloop.
    + intros H _. eapply Hend, H.
    + intros [= <- <-] Hr. congruence.
    + intros H _. eapply Hend, H.
  - intros [= <- <-] _. cbn. split; [ assumption | congruence ].
  - intros [= <- <-] _. cbn. split; [ assumption | congruence ].
Qed.

(** ** The order in which heights are processed *)

Lemma processBlock_observed (height : Z) (s : State) :
  observed (processBlock w height s).2 = observed s.
Proof.
  destruct (processBlock w height s) as [r s'] eqn:Hrun.
  exact (keeps_processBlock w observed (fun _ _ => eq_refl) (fun _ => eq_refl)
           (fun _ _ => eq_refl) (fun _ _ => eq_refl) height s r s' Hrun).
Qed.

Lemma heightsFrom_cons (height : Z) (n : nat) :
  heightsFrom height (S n) = height :: heightsFrom (height + 1) n.
Proof.
  unfold heightsFrom. cbn [seq map]. f_equal; [ lia | ].
  rewrite <- seq_shift, map_map. apply map_ext. intros i. lia.
Qed.

(** The passes of a batch, as a list. *)
Lemma batch_passes (n : nat) (height endHeight : Z) (s : State) :
  exists obs,
    observed (batch w n height endHeight s).2 = observed s ++ obs /\
    (length obs <= n)%nat /\
    map obs_height obs = heightsFrom height (length obs) /\
    Forall (fun o => obs_height o <= endHeight) obs /\
    (forall i o, obs !! i = Some o -> (S i < length obs)%nat ->
                 obs_returned o = true /\ obs_stopRequested o = false).
Proof.
  revert height s. induction n as [ | n IH ]; intros height s.
  - exists []. cbn. rewrite app_nil_r.
    split; [ reflexivity | ]. split; [ lia | ]. split; [ reflexivity | ].
    split; [ constructor | intros i o H; discriminate ].
  - rewrite batch_unfold.
    destruct ((height <=? endHeight) && negb (stopRequested s)) eqn:Hgo.
    2: { exists []. cbn. rewrite app_nil_r.
         split; [ reflexivity | ]. split; [ lia | ]. split; [ reflexivity | ].
         split; [ constructor | intros i o H; discriminate ]. }
    apply andb_true_iff in Hgo as [Hle _]. apply Z.leb_le in Hle.
    cbn zeta.
    set (o := {| obs_height := height;
                 obs_returned := match (processBlock w height s).1 with
                                 | Ok _ => true
                                 | Throw _ => false
                                 end;
                 obs_stopRequested := stopRequested (processBlock w height s).2;
                 obs_store := store (processBlock w height s).2 |}).
    destruct (processBlock w height s).1 eqn:Hr.
    + destruct (IH (height + 1) (withObservation o (processBlock w height s).2))
        as (obs & Hobs & Hlen & Hheights & Hend & Hprefix).
      exists (o :: obs). rewrite Hobs. cbn [observed withObservation].
      rewrite processBlock_observed, <- app_assoc. cbn [app length map].
      split; [ reflexivity | ]. split; [ lia | ].
      split; [ now rewrite heightsFrom_cons, Hheights | ].
      split; [ constructor; [ exact Hle | exact Hend ] | ].
      intros [ | i ] o' Hlook Hi.
      * injection Hlook as <-. subst o. cbn [obs_returned obs_stopRequested].
        split; [ reflexivity | ].
        destruct obs as [ | o1 obs1 ]; [ cbn in Hi; lia | ].
        (* a second height was entered, so no stop was requested *)
        destruct n as [ | n' ]; [ cbn in Hlen; lia | ].
        rewrite batch_unfold in Hobs.
        destruct (stopRequested (processBlock w height s).2) eqn:Hstop;
          [ | reflexivity ].
        exfalso. cbn [stopRequested withObservation] in Hobs.
        rewrite Hstop, andb_false_r in Hobs. cbn [snd] in Hobs.
        apply (f_equal (@length _)) in Hobs. rewrite !length_app in Hobs.
        cbn in Hobs. lia.
      * apply (Hprefix i o' Hlook). cbn in Hi. lia.
    + exists [o]. cbn [snd observed withObservation].
      rewrite processBlock_observed. cbn [length map].
      split; [ reflexivity | ]. split; [ lia | ].
      split; [ unfold heightsFrom; cbn; f_equal; lia | ].
      split; [ repeat constructor; exact Hle | ].
      intros i o' _ Hi. cbn in Hi. lia.
Qed.

(** The batch loop processes consecutive heights, starting at the first and
    never beyond the last height of the batch or its size; a height is
    reached only after [processBlock] has returned, without a stop being
    requested, for every height before it. *)
Theorem batch_heights_consecutive (n : nat) (height endHeight : Z) (s : State) :
  exists obs,
    observed (batch w n height endHeight s).2 = observed s ++ obs /\
    (length obs <= n)%nat /\
    map obs_height obs = heightsFrom height (length obs) /\
    Forall (fun o => obs_height o <= endHeight) obs /\
    (forall i o, obs !! i = Some o -> (S i < length obs)%nat ->
                 obs_returned o = true /\ obs_stopRequested o = false).
Proof. exact (batch_passes n height endHeight s). Qed.

(** One iteration of the main loop processes at most [batchSize] heights,
    consecutive from the height right above the checkpoint it has read. *)
Theorem iteration_processes_one_batch (config : Config) (s : State) :
  exists obs,
    observed (syncLoop config w 1 s).2 = observed s ++ obs /\
    Z.of_nat (length obs) <= Z.max 0 (batchSize config) /\
    forall c, readLastIndexedHeight config (store s) = Some c ->
              map obs_height obs = heightsFrom (c + 1) (length obs).
Proof.
  assert (Hnone : forall s2 : State,
            observed s2 = observed s ->
            exists obs,
              observed (syncLoop config w 0 s2).2 = observed s ++ obs /\
              Z.of_nat (length obs) <= Z.max 0 (batchSize config) /\
              forall c, readLastIndexedHeight config (store s) = Some c ->
                        map obs_height obs = heightsFrom (c + 1) (length obs)).
  { intros s2 H2. exists []. cbn. rewrite app_nil_r.
    split; [ exact H2 | ]. split; [ lia | reflexivity ]. }
  rewrite syncLoop_step.
  destruct (stopRequested s); [ now apply (Hnone s) | ].
  destruct (storeFails w (clock s)); [ now apply (Hnone (withTick s)) | ].
  cbn zeta.
  destruct (getLatestBlockHeight w (S (clock s))) as [ latestHeight | e ];
    [ | now apply (Hnone (withTick (withTick s))) ].
  destruct (readLastIndexedHeight config (store s)) as [ lastIndexed | ];
    [ | now apply (Hnone (withTick (withTick s))) ].
  destruct latestHeight as [ latest | ];
    [ | now apply (Hnone (withTick (withTick s))) ].
  destruct (lastIndexed >=? latest); [ now apply (Hnone (withTick (withTick s))) | ].
  match goal with
  | |- context [batch w ?n ?a ?b ?st] =>
      destruct (batch_passes n a b st)
        as (obs & Hobs & Hlen & Hheights & _ & _)
  end.
  exists obs. cbn [syncLoop gets snd]. split; [ exact Hobs | ].
  split; [ lia | ].
  intros c [= <-]. exact Hheights.
Qed.

Lemma syncLoop_below_head (config : Config) (head : Z) (fuel : nat) (s : State) :
  (forall t latest, getLatestBlockHeight w t = Ok (Some latest) -> latest <= head) ->
  exists obs,
    observed (syncLoop config w fuel s).2 = observed s ++ obs /\
    Forall (fun o => obs_height o <= head) obs.
Proof.
  intros Hhead. revert s. induction fuel as [ | fuel IH ]; intros s.
  - exists []. cbn. now rewrite app_nil_r.
  - assert (Hsame : forall s2 : State,
              observed s2 = observed s ->
              exists obs,
                observed (syncLoop config w fuel s2).2 = observed s ++ obs /\
                Forall (fun o => obs_height o <= head) obs).
    { intros s2 H2. destruct (IH s2) as (obs & Hobs & Hle).
      exists obs. now rewrite Hobs, H2. }
    assert (Hnil : forall (r : Result LoopEnd) (s2 : State),
              observed s2 = observed s ->
              exists obs,
                observed (r, s2).2 = observed s ++ obs /\
                Forall (fun o => obs_height o <= head) obs).
    { intros r s2 H2. exists []. cbn. now rewrite app_nil_r. }
    rewrite syncLoop_step.
    destruct (stopRequested s); [ now apply Hnil | ].
    destruct (storeFails w (clock s)); [ now apply Hnil | ].
    cbn zeta.
    destruct (getLatestBlockHeight w (S (clock s))) as [ latestHeight | e ] eqn:Hq;
      [ | now apply Hnil ].
    destruct (readLastIndexedHeight config (store s)) as [ lastIndexed | ];
      [ | now apply Hsame ].
    destruct latestHeight as [ latest | ]; [ | now apply Hsame ].
    destruct (lastIndexed >=? latest); [ now apply Hsame | ].
    match goal with
    | |- context [batch w ?n ?a ?b ?st] =>
        destruct (batch_passes n a b st)
          as (obs1 & Hobs1 & _ & _ & Hend & _);
        destruct (IH (batch w n a b st).2) as (obs2 & Hobs2 & Hle2)
    end.
    exists (obs1 ++ obs2). rewrite Hobs2, Hobs1.
    cbn [observed withTick]. rewrite <- app_assoc. split; [ reflexivity | ].
    apply Forall_app. split; [ | exact Hle2 ].
    eapply Forall_impl; [ exact Hend | ].
    intros o Ho. cbn beta in Ho. specialize (Hhead _ _ Hq). lia.
Qed.

(** Whatever the ledger and the store do, a run of [startSync] never
    processes a height above the chain head the ledger has reported. *)
Theorem never_beyond_head (config : Config) (head : Z) (fuel : nat) (s : State) :
  (forall t latest, getLatestBlockHeight w t = Ok (Some latest) -> latest <= head) ->
  exists obs,
    observed (startSync config w fuel s).2 = observed s ++ obs /\
    Forall (fun o => obs_height o <= head) obs.
Proof.
  intros Hhead. rewrite startSync_run.
  assert (Hnil : forall (r : Result LoopEnd) (s2 : State),
            observed s2 = observed s ->
            exists obs,
              observed (r, s2).2 = observed s ++ obs /\
              Forall (fun o => obs_height o <= head) obs).
  { intros r s2 H2. exists []. cbn. now rewrite app_nil_r. }
  destruct (isRunning s); [ now apply Hnil | ].
  destruct (tryAdvisoryLock w (clock s)) as [ [ | ] | e ]; try now apply Hnil.
  destruct (syncLoop_below_head config head fuel
              (withStop false (withRunning true (withLock true (withTick s)))) Hhead)
    as (obs & Hobs & Hle).
  exists obs. split; [ | exact Hle ].
  cbn [observed withStop withRunning withLock withTick] in Hobs.
  destruct (syncLoop config w fuel _) as [[ [ | ] | e ] s1];
    cbn [snd] in Hobs; try exact Hobs;
    unfold tryFinally, liftResult; rewrite releaseLock_run; cbn [snd];
    (destruct (lockAcquired s1); [ destruct (storeFails w (clock s1)) | ]);
    exact Hobs.
Qed.

(** ** Transactions and block rows *)

Lemma decodeAndSerialize_Some (msg : Obj) (stored : StoredMessage) :
  decodeAndSerialize msg = Some stored -> get msg "@type" = JStr (sm_type stored).
Proof.
  unfold decodeAndSerialize, decodeMessage.
  destruct (get msg "@type"); try discriminate.
  cbn. now intros [= <-].
Qed.

Lemma decodeAndSerialize_None (msg : Obj) :
  decodeAndSerialize msg = None <-> forall ty, get msg "@type" <> JStr ty.
Proof.
  unfold decodeAndSerialize, decodeMessage.
  destruct (get msg "@type"); cbn; split; try discriminate; try reflexivity.
  intros H. now destruct (H s).
Qed.

Lemma mapM_None_In {A B} (f : A -> option B) (l : list A) :
  mapM f l = None <-> exists x, In x l /\ f x = None.
Proof.
  induction l as [ | a l IH ]; cbn.
  - split; [ discriminate | intros (x & [] & _) ].
  - destruct (f a) as [ b | ] eqn:Hfa; cbn.
    + destruct (mapM f l) as [ k | ]; cbn.
      * split; [ discriminate | ].
        intros (x & [ -> | Hin ] & Hx); [ congruence | ].
        destruct IH as [_ IH]. discriminate IH. eauto.
      * split; [ | reflexivity ]. intros _.
        destruct IH as [IH _]. destruct (IH eq_refl) as (x & Hin & Hx). eauto.
    + split; [ | reflexivity ]. intros _. eauto.
Qed.

(** [processTransaction] throws exactly when some message of the body has no
    string ['@type'] or a gas figure is not accepted by [BigInt]; when it
    returns, the transaction carries one stored message per message of the
    body, in order, each under the type identifier of its message. *)
Theorem processTransaction_outcome (tx : TxResponse) (height : Z) (blockTime : string) :
  ((exists e, processTransaction tx height blockTime = Throw e) <->
   (exists msg, In msg (from_option fst [] (body tx)) /\
                forall ty, get msg "@type" <> JStr ty)
   \/ BigInt (jsOr (JStr (gas_used tx)) (JStr "0")) = None
   \/ BigInt (jsOr (JStr (gas_wanted tx)) (JStr "0")) = None)
  /\
  (forall processed,
     processTransaction tx height blockTime = Ok processed ->
     tx_hash processed = txhash tx /\
     tx_blockHeight processed = height /\
     Forall2 (fun msg stored => get msg "@type" = JStr (sm_type stored))
             (from_option fst [] (body tx)) (tx_messages processed)).
Proof.
  unfold processTransaction.
  destruct (mapM decodeAndSerialize (from_option fst [] (body tx)))
    as [ decodedMessages | ] eqn:Hdecoded.
  - assert (Hnone : ~ exists msg, In msg (from_option fst [] (body tx)) /\
                                  forall ty, get msg "@type" <> JStr ty).
    { intros (msg & Hin & Hty). apply decodeAndSerialize_None in Hty.
      assert (mapM decodeAndSerialize (from_option fst [] (body tx)) = None)
        by (apply mapM_None_In; eauto).
      congruence. }
    destruct (BigInt (jsOr (JStr (gas_used tx)) (JStr "0"))) as [ gasUsed | ];
      [ destruct (BigInt (jsOr (JStr (gas_wanted tx)) (JStr "0"))) as [ gasWanted | ] | ].
    + split.
      * split; [ intros (e & He); discriminate | ].
        intros [ H | [ H | H ] ]; [ now destruct Hnone | discriminate | discriminate ].
      * intros processed [= <-]. cbn.
        split; [ reflexivity | ]. split; [ reflexivity | ].
        apply mapM_Some in Hdecoded.
        eapply Forall2_impl; [ exact Hdecoded | ].
        intros msg stored. apply decodeAndSerialize_Some.
    + split; [ | discriminate ]. split; [ tauto | eauto ].
    + split; [ | discriminate ]. split; [ tauto | eauto ].
  - split; [ | discriminate ]. split; [ | eauto ].
    intros _. left. apply mapM_None_In in Hdecoded as (msg & Hin & Hmsg).
    exists msg. split; [ exact Hin | ]. now apply decodeAndSerialize_None.
Qed.

Lemma processTransaction_fields (tx : TxResponse) (height : Z) (blockTime : string)
  (processed : ProcessedTransaction) :
  processTransaction tx height blockTime = Ok processed ->
  tx_hash processed = txhash tx /\
  tx_blockHeight processed = height /\ tx_blockTime processed = blockTime.
Proof.
  unfold processTransaction.
  destruct (mapM _ _); [ | discriminate ].
  destruct (BigInt _); [ | discriminate ].
  destruct (BigInt _); [ | discriminate ].
  now intros [= <-].
Qed.

Lemma eventsOf_rows (tx : TxResponse) (height : Z) :
  Forall (fun e => e_blockHeight e = height /\ e_txHash e = Some (txhash tx))
         (eventsOf tx height).
Proof.
  unfold eventsOf. apply Forall_forall. intros e Hin.
  apply list_elem_of_In, in_map_iff in Hin as (event & <- & _). now cbn.
Qed.

Lemma collect_acc (txResponses : list TxResponse) (height : Z) (timestamp : string)
  (acc collected : Collected) :
  collect txResponses height timestamp acc = Ok collected ->
  exists txs evs,
    c_transactions collected = c_transactions acc ++ txs /\
    c_events collected = c_events acc ++ evs /\
    map tx_hash txs = map txhash (List.filter hasHash txResponses) /\
    Forall (fun x => tx_blockHeight x = height /\ tx_blockTime x = timestamp) txs /\
    Forall (fun e => e_blockHeight e = height /\
                     exists tx, In tx txResponses /\ hasHash tx = true /\
                                e_txHash e = Some (txhash tx)) evs /\
    c_gasUsed collected = c_gasUsed acc + totalGasUsed txs /\
    c_gasWanted collected = c_gasWanted acc + totalGasWanted txs /\
    Forall2 (fun tx x => processTransaction tx height timestamp = Ok x)
            (List.filter hasHash txResponses) txs.
Proof.
  revert acc. induction txResponses as [ | tx rest IH ]; intros acc; cbn [collect].
  - intros [= <-]. exists [], []. rewrite !app_nil_r. cbn.
    repeat split; try constructor; lia.
  - cbn [List.filter]. change (hasHash tx) with (negb (String.eqb (txhash tx) "")).
    destruct (String.eqb (txhash tx) "") eqn:Hhash; cbn [negb].
    + intros Hrun.
      destruct (IH _ Hrun) as (txs & evs & H1 & H2 & H3 & H4 & H5 & H6 & H7 & H8).
      exists txs, evs.
      split; [ exact H1 | ]. split; [ exact H2 | ]. split; [ exact H3 | ].
      split; [ exact H4 | ]. split; [ | auto ].
      eapply Forall_impl; [ exact H5 | ].
      intros e (He & tx' & Hin & Hh & Ht). split; [ exact He | ].
      exists tx'. split; [ now right | auto ].
    + destruct (processTransaction tx height timestamp) as [ processed | e ] eqn:Hp;
        [ | discriminate ].
      pose proof Hp as Hpinned.
      apply processTransaction_fields in Hp as (Hh & Hheight & Htime).
      intros Hrun.
      destruct (IH _ Hrun) as (txs & evs & H1 & H2 & H3 & H4 & H5 & H6 & H7 & H8).
      cbn in H1, H2, H6, H7.
      exists (processed :: txs), (eventsOf tx height ++ evs).
      cbn [map].
      rewrite H1, H2, <- !app_assoc. cbn [app].
      split; [ reflexivity | ]. split; [ reflexivity | ].
      split; [ now rewrite Hh, H3 | ].
      split; [ constructor; [ auto | exact H4 ] | ].
      split.
      { apply Forall_app. split.
        - eapply Forall_impl; [ apply eventsOf_rows | ].
          intros e [He Ht]. split; [ exact He | ].
          exists tx. split; [ now left | ]. split; [ | exact Ht ].
          unfold hasHash. now rewrite Hhash.
        - eapply Forall_impl; [ exact H5 | ].
          intros e (He & tx' & Hin & Hh' & Ht). split; [ exact He | ].
          exists tx'. split; [ now right | auto ]. }
      split; [ | split; [ | constructor; assumption ] ];
        unfold totalGasUsed, totalGasWanted in *; cbn [foldr]; lia.
Qed.


(** ** Event attributes *)

Lemma attribute_assignKey (k k' v : string) (o : list (string * string)) :
  attribute k' (assignKey k v o) = if String.eqb k k' then Some v else attribute k' o.
Proof.
  induction o as [ | [k0 v0] o IH ]; cbn.
  - reflexivity.
  - destruct (String.eqb k0 k) eqn:H0; cbn.
    + apply String.eqb_eq in H0 as ->. now destruct (String.eqb k k').
    + rewrite IH. destruct (String.eqb k0 k') eqn:H1; [ | reflexivity ].
      destruct (String.eqb k k') eqn:H2; [ | reflexivity ].
      apply String.eqb_eq in H1, H2. apply String.eqb_neq in H0. congruence.
Qed.

Lemma assignKey_keys (k v : string) (o : list (string * string)) :
  map fst (assignKey k v o) = if bool_decide (k ∈ map fst o) then map fst o
                              else map fst o ++ [k].
Proof.
  induction o as [ | [k0 v0] o IH ]; cbn.
  - reflexivity.
  - destruct (String.eqb k0 k) eqn:H0; cbn.
    + apply String.eqb_eq in H0 as ->.
      rewrite bool_decide_eq_true_2 by constructor. reflexivity.
    + apply String.eqb_neq in H0. rewrite IH.
      destruct (bool_decide (k ∈ map fst o)) eqn:Hin.
      * apply bool_decide_eq_true in Hin.
        rewrite bool_decide_eq_true_2 by now constructor. reflexivity.
      * apply bool_decide_eq_false in Hin.
        rewrite bool_decide_eq_false_2; [ reflexivity | ].
        intros H. apply elem_of_cons in H as [ -> | H ]; congruence.
Qed.

Lemma assignKey_NoDup (k v : string) (o : list (string * string)) :
  List.NoDup (map fst o) -> List.NoDup (map fst (assignKey k v o)).
Proof.
  intros Hnd. rewrite assignKey_keys.
  destruct (bool_decide (k ∈ map fst o)) eqn:Hin; [ exact Hnd | ].
  apply bool_decide_eq_false in Hin.
  apply NoDup_ListNoDup, NoDup_app. apply NoDup_ListNoDup in Hnd.
  split; [ exact Hnd | ]. split; [ | apply NoDup_singleton ].
  intros x Hx Hk. apply list_elem_of_singleton in Hk as ->. contradiction.
Qed.

Lemma attributes_fold (k : string) (attrs acc : list (string * string)) :
  k <> "__proto__" ->
  attribute k (fold_left (fun acc attr =>
                            if String.eqb (fst attr) "__proto__" then acc
                            else assignKey (fst attr) (snd attr) acc) attrs acc)
  = fold_left (fun found attr => if String.eqb (fst attr) k then Some (snd attr) else found)
              attrs (attribute k acc).
Proof.
  intros Hk. revert acc. induction attrs as [ | [k0 v0] attrs IH ]; intros acc; cbn.
  - reflexivity.
  - rewrite IH. f_equal.
    destruct (String.eqb k0 "__proto__") eqn:Hp.
    + apply String.eqb_eq in Hp as ->.
      destruct (String.eqb "__proto__" k) eqn:Hk'; [ | reflexivity ].
      apply String.eqb_eq in Hk'. congruence.
    + apply attribute_assignKey.
Qed.

Lemma attributes_fold_NoDup (attrs acc : list (string * string)) :
  List.NoDup (map fst acc) ->
  List.NoDup (map fst (fold_left (fun acc attr =>
                                    if String.eqb (fst attr) "__proto__" then acc
                                    else assignKey (fst attr) (snd attr) acc) attrs acc)).
Proof.
  revert acc. induction attrs as [ | [k0 v0] attrs IH ]; intros acc Hnd; cbn.
  - exact Hnd.
  - apply IH. destruct (String.eqb k0 "__proto__"); [ exact Hnd | ].
    now apply assignKey_NoDup.
Qed.

(** The Event rows of a transaction: one per event of the response, in
    order, under the hash of the transaction and the height of the block.
    The attribute object of a row has each key once; where the event carries
    a key several times, the value kept is that of its last occurrence. *)
Theorem event_attributes_last_wins (tx : TxResponse) (height : Z) :
  Forall2 (fun event row =>
             e_txHash row = Some (txhash tx) /\
             e_blockHeight row = height /\
             e_type row = ev_type event /\
             List.NoDup (map fst (e_attributes row)) /\
             forall k, k <> "__proto__" ->
                       attribute k (e_attributes row) = lastValue k (ev_attributes event))
          (default [] (events tx)) (eventsOf tx height).
Proof.
  unfold eventsOf. apply Forall2_fmap_r, Forall_Forall2_diag, Forall_forall.
  intros event _. cbn.
  split; [ reflexivity | ]. split; [ reflexivity | ]. split; [ reflexivity | ].
  split.
  - apply attributes_fold_NoDup. constructor.
  - intros k Hk. now rewrite attributes_fold.
Qed.

(** ** The outcomes of [processBlock] *)

Lemma processEmptyBlock_run (height : Z) (s : State) :
  processEmptyBlock w height s =
  match getBlockByHeight w (clock s) height with
  | Throw e => (Throw e, withTick s)
  | Ok info =>
      if storeFails w (S (clock s)) then (Throw StoreError, withTick (withTick s))
      else if storeFails w (S (S (clock s)))
      then (Throw StoreError,
            withStore (upsertEmptyBlock height info (store s))
                      (withTick (withTick (withTick s))))
      else (Ok tt,
            withEmitted (BlockNew height (block_id_hash info) 0)
              (withStore (upsertIndexerState lastIndexedHeightKey (toString height)
                            (upsertEmptyBlock height info (store s)))
                         (withTick (withTick (withTick s)))))
  end.
Proof.
  unfold processEmptyBlock, setLastIndexedHeight.
  unfold bind at 1. rewrite lcd_run.
  destruct (getBlockByHeight w (clock s) height) as [ info | e ]; [ | reflexivity ].
  unfold bind at 1. rewrite dbWrite_run. cbn [clock withTick].
  destruct (storeFails w (S (clock s))); [ reflexivity | ].
  unfold bind at 1. rewrite dbWrite_run. cbn [clock withTick withStore].
  destruct (storeFails w (S (S (clock s)))); reflexivity.
Qed.

Lemma processBlock_fetched (height : Z) (s : State) (info : Block) :
  getBlockByHeight w (clock s) height = Ok info ->
  processBlock w height s =
  match validateLinkage w height info (withTick s) with
  | (Throw e, s1) => (Throw e, s1)
  | (Ok true, s1) => (Ok tt, s1)
  | (Ok false, s1) =>
      persistBlock w height info
        (fetchedTxs (getTxsByHeight w (clock s1) height)) (withTick s1)
  end.
Proof.
  intros Hfetch. unfold processBlock, tryCatch, processBlockMain.
  unfold bind at 1. rewrite lcd_run, Hfetch.
  unfold bind at 1.
  destruct (validateLinkage w height info (withTick s)) as [[ [ | ] | e ] s1] eqn:Hv.
  - reflexivity.
  - unfold bind at 1. rewrite fetchTxs_run. fold (fetchedTxs (getTxsByHeight w (clock s1) height)).
    destruct (persistBlock w height info _ (withTick s1)) as [[ [] | e ] s2] eqn:Hp;
      [ reflexivity | ].
    apply persistBlock_throw in Hp as [_ [ -> | -> ]]; reflexivity.
  - apply validateLinkage_throw in Hv as [-> _]. reflexivity.
Qed.

Lemma processBlock_unfetched (height : Z) (s : State) (e : Error) :
  getBlockByHeight w (clock s) height = Throw e ->
  processBlock w height s =
  match e with
  | HttpError status =>
      if Z.eqb status 400 then processEmptyBlock w height (withTick s)
      else (Throw e, withTick s)
  | _ => (Throw e, withTick s)
  end.
Proof.
  intros Hfetch. unfold processBlock, tryCatch, processBlockMain.
  unfold bind at 1. rewrite lcd_run, Hfetch.
  destruct e; try reflexivity.
  now destruct (Z.eqb status 400).
Qed.

Lemma header_failure_outcomes_aux (height : Z) (s s' : State) (e : Error)
  (r : Result unit) :
  getBlockByHeight w (clock s) height = Throw e ->
  processBlock w height s = (r, s') ->
  (forall e', r = Throw e' -> emitted s' = emitted s) /\
  (r = Ok tt ->
   exists info row,
     getBlockByHeight w (S (clock s)) height = Ok info /\
     blocks (store s') !! height = Some row /\
     b_hash row = block_id_hash info /\ b_txCount row = 0 /\
     indexerState (store s') !! lastIndexedHeightKey = Some (toString height) /\
     emitted s' = emitted s ++ [BlockNew height (block_id_hash info) 0]).
Proof.
  intros Hfetch. rewrite (processBlock_unfetched height s e Hfetch).
  assert (Hrethrow : (Throw e, withTick s) = (r, s') ->
            (forall e', r = Throw e' -> emitted s' = emitted s) /\
            (r = Ok tt ->
             exists info row,
               getBlockByHeight w (S (clock s)) height = Ok info /\
               blocks (store s') !! height = Some row /\
               b_hash row = block_id_hash info /\ b_txCount row = 0 /\
               indexerState (store s') !! lastIndexedHeightKey = Some (toString height) /\
               emitted s' = emitted s ++ [BlockNew height (block_id_hash info) 0])).
  { intros [= <- <-]. cbn. split; [ reflexivity | discriminate ]. }
  destruct e as [ status | | | ]; try exact Hrethrow.
  destruct (Z.eqb status 400) eqn:Hstatus; [ | exact Hrethrow ].
  clear Hrethrow.
  rewrite processEmptyBlock_run. cbn [clock withTick].
  destruct (getBlockByHeight w (S (clock s)) height) as [ info | e ] eqn:Hagain.
  2: { intros [= <- <-]. cbn. split; [ reflexivity | discriminate ]. }
  destruct (storeFails w (S (S (clock s)))).
  { intros [= <- <-]. cbn. split; [ reflexivity | discriminate ]. }
  destruct (storeFails w (S (S (S (clock s))))).
  { intros [= <- <-]. cbn. split; [ reflexivity | discriminate ]. }
  intros [= <- <-]. cbn. split; [ discriminate | ]. intros _.
  exists info. eexists. split; [ reflexivity | ].
  rewrite !lookup_insert_eq. repeat split; reflexivity.
Qed.

(** When the request for the header fails: with any error but an HTTP 400
    [processBlock] throws that error and writes nothing.  With an HTTP 400
    it asks for the header again and stores the block as an empty block: no
    Transaction, Event or Account row is written or changed, whatever
    transactions the block holds, and when it returns the Block row carries
    a transaction count of 0 and the Checkpoint is at the height. *)
Theorem header_failure_outcomes (height : Z) (s s' : State) (e : Error)
  (r : Result unit) :
  getBlockByHeight w (clock s) height = Throw e ->
  processBlock w height s = (r, s') ->
  transactions (store s') = transactions (store s) /\
  eventRows (store s') = eventRows (store s) /\
  accounts (store s') = accounts (store s) /\
  domain (store s') = domain (store s) /\
  stopRequested s' = stopRequested s /\
  (e <> HttpError 400 -> r = Throw e /\ store s' = store s /\ emitted s' = emitted s) /\
  (r = Ok tt ->
   e = HttpError 400 /\
   exists info row,
     getBlockByHeight w (S (clock s)) height = Ok info /\
     blocks (store s') !! height = Some row /\
     b_hash row = block_id_hash info /\ b_txCount row = 0 /\
     indexerState (store s') !! lastIndexedHeightKey = Some (toString height) /\
     emitted s' = emitted s ++ [BlockNew height (block_id_hash info) 0]).
Proof.
  intros Hfetch. rewrite (processBlock_unfetched height s e Hfetch).
  assert (Hrethrow : (Throw e, withTick s) = (r, s') ->
            transactions (store s') = transactions (store s) /\
            eventRows (store s') = eventRows (store s) /\
            accounts (store s') = accounts (store s) /\
            domain (store s') = domain (store s) /\
            stopRequested s' = stopRequested s /\
            (e <> HttpError 400 ->
             r = Throw e /\ store s' = store s /\ emitted s' = emitted s) /\
            (r = Ok tt ->
             e = HttpError 400 /\
             exists info row,
               getBlockByHeight w (S (clock s)) height = Ok info /\
               blocks (store s') !! height = Some row /\
               b_hash row = block_id_hash info /\ b_txCount row = 0 /\
               indexerState (store s') !! lastIndexedHeightKey = Some (toString height) /\
               emitted s' = emitted s ++ [BlockNew height (block_id_hash info) 0])).
  { intros [= <- <-]. cbn. repeat split; discriminate. }
  destruct e as [ status | | | ]; try exact Hrethrow.
  destruct (Z.eqb status 400) eqn:Hstatus; [ | exact Hrethrow ].
  apply Z.eqb_eq in Hstatus as ->. clear Hrethrow.
  rewrite processEmptyBlock_run. cbn [clock withTick].
  destruct (getBlockByHeight w (S (clock s)) height) as [ info | e ] eqn:Hagain.
  2: { intros [= <- <-]. cbn. repeat split; try discriminate; congruence. }
  destruct (storeFails w (S (S (clock s)))).
  { intros [= <- <-]. cbn. repeat split; try discriminate; congruence. }
  destruct (storeFails w (S (S (S (clock s))))).
  { intros [= <- <-]. cbn. repeat split; try discriminate; congruence. }
  intros [= <- <-]. cbn.
  repeat split; try congruence.
  exists info. eexists. split; [ reflexivity | ].
  rewrite !lookup_insert_eq. repeat split; reflexivity.
Qed.

Lemma persistBlock_nil (height : Z) (info : Block) (s : State) :
  (forall t, storeFails w t = false) ->
  persistBlock w height info [] s =
  (Ok tt,
   withEmitted (BlockNew height (block_id_hash info) 0)
     (withStore (upsertIndexerState lastIndexedHeightKey (toString height)
                   (upsertBlock height (blockRowOf info [] noneCollected) (store s)))
                (withTick (withTick (withTick s))))).
Proof.
  intros Hstore. unfold persistBlock. cbn [collect]. unfold bind at 1, liftResult at 1.
  unfold bind at 1. unfold commitBlock, transaction.
  unfold updateAccounts, collectAddresses. cbn [fold_left c_transactions c_events noneCollected forEach].
  unfold bind at 1. rewrite txWrite_run, aborted_reliable by exact Hstore.
  unfold bind at 1, ret at 1. unfold bind at 1, ret at 1. unfold bind at 1, ret at 1.
  rewrite txWrite_run, aborted_reliable by exact Hstore.
  cbn [clock withTick withStore]. rewrite aborted_reliable by exact Hstore.
  reflexivity.
Qed.

Lemma validateLinkage_linked (height : Z) (info : Block) (s : State) :
  Linked height info (store s) ->
  storeFails w (clock s) = false ->
  exists s1, validateLinkage w height info s = (Ok false, s1) /\
             store s1 = store s /\ emitted s1 = emitted s /\
             stopRequested s1 = stopRequested s.
Proof.
  intros Hlinked Hstore. rewrite validateLinkage_run.
  destruct (height >? 1); [ | now eexists ].
  destruct (expectedPrevHashOf info) as [ expected | ] eqn:He; [ | now eexists ].
  rewrite Hstore.
  destruct (blocks (store s) !! (height - 1)) as [ prev | ] eqn:Hprev; [ | now eexists ].
  rewrite (Hlinked expected prev He Hprev), String.eqb_refl. now eexists.
Qed.

(** A failed query for the transactions of a block is taken for a block
    without transactions: with the header fetched, the linkage in order and
    the store taking every operation, [processBlock] returns, stores the
    Block row with a transaction count of 0 and no gas, writes no
    Transaction, Event or Account row, and moves the Checkpoint to the
    height. *)
Theorem failed_transaction_query_stores_empty_block (height : Z) (s : State)
  (info : Block) :
  getBlockByHeight w (clock s) height = Ok info ->
  Linked height info (store s) ->
  (forall t, storeFails w t = false) ->
  (forall t, exists e, getTxsByHeight w t height = Throw e) ->
  let run := processBlock w height s in
  run.1 = Ok tt /\
  blocks (store run.2) !! height = Some (blockRowOf info [] noneCollected) /\
  b_txCount (blockRowOf info [] noneCollected) = 0 /\
  transactions (store run.2) = transactions (store s) /\
  eventRows (store run.2) = eventRows (store s) /\
  accounts (store run.2) = accounts (store s) /\
  indexerState (store run.2) !! lastIndexedHeightKey = Some (toString height) /\
  emitted run.2 = emitted s ++ [BlockNew height (block_id_hash info) 0].
Proof.
  intros Hfetch Hlinked Hstore Htxs. cbn zeta.
  rewrite (processBlock_fetched height s info Hfetch).
  destruct (validateLinkage_linked height info (withTick s) Hlinked (Hstore _))
    as (s1 & -> & Hs1 & He1 & _).
  destruct (Htxs (clock s1)) as (e & ->). cbn [fetchedTxs].
  rewrite persistBlock_nil by exact Hstore. cbn.
  rewrite Hs1, He1, !lookup_insert_eq. repeat split; reflexivity.
Qed.

(** ** A block that cannot be processed *)

Section Unprocessable.
Context (height : Z).
Context (header_known : forall t, exists info, getBlockByHeight w t height = Ok info).
Context (unprocessable :
  forall t timestamp, exists e,
    collect (fetchedTxs (getTxsByHeight w t height)) height timestamp noneCollected
    = Throw e).

Lemma processBlock_unprocessable (s : State) :
  store (processBlock w height s).2 = store s /\
  ((processBlock w height s).1 = Ok tt -> stopRequested (processBlock w height s).2 = true).
Proof.
  destruct (header_known (clock s)) as (info & Hfetch).
  rewrite (processBlock_fetched height s info Hfetch).
  destruct (validateLinkage w height info (withTick s)) as [[ [ | ] | e ] s1] eqn:Hv.
  - apply validateLinkage_ok in Hv as (Hstore & Hstop & _). cbn. auto.
  - apply validateLinkage_ok in Hv as (Hstore & _).
    destruct (unprocessable (clock s1) (time (header info))) as (e & He).
    unfold persistBlock. unfold bind at 1, liftResult at 1. rewrite He. cbn.
    split; [ exact Hstore | discriminate ].
  - apply validateLinkage_throw in Hv as [_ ->]. cbn. split; [ reflexivity | discriminate ].
Qed.

Lemma batch_unprocessable (n : nat) (endHeight : Z) (s : State) :
  exists obs,
    store (batch w n height endHeight s).2 = store s /\
    observed (batch w n height endHeight s).2 = observed s ++ obs /\
    Forall (fun o => obs_height o = height /\
                     (obs_returned o = false \/ obs_stopRequested o = true)) obs.
Proof.
  destruct n as [ | n ].
  - exists []. cbn. now rewrite app_nil_r.
  - rewrite batch_unfold.
    destruct ((height <=? endHeight) && negb (stopRequested s)).
    2: { exists []. cbn. now rewrite app_nil_r. }
    cbn zeta.
    destruct (processBlock_unprocessable s) as [Hstore Hstop].
    pose proof (processBlock_observed height s) as Hobs.
    destruct (processBlock w height s) as [[ [] | e ] s1]; cbn [fst snd] in *.
    + rewrite batch_stopped by (cbn; auto).
      eexists [_]. cbn. rewrite Hobs. split; [ exact Hstore | ].
      split; [ reflexivity | ].
      constructor; [ split; [ reflexivity | right; cbn; auto ] | constructor ].
    + eexists [_]. cbn. rewrite Hobs. split; [ exact Hstore | ].
      split; [ reflexivity | ].
      constructor; [ split; [ reflexivity | now left ] | constructor ].
Qed.

(** A block one of whose transactions cannot be processed is never skipped
    and never stored in part.  As long as the ledger answers for that
    height with such transactions, the main loop, started with the
    Checkpoint right below it, leaves the store as it was however long it
    runs, and every pass it makes is a pass over that same height that
    failed or halted. *)
Theorem unprocessable_block_stops_progress (config : Config) (fuel : nat) (s : State) :
  readLastIndexedHeight config (store s) = Some (height - 1) ->
  exists obs,
    store (syncLoop config w fuel s).2 = store s /\
    observed (syncLoop config w fuel s).2 = observed s ++ obs /\
    Forall (fun o => obs_height o = height /\
                     (obs_returned o = false \/ obs_stopRequested o = true)) obs.
Proof.
  revert s. induction fuel as [ | fuel IH ]; intros s Hcheckpoint.
  - exists []. cbn. now rewrite app_nil_r.
  - assert (Hnil : forall (r : Result LoopEnd) (s2 : State),
              store s2 = store s -> observed s2 = observed s ->
              exists obs,
                store (r, s2).2 = store s /\
                observed (r, s2).2 = observed s ++ obs /\
                Forall (fun o => obs_height o = height /\
                                 (obs_returned o = false \/ obs_stopRequested o = true))
                       obs).
    { intros r s2 H1 H2. exists []. cbn. now rewrite app_nil_r. }
    assert (Hsame : forall s2 : State,
              store s2 = store s -> observed s2 = observed s ->
              exists obs,
                store (syncLoop config w fuel s2).2 = store s /\
                observed (syncLoop config w fuel s2).2 = observed s ++ obs /\
                Forall (fun o => obs_height o = height /\
                                 (obs_returned o = false \/ obs_stopRequested o = true))
                       obs).
    { intros s2 H1 H2. destruct (IH s2) as (obs & Hs & Ho & Hall).
      - now rewrite H1.
      - exists obs. now rewrite Hs, Ho, H1, H2. }
    rewrite syncLoop_step.
    destruct (stopRequested s); [ now apply Hnil | ].
    destruct (storeFails w (clock s)); [ now apply Hnil | ].
    cbn zeta.
    destruct (getLatestBlockHeight w (S (clock s))) as [ latestHeight | e ];
      [ | now apply Hnil ].
    rewrite Hcheckpoint.
    destruct latestHeight as [ latest | ]; [ | now apply Hsame ].
    destruct (height - 1 >=? latest); [ now apply Hsame | ].
    replace (height - 1 + 1) with height by lia.
    match goal with
    | |- context [batch w ?n height ?b ?st] =>
        destruct (batch_unprocessable n b st) as (obs1 & Hs1 & Ho1 & Hall1);
        destruct (IH (batch w n height b st).2) as (obs2 & Hs2 & Ho2 & Hall2)
    end.
    + now rewrite Hs1.
    + exists (obs1 ++ obs2). rewrite Hs2, Hs1, Ho2, Ho1.
      cbn [store observed withTick]. rewrite <- app_assoc.
      split; [ reflexivity | ]. split; [ reflexivity | ].
      apply Forall_app. auto.
Qed.

End Unprocessable.

(** ** What is emitted, and when *)

Lemma emitsOnly_refl (kind : Emitted -> bool) (s : State) : EmitsOnly kind s s.
Proof. exists []. now rewrite app_nil_r. Qed.

Lemma emitsOnly_trans (kind : Emitted -> bool) (a b c : State) :
  EmitsOnly kind a b -> EmitsOnly kind b c -> EmitsOnly kind a c.
Proof.
  intros (l1 & H1 & F1) (l2 & H2 & F2). exists (l1 ++ l2).
  rewrite H2, H1, <- app_assoc. split; [ reflexivity | ]. apply Forall_app. auto.
Qed.

Lemma emitsOnly_same (kind : Emitted -> bool) (s s' : State) :
  emitted s' = emitted s -> EmitsOnly kind s s'.
Proof. intros H. exists []. now rewrite app_nil_r. Qed.

Lemma journalsOnly_refl (txData : ProcessedTransaction) (height : Z) (s : State) :
  JournalsOnly txData height s s.
Proof. exists []. now rewrite app_nil_r. Qed.

Lemma journalsOnly_trans (txData : ProcessedTransaction) (height : Z) (a b c : State) :
  JournalsOnly txData height a b -> JournalsOnly txData height b c ->
  JournalsOnly txData height a c.
Proof.
  intros (l1 & H1 & F1) (l2 & H2 & F2). exists (l1 ++ l2).
  rewrite H2, H1, <- app_assoc. split; [ reflexivity | ]. apply Forall_app. auto.
Qed.

Lemma journalsOnly_same (txData : ProcessedTransaction) (height : Z) (s s' : State) :
  domain (store s') = domain (store s) -> JournalsOnly txData height s s'.
Proof. intros H. exists []. now rewrite app_nil_r. Qed.

(** The body of the loop of [processCustomMessages] for one message. *)
Lemma customMessage_run (txData : ProcessedTransaction) (height : Z)
  (msg : StoredMessage) (s : State) :
  exists s',
    tryCatch
      (match domainTable (sm_type msg) with
       | Some table =>
           dbWrite w (writeDomain {| d_table := table; d_txHash := tx_hash txData;
                                     d_blockHeight := height;
                                     d_data := sm_data msg |}) ;;
           if String.eqb (sm_type msg) CONFIRM_BTC_DEPOSIT
           then emit (DepositNew (sm_data msg))
           else if String.eqb (sm_type msg) WITHDRAW_BTC_REQUEST
           then emit (WithdrawalNew (sm_data msg))
           else ret tt
       | None => ret tt
       end)
      (fun _ => ret tt) s = (Ok tt, s') /\
    EmitsOnly isCustomEvent s s' /\
    (In msg (tx_messages txData) -> JournalsOnly txData height s s').
Proof.
  unfold tryCatch.
  destruct (domainTable (sm_type msg)) as [ table | ] eqn:Htable.
  2: { cbn. eexists. split; [ reflexivity | ].
       split; [ apply emitsOnly_refl | intros _; apply journalsOnly_refl ]. }
  unfold bind. rewrite dbWrite_run.
  destruct (storeFails w (clock s)).
  { cbn. eexists. split; [ reflexivity | ].
    split; [ now apply emitsOnly_same | intros _; now apply journalsOnly_same ]. }
  assert (Hjournal : forall s2 : State,
            domain (store s2) = domain (store s) ++
              [{| d_table := table; d_txHash := tx_hash txData;
                  d_blockHeight := height; d_data := sm_data msg |}] ->
            In msg (tx_messages txData) -> JournalsOnly txData height s s2).
  { intros s2 H2 Hin. eexists [_]. split; [ exact H2 | ].
    constructor; [ | constructor ]. cbn.
    split; [ reflexivity | ]. split; [ reflexivity | ].
    exists msg. auto. }
  destruct (String.eqb (sm_type msg) CONFIRM_BTC_DEPOSIT);
    [ | destruct (String.eqb (sm_type msg) WITHDRAW_BTC_REQUEST) ];
    cbn; eexists; (split; [ reflexivity | ]);
    (split; [ | now apply Hjournal ]).
  - eexists [_]. cbn. split; [ reflexivity | ]. now repeat constructor.
  - eexists [_]. cbn. split; [ reflexivity | ]. now repeat constructor.
  - now apply emitsOnly_same.
Qed.

Lemma processCustomMessages_run (txData : ProcessedTransaction) (height : Z) (s : State) :
  exists s',
    processCustomMessages w txData height s = (Ok tt, s') /\
    EmitsOnly isCustomEvent s s' /\ JournalsOnly txData height s s'.
Proof.
  unfold processCustomMessages.
  assert (Hloop : forall msgs s0,
            (forall msg, In msg msgs -> In msg (tx_messages txData)) ->
            exists s',
              forEach msgs (fun msg =>
                tryCatch
                  (match domainTable (sm_type msg) with
                   | Some table =>
                       dbWrite w (writeDomain {| d_table := table; d_txHash := tx_hash txData;
                                                 d_blockHeight := height;
                                                 d_data := sm_data msg |}) ;;
                       if String.eqb (sm_type msg) CONFIRM_BTC_DEPOSIT
                       then emit (DepositNew (sm_data msg))
                       else if String.eqb (sm_type msg) WITHDRAW_BTC_REQUEST
                       then emit (WithdrawalNew (sm_data msg))
                       else ret tt
                   | None => ret tt
                   end)
                  (fun _ => ret tt)) s0 = (Ok tt, s') /\
              EmitsOnly isCustomEvent s0 s' /\ JournalsOnly txData height s0 s').
  { induction msgs as [ | msg msgs IH ]; intros s0 Hsub.
    - eexists. split; [ reflexivity | ].
      split; [ apply emitsOnly_refl | apply journalsOnly_refl ].
    - cbn [forEach]. unfold bind at 1.
      destruct (customMessage_run txData height msg s0) as (s1 & -> & He1 & Hj1).
      destruct (IH s1) as (s2 & Hrun & He2 & Hj2).
      { intros m Hm. apply Hsub. now right. }
      exists s2. split; [ exact Hrun | ].
      split; [ eapply emitsOnly_trans; eauto | ].
      eapply journalsOnly_trans; [ | exact Hj2 ]. apply Hj1, Hsub. now left. }
  apply Hloop. auto.
Qed.

Lemma custom_messages_isolated_aux (txData : ProcessedTransaction) (height : Z)
  (s : State) :
  exists s',
    processCustomMessages w txData height s = (Ok tt, s') /\
    blocks (store s') = blocks (store s) /\
    transactions (store s') = transactions (store s) /\
    indexerState (store s') = indexerState (store s) /\
    stopRequested s' = stopRequested s /\
    EmitsOnly isCustomEvent s s'.
Proof.
  destruct (processCustomMessages_run txData height s) as (s' & Hrun & He & Hj).
  exists s'. split; [ exact Hrun | ].
  pose proof (keepsStore_processCustomMessages w blocks txData height
                (fun _ _ => eq_refl) s _ _ Hrun) as H1.
  pose proof (keepsStore_processCustomMessages w transactions txData height
                (fun _ _ => eq_refl) s _ _ Hrun) as H2.
  pose proof (keepsStore_processCustomMessages w indexerState txData height
                (fun _ _ => eq_refl) s _ _ Hrun) as H5.
  pose proof (keeps_processCustomMessages w stopRequested (fun _ _ => eq_refl)
                (fun _ => eq_refl) (fun _ _ => eq_refl) txData height s _ _ Hrun) as H6.
  unfold Keeps in *. auto 10.
Qed.

(** [processCustomMessages] returns whatever the store does.  It writes to
    the side tables only, and there only for messages of the transaction
    whose type has a side table; the Block, Transaction, Event and Account
    rows and the Checkpoint are as they were, and the only events it emits
    are [deposit:new] and [withdrawal:new]. *)
Theorem custom_messages_isolated (txData : ProcessedTransaction) (height : Z)
  (s : State) :
  exists s',
    processCustomMessages w txData height s = (Ok tt, s') /\
    blocks (store s') = blocks (store s) /\
    transactions (store s') = transactions (store s) /\
    eventRows (store s') = eventRows (store s) /\
    accounts (store s') = accounts (store s) /\
    indexerState (store s') = indexerState (store s) /\
    stopRequested s' = stopRequested s /\
    EmitsOnly isCustomEvent s s' /\
    JournalsOnly txData height s s'.
Proof.
  destruct (processCustomMessages_run txData height s) as (s' & Hrun & He & Hj).
  exists s'. split; [ exact Hrun | ].
  pose proof (keepsStore_processCustomMessages w blocks txData height
                (fun _ _ => eq_refl) s _ _ Hrun) as H1.
  pose proof (keepsStore_processCustomMessages w transactions txData height
                (fun _ _ => eq_refl) s _ _ Hrun) as H2.
  pose proof (keepsStore_processCustomMessages w eventRows txData height
                (fun _ _ => eq_refl) s _ _ Hrun) as H3.
  pose proof (keepsStore_processCustomMessages w accounts txData height
                (fun _ _ => eq_refl) s _ _ Hrun) as H4.
  pose proof (keepsStore_processCustomMessages w indexerState txData height
                (fun _ _ => eq_refl) s _ _ Hrun) as H5.
  pose proof (keeps_processCustomMessages w stopRequested (fun _ _ => eq_refl)
                (fun _ => eq_refl) (fun _ _ => eq_refl) txData height s _ _ Hrun) as H6.
  unfold Keeps in *. auto 10.
Qed.

Lemma forEach_emit {A} (f : A -> Emitted) (l : list A) (s : State) :
  exists s',
    forEach l (fun x => emit (f x)) s = (Ok tt, s') /\
    emitted s' = emitted s ++ map f l /\ store s' = store s /\
    stopRequested s' = stopRequested s.
Proof.
  revert s. induction l as [ | x l IH ]; intros s.
  - eexists. split; [ reflexivity | ]. cbn. now rewrite app_nil_r.
  - cbn [forEach]. unfold bind at 1. unfold emit at 1, modify at 1.
    destruct (IH (withEmitted (f x) s)) as (s' & -> & He & Hs & Hstop).
    exists s'. split; [ reflexivity | ]. cbn in He. rewrite He, <- app_assoc. auto.
Qed.

Lemma customLoop_run (height : Z) (txs : list ProcessedTransaction) (s : State) :
  exists s',
    forEach txs (fun txData =>
      tryCatch (processCustomMessages w txData height) (fun _ => ret tt)) s
    = (Ok tt, s') /\
    EmitsOnly isCustomEvent s s' /\
    blocks (store s') = blocks (store s) /\
    transactions (store s') = transactions (store s) /\
    indexerState (store s') = indexerState (store s) /\
    stopRequested s' = stopRequested s.
Proof.
  revert s. induction txs as [ | txData txs IH ]; intros s.
  - eexists. split; [ reflexivity | ]. split; [ apply emitsOnly_refl | auto ].
  - cbn [forEach]. unfold bind at 1. unfold tryCatch at 1.
    destruct (custom_messages_isolated_aux txData height s)
      as (s1 & -> & Hb1 & Ht1 & Hi1 & Hs1 & He1).
    destruct (IH s1) as (s2 & -> & He2 & Hb2 & Ht2 & Hi2 & Hs2).
    exists s2. split; [ reflexivity | ].
    split; [ eapply emitsOnly_trans; eauto | ].
    repeat split; congruence.
Qed.

Lemma persistBlock_emitted (height : Z) (info : Block) (txResponses : list TxResponse)
  (s s' : State) (r : Result unit) :
  persistBlock w height info txResponses s = (r, s') ->
  match r with
  | Throw _ => emitted s' = emitted s
  | Ok _ =>
      exists collected customs,
        collect txResponses height (time (header info)) noneCollected = Ok collected /\
        Forall (fun e => isCustomEvent e = true) customs /\
        emitted s' = emitted s ++ customs ++
                     BlockNew height (block_id_hash info) (Z.of_nat (length txResponses))
                     :: map TxNew (c_transactions collected)
  end.
Proof.
  unfold persistBlock. unfold bind at 1, liftResult at 1.
  destruct (collect txResponses height (time (header info)) noneCollected)
    as [ collected | e ]; [ | now intros [= <- <-] ].
  unfold bind at 1.
  destruct (commitBlock w height _ _ _ s) as [[ [] | e ] s1] eqn:Hcommit.
  2: { intros [= <- <-].
       exact (keeps_commitBlock w emitted (fun _ _ => eq_refl) (fun _ => eq_refl)
                _ _ _ _ _ _ _ Hcommit). }
  pose proof (keeps_commitBlock w emitted (fun _ _ => eq_refl) (fun _ => eq_refl)
                _ _ _ _ _ _ _ Hcommit) as He1. unfold Keeps in He1.
  unfold bind at 1.
  destruct (customLoop_run height (c_transactions collected) s1)
    as (s2 & -> & (customs & He2 & Hcustoms) & _).
  unfold bind at 1, emit at 1, modify at 1.
  destruct (forEach_emit TxNew (c_transactions collected)
              (withEmitted (BlockNew height (block_id_hash info)
                                     (Z.of_nat (length txResponses))) s2))
    as (s3 & Hrun & He3 & _).
  cbn [blockRowOf b_hash b_txCount]. rewrite Hrun. intros [= <- <-].
  exists collected, customs. split; [ reflexivity | ]. split; [ exact Hcustoms | ].
  rewrite He3. cbn [emitted withEmitted]. rewrite He2, He1, <- !app_assoc. reflexivity.
Qed.

Lemma validateLinkage_clock (height : Z) (info : Block) (s s1 : State)
  (r : Result bool) :
  validateLinkage w height info s = (r, s1) ->
  clock s1 = clock s \/ clock s1 = S (clock s).
Proof.
  rewrite validateLinkage_run.
  repeat match goal with
         | |- context [if ?c then _ else _] => destruct c
         | |- context [match ?x with Some _ => _ | None => _ end] => destruct x
         end; intros [= <- <-]; cbn; auto.
Qed.

(** What [processBlock] emits.  When it throws it has emitted nothing.  When
    it returns it has either halted, with nothing emitted and nothing
    written, or it has emitted, after the events of the side tables, one
    [block:new] for the height, under the hash and the transaction count of
    the stored Block row, followed by one [tx:new] per transaction
    processed, in order: the result of [processTransaction] on each response
    that carries a hash, of the responses fetched for the height, which are
    none on the empty-block path.  The Checkpoint is then at the height. *)
Theorem events_only_after_commit (height : Z) (s s' : State) (r : Result unit) :
  processBlock w height s = (r, s') ->
  match r with
  | Throw _ => emitted s' = emitted s
  | Ok _ =>
      (emitted s' = emitted s /\ store s' = store s /\ stopRequested s' = true)
      \/
      exists customs hash txCount txs row,
        emitted s' = emitted s ++ customs ++ BlockNew height hash txCount :: map TxNew txs /\
        Forall (fun e => isCustomEvent e = true) customs /\
        blocks (store s') !! height = Some row /\
        b_hash row = hash /\ b_txCount row = txCount /\
        indexerState (store s') !! lastIndexedHeightKey = Some (toString height) /\
        exists responses,
          (responses = [] \/
           exists t, (clock s < t <= clock s + 2)%nat /\
                     responses = fetchedTxs (getTxsByHeight w t height)) /\
          txCount = Z.of_nat (length responses) /\
          Forall2 (fun tx x => processTransaction tx height (b_timestamp row) = Ok x)
                  (List.filter hasHash responses) txs
  end.
Proof.
  destruct (getBlockByHeight w (clock s) height) as [ info | e ] eqn:Hfetch.
  - rewrite (processBlock_fetched height s info Hfetch).
    destruct (validateLinkage w height info (withTick s)) as [[ [ | ] | e ] s1] eqn:Hv.
    + intros [= <- <-].
      apply validateLinkage_ok in Hv as (Hstore & Hstop & Hemitted & _). left. auto.
    + pose proof (keeps_validateLinkage w emitted (fun _ => eq_refl)
                    (fun _ _ => eq_refl) height info _ _ _ Hv) as He1.
      unfold Keeps in He1. cbn in He1.
      pose proof (validateLinkage_clock _ _ _ _ _ Hv) as Hclock. cbn in Hclock.
      intros Hrun. pose proof (persistBlock_emitted _ _ _ _ _ _ Hrun) as Hemit.
      destruct r as [ [] | e ].
      * right. destruct Hemit as (collected & customs & Hc & Hcustoms & He).
        apply persistBlock_ok in Hrun as (collected' & Hc' & Hblocks & _ & _ & Hstate).
        assert (collected' = collected) as -> by congruence.
        destruct (collect_acc _ _ _ _ _ Hc) as (txs & _ & Htxs & _ & _ & _ & _ & _ & _ & Hall).
        cbn in Htxs.
        exists customs, (block_id_hash info), (Z.of_nat (length
                 (fetchedTxs (getTxsByHeight w (clock s1) height)))),
               (c_transactions collected),
               (blockRowOf info (fetchedTxs (getTxsByHeight w (clock s1) height))
                           collected).
        rewrite He. cbn [emitted withTick]. rewrite He1.
        split; [ reflexivity | ]. split; [ exact Hcustoms | ].
        rewrite Hblocks, Hstate, !lookup_insert_eq.
        split; [ reflexivity | ]. split; [ reflexivity | ].
        split; [ reflexivity | ]. split; [ reflexivity | ].
        exists (fetchedTxs (getTxsByHeight w (clock s1) height)).
        split; [ right; exists (clock s1); split; [ lia | reflexivity ] | ].
        split; [ reflexivity | ].
        rewrite Htxs. exact Hall.
      * rewrite Hemit. exact He1.
    + apply validateLinkage_throw in Hv as [_ ->]. now intros [= <- <-].
  - intros Hrun.
    destruct (header_failure_outcomes_aux height s s' e r Hfetch Hrun)
      as (Hthrow & Hok).
    destruct r as [ [] | e' ]; [ | exact (Hthrow e' eq_refl) ].
    right. destruct (Hok eq_refl) as (info & row & H1 & H2 & H3 & H4 & H5 & H6).
    exists [], (block_id_hash info), 0, [], row. cbn [app map].
    split; [ exact H6 | ]. split; [ constructor | ]. split; [ exact H2 | ].
    split; [ exact H3 | ]. split; [ exact H4 | ]. split; [ exact H5 | ].
    exists []. split; [ now left | ]. split; [ reflexivity | constructor ].
Qed.

(** ** Account rows *)

Lemma accountStep_returns (tx : TxClient) (blockTime address : string) (s : State) :
  exists s', accountStep w tx blockTime address s = (Ok tt, s').
Proof.
  unfold accountStep. destruct (skipAddress address); [ now eexists | ].
  unfold tryCatch. rewrite txWrite_run.
  destruct (aborted w tx (clock s)); now eexists.
Qed.

Lemma accountStep_once (tx : TxClient) (blockTime address : string) (s : State) :
  UpsertedAtMostOnce blockTime
    (accounts (store s) !! address)
    (accounts (store (accountStep w tx blockTime address s).2) !! address).
Proof.
  unfold accountStep. destruct (skipAddress address); [ now left | ].
  unfold tryCatch. rewrite txWrite_run.
  destruct (aborted w tx (clock s)); [ now left | ].
  right. cbn [snd store withStore]. apply upsertAccount_lookup.
Qed.

Lemma accounts_at_most_once (tx : TxClient) (blockTime address : string) (l : list string)
  (s : State) :
  List.NoDup l ->
  UpsertedAtMostOnce blockTime
    (accounts (store s) !! address)
    (accounts (store (forEach l (accountStep w tx blockTime) s).2) !! address).
Proof.
  intros Hnd. revert s. induction Hnd as [ | x l Hx Hnd IH ]; intros s.
  - now left.
  - cbn [forEach]. unfold bind.
    pose proof (accountStep_once tx blockTime x s) as Hstep.
    destruct (accountStep_returns tx blockTime x s) as (s1 & Hrun).
    rewrite Hrun in *. cbn [snd] in Hstep.
    destruct (String.eqb x address) eqn:Hxa.
    + apply String.eqb_eq in Hxa as ->.
      destruct (forEach l (accountStep w tx blockTime) s1) as [r2 s2] eqn:Hrest.
      assert (Hsame : sameAccount address s1 s2).
      { eapply (accounts_untouched w tx address blockTime l); [ | exact Hrest ].
        intros y Hy. left. intros ->. contradiction. }
      unfold sameAccount in Hsame. cbn [snd]. now rewrite Hsame.
    + apply String.eqb_neq in Hxa.
      assert (Hsame : sameAccount address s s1).
      { eapply (accountStep_other w tx address x blockTime); [ | exact Hrun ]. now left. }
      unfold sameAccount in Hsame. rewrite <- Hsame. apply IH.
Qed.

(** Within one commit an Account row is upserted at most once, however many
    messages and transactions of the block name the address: after
    [commitBlock], whatever the store does, the row of an address is as it
    was, or it is the row after one upsert, with the transaction count one
    higher, the first-seen time kept and the last-seen time set to the time
    of the block. *)
Theorem account_upserted_at_most_once (height : Z) (block : BlockRow)
  (txs : list ProcessedTransaction) (evs : list EventRow) (s : State)
  (address : string) :
  UpsertedAtMostOnce (b_timestamp block)
    (accounts (store s) !! address)
    (accounts (store (commitBlock w height block txs evs s).2) !! address).
Proof.
  destruct (commitBlock w height block txs evs s) as [[ [] | e ] s'] eqn:Hrun.
  2: { cbn [snd]. rewrite (transaction_throw w _ _ _ _ Hrun). now left. }
  unfold commitBlock in Hrun.
  apply transaction_ok_inv in Hrun as (s5 & Hbody & _ & ->).
  apply bind_ok_inv in Hbody as ([] & s1 & H1 & Hbody).
  apply bind_ok_inv in Hbody as ([] & s2 & H2 & Hbody).
  apply bind_ok_inv in Hbody as ([] & s3 & H3 & Hbody).
  apply bind_ok_inv in Hbody as ([] & s4 & H4 & H5).
  pose proof (keepsStore_txWrite w accounts (clock s) (upsertBlock height block)
                (fun _ => eq_refl) _ _ _ H1) as K1.
  assert (K2 : Keeps (fun s => accounts (store s)) s1 s2).
  { eapply preserves_forEach; [ apply keeps_refl | apply keeps_trans | | exact H2 ].
    intros x _. apply (keepsStore_txWrite w accounts). reflexivity. }
  assert (K3 : Keeps (fun s => accounts (store s)) s2 s3).
  { eapply preserves_forEach; [ apply keeps_refl | apply keeps_trans | | exact H3 ].
    intros x _. apply (keepsStore_txWrite w accounts). reflexivity. }
  pose proof (keepsStore_txWrite w accounts (clock s)
                (upsertIndexerState lastIndexedHeightKey (toString height))
                (fun _ => eq_refl) _ _ _ H5) as K5.
  unfold Keeps in *. cbn [snd store withTick]. rewrite K5.
  replace (accounts (store s)) with (accounts (store s3)) by congruence.
  unfold updateAccounts in H4.
  pose proof (accounts_at_most_once (clock s) (b_timestamp block) address
                (collectAddresses txs) s3 (collectAddresses_NoDup txs)) as Honce.
  now rewrite H4 in Honce.
Qed.

End Operation.

(** ** The operations on the scenarios *)

Section OperationWitnesses.
Import Scenarios.
#[local] Existing Instance decimalRuntime.

(** A second instance, started while the lock is held elsewhere. *)
Lemma startSync_needs_the_lock_witness :
  let s := initialState (storeAt 2 "H2") in
  let run := startSync config contended 5 s in
  run.1 = Ok Stopped /\ run.1 <> Ok StillRunning /\
  store run.2 = store s /\ isRunning run.2 = false /\ observed run.2 = [].
Proof.
  intros s run.
  assert (Hguard : isRunning s = true \/ tryAdvisoryLock contended (clock s) <> Ok true)
    by (right; discriminate).
  destruct (startSync_needs_the_lock contended config 5 s Hguard)
    as (H1 & H2 & H3 & _ & _ & _ & H7).
  split; [ reflexivity | ]. split; [ exact H1 | ]. split; [ exact H2 | ].
  split; [ exact H3 | exact H7 ].
Defined.

(** The engine run on the ledger until it halts at block 3. *)
Lemma startSync_finally_clears_flags_witness :
  let run := startSync config steady 7 (initialState emptyStore) in
  run.1 = Ok Stopped /\ isRunning run.2 = false.
Proof.
  intros run.
  assert (Hend : run.1 = Ok Stopped) by (vm_compute; reflexivity).
  assert (Hnot : run.1 <> Ok StillRunning) by (rewrite Hend; discriminate).
  split; [ exact Hend | ].
  exact (proj1 (startSync_finally_clears_flags steady config 7 (initialState emptyStore)
                  run.2 run.1 eq_refl eq_refl (surjective_pairing run) Hnot)).
Defined.

(** The head of the ledger is at height 4. *)
Lemma never_beyond_head_witness :
  exists obs,
    observed (startSync config steady 7 (initialState emptyStore)).2
    = observed (initialState emptyStore) ++ obs /\
    Forall (fun o => obs_height o <= 4) obs.
Proof.
  apply (never_beyond_head steady config 4 7 (initialState emptyStore)).
  intros t latest H. injection H as <-. lia.
Defined.


(** The first request for the header of block 3 is answered with status
    400. *)
Lemma header_failure_outcomes_witness :
  let s := initialState (storeAt 2 "H2") in
  let run := processBlock (flaky (fun _ => false)) 3 s in
  getBlockByHeight (flaky (fun _ => false)) (clock s) 3 = Throw (HttpError 400) /\
  run.1 = Ok tt /\
  transactions (store run.2) = [] /\
  exists info row,
    blocks (store run.2) !! 3 = Some row /\
    b_hash row = block_id_hash info /\ b_txCount row = 0 /\
    indexerState (store run.2) !! lastIndexedHeightKey = Some "3".
Proof.
  intros s run.
  destruct (header_failure_outcomes (flaky (fun _ => false)) 3 s run.2
              (HttpError 400) run.1 eq_refl (surjective_pairing run))
    as (H1 & _ & _ & _ & _ & _ & Hok).
  assert (Hr : run.1 = Ok tt) by (vm_compute; reflexivity).
  destruct (Hok Hr) as (_ & info & row & _ & H2 & H3 & H4 & H5 & _).
  split; [ reflexivity | ]. split; [ exact Hr | ]. split; [ exact H1 | ].
  exists info, row. auto.
Defined.

(** Block 2 of the ledger while the transaction query is out of order. *)
Lemma failed_transaction_query_stores_empty_block_witness :
  let s := initialState (storeAt 1 "H1") in
  let run := processBlock txQueryDown 2 s in
  run.1 = Ok tt /\
  blocks (store run.2) !! 2 = Some (blockRowOf (blockAt "H2" (Some "H1")) [] noneCollected) /\
  transactions (store run.2) = [] /\
  indexerState (store run.2) !! lastIndexedHeightKey = Some "2".
Proof.
  intros s run.
  assert (Hlinked : Linked 2 (blockAt "H2" (Some "H1")) (store s)).
  { intros expected prev He Hp. vm_compute in He, Hp.
    injection He as <-. injection Hp as <-. reflexivity. }
  destruct (failed_transaction_query_stores_empty_block txQueryDown 2 s
              (blockAt "H2" (Some "H1")) eq_refl Hlinked (fun _ => eq_refl)
              (fun _ => ex_intro _ TransportError eq_refl))
    as (H1 & H2 & _ & H4 & _ & _ & H7 & _).
  split; [ exact H1 | ]. split; [ exact H2 | ]. split; [ exact H4 | exact H7 ].
Defined.

(** Block 2 holds a transaction one of whose messages has no type
    identifier. *)
Lemma unprocessable_block_stops_progress_witness :
  let s := initialState (storeAt 1 "H1") in
  processTransaction (txOf "TX9" [sendMsg; untypedMsg]) 2 "t" = Throw RuntimeError /\
  exists obs,
    store (syncLoop config poisoned 5 s).2 = store s /\
    observed (syncLoop config poisoned 5 s).2 = observed s ++ obs /\
    Forall (fun o => obs_height o = 2 /\
                     (obs_returned o = false \/ obs_stopRequested o = true)) obs.
Proof.
  intros s. split; [ reflexivity | ].
  apply (unprocessable_block_stops_progress poisoned 2).
  - intros t. now exists (blockAt "H2" (Some "H1")).
  - intros t timestamp. now exists RuntimeError.
  - reflexivity.
Defined.

(** Block 2 of the ledger, ingested over block 1: one [block:new] and the
    [tx:new] of its one transaction. *)
Lemma events_only_after_commit_witness :
  let s := initialState (storeAt 1 "H1") in
  let run := processBlock steady 2 s in
  run.1 = Ok tt /\
  map (fun e => match e with
                | BlockNew _ hash _ => hash
                | TxNew x => tx_hash x
                | _ => "custom"
                end) (emitted run.2) = ["H2"; "TX1"] /\
  match run.1 with
  | Throw _ => emitted run.2 = emitted s
  | Ok _ =>
      (emitted run.2 = emitted s /\ store run.2 = store s /\ stopRequested run.2 = true)
      \/
      exists customs hash txCount txs row,
        emitted run.2 = emitted s ++ customs ++ BlockNew 2 hash txCount :: map TxNew txs /\
        Forall (fun e => isCustomEvent e = true) customs /\
        blocks (store run.2) !! 2 = Some row /\
        b_hash row = hash /\ b_txCount row = txCount /\
        indexerState (store run.2) !! lastIndexedHeightKey = Some (toString 2) /\
        exists responses,
          (responses = [] \/
           exists t, (clock s < t <= clock s + 2)%nat /\
                     responses = fetchedTxs (getTxsByHeight steady t 2)) /\
          txCount = Z.of_nat (length responses) /\
          Forall2 (fun tx x => processTransaction tx 2 (b_timestamp row) = Ok x)
                  (List.filter hasHash responses) txs
  end.
Proof.
  intros s run. split; [ vm_compute; reflexivity | ].
  split; [ vm_compute; reflexivity | ].
  exact (events_only_after_commit steady 2 s run.2 run.1 (surjective_pairing run)).
Defined.

End OperationWitnesses.

End SyncFacts.

(** ** Enrichment worker *)

Module EnrichmentFacts.
Import Js Exec Exec.Notations ExecFacts Enrichment.

Section Worker.
Context (w : World).

Lemma decodeApi_run (txByteCode : string) (s : State) :
  decodeZkosTransactionFromApi w txByteCode s =
  match axiosPost w (clock s) txByteCode with
  | Ok body => (Ok (if truthy body then Some body else None), withTick s)
  | Throw _ => (Ok None, withLog FailedToDecodeZkosTransaction (withTick s))
  end.
Proof.
  unfold decodeZkosTransactionFromApi, tryCatch, bind, tick, liftResult. simpl.
  destruct (axiosPost w (clock s) txByteCode) as [ body | e ]; [ | reflexivity ].
  now destruct (truthy body).
Qed.

Lemma dbUpdate_run (recordId : Z) (change : ZkosTransfer -> ZkosTransfer) (s : State) :
  dbUpdate w recordId change s =
  match storeError w (clock s) with
  | Some message => (Throw message, withTick s)
  | None => (Ok tt, withTable (updateRow recordId change (table s)) (withTick s))
  end.
Proof.
  unfold dbUpdate, bind, tick. simpl. now destruct (storeError w (clock s)).
Qed.

(** The run of [processRecord], branch by branch: the update of the [try]
    (the decoded or the null-result one) when the store takes it, and
    otherwise the [catch] with the error of the store. *)
Lemma processRecord_run (record : ZkosTransfer) (s : State) :
  processRecord w record s =
  let s1 := (decodeZkosTransactionFromApi w (txByteCode record) s).2 in
  match storeError w (S (clock s)) with
  | None =>
      (Ok tt, withTable (updateRow (id record) (attemptOf w record (clock s)) (table s))
                (withTick s1))
  | Some err =>
      match storeError w (S (S (clock s))) with
      | None =>
          (Ok tt,
           withLog (ZkosDecodeAttemptFailed (zkTxId record) (decodeAttempts record + 1) err)
             (withTable (updateRow (id record) (decodeFailed record err) (table s))
                (withTick (withTick s1))))
      | Some err' => (Throw err', withTick (withTick s1))
      end
  end.
Proof.
  unfold processRecord, tryCatch. unfold bind at 1. unfold attemptOf.
  rewrite decodeApi_run.
  destruct (axiosPost w (clock s) (txByteCode record)) as [ body | e ]; simpl;
    [ destruct (truthy body) | ];
    rewrite dbUpdate_run; simpl;
    (destruct (storeError w (S (clock s))) as [ err | ]; [ | reflexivity ]);
    unfold bind; rewrite dbUpdate_run; simpl;
    now destruct (storeError w (S (S (clock s)))).
Qed.

(** [decodeZkosTransactionFromApi] never throws and leaves the table alone;
    it returns [null] whenever the request is rejected or [response.data]
    is falsy.  In the worker, a request that is rejected is handled by the
    null-result branch (the attempt is recorded with "Decode API returned
    null"), and the line the [catch] logs can only carry the error of the
    store update, never the failure of the decode API. *)
Theorem decode_failure_takes_null_branch (record : ZkosTransfer) (s : State) :
  (forall txByteCode,
     exists result,
       (decodeZkosTransactionFromApi w txByteCode s).1 = Ok result /\
       table (decodeZkosTransactionFromApi w txByteCode s).2 = table s /\
       (decodeFailsAt w txByteCode (clock s) -> result = None))
  /\
  (forall apiError,
     axiosPost w (clock s) (txByteCode record) = Throw apiError ->
     let s' := (processRecord w record s).2 in
     (storeError w (S (clock s)) = None ->
      (processRecord w record s).1 = Ok tt /\
      table s' = updateRow (id record)
                   (decodeFailed record "Decode API returned null") (table s) /\
      logged s' = logged s ++ [FailedToDecodeZkosTransaction])
     /\
     (forall zk attempt err,
        In (ZkosDecodeAttemptFailed zk attempt err) (logged s') ->
        In (ZkosDecodeAttemptFailed zk attempt err) (logged s) \/
        storeError w (S (clock s)) = Some err)).
Proof.
  split.
  - intros txByteCode. rewrite decodeApi_run. unfold decodeFailsAt.
    destruct (axiosPost w (clock s) txByteCode) as [ body | e ]; simpl.
    + eexists. split; [ reflexivity | ]. split; [ reflexivity | ]. now intros ->.
    + eexists. split; [ reflexivity | ]. split; reflexivity.
  - intros apiError Hapi s'. subst s'. rewrite processRecord_run.
    unfold attemptOf. rewrite decodeApi_run, Hapi. simpl.
    destruct (storeError w (S (clock s))) as [ err | ] eqn:Hstore.
    + split; [ discriminate | ].
      intros zk attempt err0.
      destruct (storeError w (S (S (clock s)))) as [ err' | ]; simpl.
      * intros [ Hin | [ Hin | [] ] ]%in_app_iff; [ now left | discriminate ].
      * intros [ [ Hin | [ Hin | [] ] ]%in_app_iff | [ Hin | [] ] ]%in_app_iff.
        -- now left.
        -- discriminate.
        -- right. congruence.
    + split; [ intros _; simpl; repeat split | ].
      intros zk attempt err0. simpl.
      intros [ Hin | [ Hin | [] ] ]%in_app_iff; [ now left | discriminate ].
Qed.

(** ** Rows and updates *)

Lemma updateRow_ids (i : Z) (g : ZkosTransfer -> ZkosTransfer) (rows : list ZkosTransfer) :
  (forall r, id (g r) = id r) -> map id (updateRow i g rows) = map id rows.
Proof.
  intros Hg. unfold updateRow. rewrite map_map. apply map_ext.
  intros r. now destruct (Z.eqb (id r) i).
Qed.

Lemma updateRow_other (i : Z) (g : ZkosTransfer -> ZkosTransfer)
  (rows : list ZkosTransfer) (r : ZkosTransfer) :
  In r rows -> id r <> i -> In r (updateRow i g rows).
Proof.
  intros Hin Hne. unfold updateRow. apply in_map_iff. exists r.
  split; [ | exact Hin ]. apply Z.eqb_neq in Hne. now rewrite Hne.
Qed.


Lemma attemptOf_id (record : ZkosTransfer) (t : nat) (r : ZkosTransfer) :
  id (attemptOf w record t r) = id r.
Proof.
  unfold attemptOf. destruct (axiosPost w t (txByteCode record)) as [ body | e ];
    [ destruct (truthy body) | ]; reflexivity.
Qed.

Lemma NoDup_map_In_inj {A B} (f : A -> B) (l : list A) (x y : A) :
  List.NoDup (map f l) -> In x l -> In y l -> f x = f y -> x = y.
Proof.
  induction l as [ | a rest IH ]; simpl; [ intros _ [] | ].
  intros Hnd. apply List.NoDup_cons_iff in Hnd as [Ha Hrest].
  intros [ -> | Hx ] [ -> | Hy ] Heq; auto.
  - exfalso. apply Ha. rewrite Heq. now apply in_map.
  - exfalso. apply Ha. rewrite <- Heq. now apply in_map.
Qed.

(** ** [findMany] *)

Lemma findMany_In (rows : list ZkosTransfer) (x : ZkosTransfer) :
  In x (findMany rows) -> In x rows /\ isPending x = true.
Proof.
  unfold findMany. intros Hin.
  apply list_elem_of_In in Hin. apply subseteq_take in Hin.
  rewrite merge_sort_Permutation in Hin. apply list_elem_of_In in Hin.
  now apply filter_In in Hin.
Qed.


Lemma NoDup_ids_filter (p : ZkosTransfer -> bool) (rows : list ZkosTransfer) :
  List.NoDup (map id rows) -> List.NoDup (map id (List.filter p rows)).
Proof.
  induction rows as [ | r rest IH ]; simpl; [ auto | ].
  intros Hnd. apply List.NoDup_cons_iff in Hnd as [Hr Hrest].
  destruct (p r); simpl; [ | auto ].
  constructor; [ | auto ].
  intros Hin. apply Hr. apply in_map_iff in Hin as (y & Hy & Hin).
  apply filter_In in Hin as [Hin _]. rewrite <- Hy. now apply in_map.
Qed.

Lemma findMany_NoDup (rows : list ZkosTransfer) :
  List.NoDup (map id rows) -> List.NoDup (map id (findMany rows)).
Proof.
  intros Hnd. unfold findMany. apply NoDup_ListNoDup.
  change (map id (take BATCH_SIZE ?l)) with (id <$> take BATCH_SIZE l).
  rewrite fmap_take. eapply sublist_NoDup; [ | apply sublist_take ].
  rewrite merge_sort_Permutation. apply NoDup_ListNoDup.
  now apply NoDup_ids_filter.
Qed.

(** ** A batch, with a store that takes every operation *)

Lemma processRecord_reliable (record : ZkosTransfer) (s : State) :
  Reliable w ->
  exists s',
    processRecord w record s = (Ok tt, s') /\
    stopRequested s' = stopRequested s /\
    clock s' = S (S (clock s)) /\
    table s' = updateRow (id record) (attemptOf w record (clock s)) (table s).
Proof.
  intros Hrel. rewrite processRecord_run, Hrel. eexists. split; [ reflexivity | ].
  rewrite decodeApi_run.
  destruct (axiosPost w (clock s) (txByteCode record)); simpl; auto.
Qed.












End Worker.

Section Scenario.

Import WorkerScenarios.


(** Four rejected requests, then an answer: five cycles over one record. *)
Example four_failures_then_success :
  table (enrichmentLoop (recovering 12) 5 (workerState [freshTransfer 1 "0a0b"])).2
  = [ {| id := 1; zkTxId := "zk"; txByteCode := "0a0b";
         decodedData := JObj [("summary", JObj [("program_type", JStr "Transfer")]);
                              ("inputs", JArr []); ("outputs", JArr [])];
         inputs := JArr []; outputs := JArr []; programType := JStr "Transfer";
         decodeStatus := "ok"; decodeAttempts := 5; lastDecodeError := None |} ]
  /\ table (enrichmentLoop (recovering 12) 4 (workerState [freshTransfer 1 "0a0b"])).2
  = [ {| id := 1; zkTxId := "zk"; txByteCode := "0a0b";
         decodedData := JNull; inputs := JNull; outputs := JNull; programType := JNull;
         decodeStatus := "pending"; decodeAttempts := 4;
         lastDecodeError := Some "Decode API returned null" |} ].
Proof. split; reflexivity. Qed.

(** Claim C10 does not hold of an answer that cannot be parsed.  The decode
    API answers the request for a pending record with status 200 and a body
    that is not JSON.  [decodeZkosTransactionFromApi] does not throw, but it
    does not return [null] either: it returns the text of the body.  The
    worker takes the branch of a successful decode: it stores the text as
    decoded data, marks the record ['ok'] with no error, and never selects
    the record again; nothing is logged. *)
Example unparsable_answer_is_marked_ok :
  let record := freshTransfer 1 "0a0b" in
  let s := workerState [record] in
  let run := processRecord unparsable record s in
  axiosPost unparsable (clock s) (txByteCode record) = Ok (JStr "upstream not ready") /\
  (decodeZkosTransactionFromApi unparsable (txByteCode record) s).1
  = Ok (Some (JStr "upstream not ready")) /\
  run.1 = Ok tt /\
  table run.2
  = [ {| id := 1; zkTxId := "zk"; txByteCode := "0a0b";
         decodedData := JStr "upstream not ready";
         inputs := JNull; outputs := JNull; programType := JNull;
         decodeStatus := "ok"; decodeAttempts := 1; lastDecodeError := None |} ] /\
  logged run.2 = [] /\
  findMany (table run.2) = [].
Proof. repeat split; reflexivity. Qed.

End Scenario.
(** ** The worker under any decode API and any store *)

Section AnyWorld.
Context (w : World).

Lemma cycle_returns (s : State) : exists s', cycle w s = (Ok tt, s').
Proof.
  unfold cycle, tryCatch.
  match goal with
  | |- context [let (_, _) := ?m in _] => destruct m as [[ [] | err ] s1]
  end; [ now eexists | ].
  unfold bind, log, modify, sleep, ret. now eexists.
Qed.

Lemma enrichmentLoop_returns (fuel : nat) (s : State) :
  exists loopEnd s', enrichmentLoop w fuel s = (Ok loopEnd, s').
Proof.
  revert s. induction fuel as [ | fuel IH ]; intros s.
  - cbn. now eexists _, _.
  - cbn [enrichmentLoop]. unfold bind at 1. unfold gets at 1.
    destruct (stopRequested s); [ now eexists _, _ | ].
    unfold bind. destruct (cycle_returns s) as (s1 & ->). apply IH.
Qed.

Section Rows.
Context (P : ZkosTransfer -> ZkosTransfer -> Prop).
Context (P_refl : forall r, P r r).
Context (P_trans : forall a b c, P a b -> P b c -> P a c).

Lemma touches_refl (s : State) : Touches P s s.
Proof. unfold Touches. apply Forall_Forall2_diag, Forall_forall. auto. Qed.

Lemma touches_trans (a b c : State) : Touches P a b -> Touches P b c -> Touches P a c.
Proof.
  unfold Touches. generalize (table a) (table b) (table c). clear a b c.
  intros la lb lc H1. revert lc.
  induction H1 as [ | x y la lb Hxy H1 IH ]; intros lc H2; inversion H2; subst.
  - constructor.
  - constructor; [ eapply P_trans; eauto | now apply IH ].
Qed.

Lemma touches_same (s s' : State) : table s' = table s -> Touches P s s'.
Proof. unfold Touches. intros ->. apply Forall_Forall2_diag, Forall_forall. auto. Qed.

Lemma updateRow_touches (i : Z) (g : ZkosTransfer -> ZkosTransfer)
  (rows : list ZkosTransfer) :
  (forall r, id r = i -> P r (g r)) -> Forall2 P rows (updateRow i g rows).
Proof.
  intros Hg. unfold updateRow. apply Forall2_fmap_r, Forall_Forall2_diag, Forall_forall.
  intros r _. unfold compose.
  destruct (Z.eqb (id r) i) eqn:Hi; [ | apply P_refl ].
  apply Hg. now apply Z.eqb_eq.
Qed.

Lemma processRecord_touches (record : ZkosTransfer) :
  Respects P record -> Preserves (Touches P) (processRecord w record).
Proof.
  intros [Hok Hfailed] s r s'. rewrite processRecord_run. cbn zeta.
  assert (Hattempt : forall x, id x = id record -> P x (attemptOf w record (clock s) x)).
  { intros x Hx. unfold attemptOf.
    destruct (axiosPost w (clock s) (txByteCode record)) as [ body | e ];
      [ destruct (truthy body) | ]; auto. }
  assert (Htable : table (decodeZkosTransactionFromApi w (txByteCode record) s).2 = table s).
  { rewrite decodeApi_run. now destruct (axiosPost w (clock s) (txByteCode record)). }
  destruct (storeError w (S (clock s))) as [ err | ].
  - destruct (storeError w (S (S (clock s)))) as [ err' | ]; intros [= <- <-].
    + now apply touches_same.
    + unfold Touches. cbn. apply updateRow_touches. auto.
  - intros [= <- <-]. unfold Touches. cbn. apply updateRow_touches. auto.
Qed.

Lemma processPending_touches (pending : list ZkosTransfer) :
  (forall record, In record pending -> Respects P record) ->
  Preserves (Touches P) (processPending w pending).
Proof.
  induction pending as [ | record rest IH ]; intros Hall.
  - cbn. apply preserves_ret. apply touches_refl.
  - cbn [processPending].
    apply preserves_bind; [ apply touches_trans | apply preserves_gets, touches_refl | ].
    intros [ | ]; [ apply preserves_ret, touches_refl | ].
    apply preserves_bind; [ apply touches_trans | | intros _ ].
    + apply processRecord_touches, Hall. now left.
    + apply IH. intros x Hx. apply Hall. now right.
Qed.

Lemma cycle_touches (s s' : State) (r : Result unit) :
  (forall record, In record (findMany (table s)) -> Respects P record) ->
  cycle w s = (r, s') -> Touches P s s'.
Proof.
  intros Hall. unfold cycle, tryCatch. unfold bind at 1.
  unfold dbFindMany. unfold bind at 1. unfold tick at 1.
  assert (Hlog : forall err (s1 : State),
            table s1 = table s ->
            (log (EnrichmentWorkerError err) ;; sleep POLL_INTERVAL_MS) s1 = (r, s') ->
            Touches P s s').
  { intros err s1 H1 [= <- <-]. now apply touches_same. }
  destruct (storeError w (clock s)) as [ message | ].
  { apply Hlog. reflexivity. }
  unfold gets. cbn [table withTick].
  destruct (Nat.eqb (length (findMany (table s))) 0).
  { intros [= <- <-]. now apply touches_same. }
  destruct (processPending w (findMany (table s)) (withTick s)) as [[ [] | err ] s1] eqn:Hrun;
    pose proof (processPending_touches _ Hall _ _ _ Hrun) as Ht.
  - intros [= <- <-]. exact Ht.
  - intros [= <- <-]. exact Ht.
Qed.

End Rows.

(** The worker survives every failure of the decode API and of the store:
    an iteration of its loop, the loop and [startEnrichment] never throw.
    When the query for pending rows fails, the iteration logs the error and
    leaves the table as it was. *)
Theorem worker_never_throws :
  NeverThrows (cycle w) /\
  (forall fuel, NeverThrows (enrichmentLoop w fuel)) /\
  (forall fuel, NeverThrows (startEnrichment w fuel)) /\
  (forall s message,
     storeError w (clock s) = Some message ->
     exists s',
       cycle w s = (Ok tt, s') /\ table s' = table s /\
       logged s' = logged s ++ [EnrichmentWorkerError message]).
Proof.
  split; [ | split; [ | split ] ].
  - intros s. destruct (cycle_returns s) as (s' & ->). now eexists _, _.
  - intros fuel s. apply enrichmentLoop_returns.
  - intros fuel s. unfold startEnrichment.
    unfold bind at 1. unfold gets at 1.
    destruct (running s); [ now eexists _, _ | ].
    unfold bind at 1. unfold modify at 1. unfold bind at 1. unfold modify at 1.
    unfold bind at 1.
    destruct (enrichmentLoop_returns fuel (withStop false (withRunning true s)))
      as (loopEnd & s1 & ->).
    destruct loopEnd; now eexists _, _.
  - intros s message Hfail. unfold cycle, tryCatch. unfold bind at 1.
    unfold dbFindMany. unfold bind at 1. unfold tick at 1. rewrite Hfail.
    eexists. split; [ reflexivity | ]. split; reflexivity.
Qed.

Lemma sameRecord_refl (r : ZkosTransfer) : SameRecord r r.
Proof. now repeat split. Qed.

Lemma sameRecord_trans (a b c : ZkosTransfer) :
  SameRecord a b -> SameRecord b c -> SameRecord a c.
Proof. unfold SameRecord. intros (? & ? & ?) (? & ? & ?). repeat split; congruence. Qed.

Lemma onlyTouches_refl (ids : list Z) (r : ZkosTransfer) : OnlyTouches ids r r.
Proof. split; [ apply sameRecord_refl | reflexivity ]. Qed.

Lemma onlyTouches_trans (ids : list Z) (a b c : ZkosTransfer) :
  OnlyTouches ids a b -> OnlyTouches ids b c -> OnlyTouches ids a c.
Proof.
  intros [S1 K1] [S2 K2]. split; [ eapply sameRecord_trans; eauto | ].
  intros Hnot. rewrite K2, K1; auto.
  destruct S1 as (Hid & _). rewrite K1 by assumption. exact Hnot.
Qed.

Lemma respects_onlyTouches (ids : list Z) (record : ZkosTransfer) :
  In (id record) ids -> Respects (OnlyTouches ids) record.
Proof.
  intros Hin. split; intros r x Hid; (split; [ now repeat split | ]);
    intros Hnot; exfalso; apply Hnot; now rewrite Hid.
Qed.

Lemma touches_In (P : ZkosTransfer -> ZkosTransfer -> Prop) (s s' : State)
  (r : ZkosTransfer) :
  Touches P s s' -> In r (table s) -> exists r', In r' (table s') /\ P r r'.
Proof.
  unfold Touches. intros H Hin. induction H as [ | x y l k Hxy H IH ]; [ destruct Hin | ].
  destruct Hin as [ -> | Hin ]; [ exists y; split; [ now left | exact Hxy ] | ].
  destruct (IH Hin) as (r' & Hr' & HP). exists r'. split; [ now right | exact HP ].
Qed.

Lemma touches_ids (ids : list Z) (s s' : State) :
  Touches (OnlyTouches ids) s s' -> map id (table s') = map id (table s).
Proof.
  unfold Touches. induction 1 as [ | x y l k [(Hid & _) _] H IH ]; cbn; [ reflexivity | ].
  now rewrite Hid, IH.
Qed.

Lemma cycle_onlyTouches (s s' : State) (r : Result unit) :
  cycle w s = (r, s') ->
  Touches (OnlyTouches (map id (findMany (table s)))) s s'.
Proof.
  apply cycle_touches.
  - apply onlyTouches_refl.
  - apply onlyTouches_trans.
  - intros record Hin. apply respects_onlyTouches. now apply in_map.
Qed.

Lemma touches_weaken (P Q : ZkosTransfer -> ZkosTransfer -> Prop) (s s' : State) :
  (forall r r', In r (table s) -> P r r' -> Q r r') -> Touches P s s' -> Touches Q s s'.
Proof.
  unfold Touches. intros HPQ H. induction H as [ | x y l k Hxy H IH ]; constructor.
  - apply HPQ; [ now left | exact Hxy ].
  - apply IH. intros r r' Hin. apply HPQ. now right.
Qed.

(** The rows that are not pending, by id. *)
Lemma settled_not_selected (rows : list ZkosTransfer) (r : ZkosTransfer) :
  List.NoDup (map id rows) -> In r rows -> isPending r = false ->
  ~ In (id r) (map id (findMany rows)).
Proof.
  intros Hnd Hin Hp (x & Hid & Hx)%in_map_iff.
  apply findMany_In in Hx as [Hx Hpx].
  assert (x = r) as -> by (eapply NoDup_map_In_inj; eauto). congruence.
Qed.

Lemma enrichmentLoop_settled (fuel : nat) (s : State) :
  List.NoDup (map id (table s)) ->
  Touches (fun r r' => SameRecord r r' /\ (isPending r = false -> r' = r))
          s (enrichmentLoop w fuel s).2.
Proof.
  revert s. induction fuel as [ | fuel IH ]; intros s Hnd.
  - cbn. apply touches_refl. intros r. split; [ apply sameRecord_refl | reflexivity ].
  - cbn [enrichmentLoop]. unfold bind at 1. unfold gets at 1.
    destruct (stopRequested s).
    { cbn. apply touches_refl. intros r. split; [ apply sameRecord_refl | reflexivity ]. }
    unfold bind. destruct (cycle w s) as [[ [] | err ] s1] eqn:Hcycle.
    2: { destruct (cycle_returns s) as (s2 & Hs2). congruence. }
    pose proof (cycle_onlyTouches s s1 _ Hcycle) as Hstep.
    assert (Hnd1 : List.NoDup (map id (table s1))).
    { now rewrite (touches_ids _ _ _ Hstep). }
    eapply touches_trans; [ | | apply (IH s1 Hnd1) ].
    + intros a b c [S1 K1] [S2 K2]. split; [ eapply sameRecord_trans; eauto | ].
      intros Hp. rewrite K2, K1; auto. now rewrite K1.
    + eapply touches_weaken; [ | exact Hstep ].
      intros r r' Hin [Hsame Hkeep]. split; [ exact Hsame | ].
      intros Hp. apply Hkeep. now apply settled_not_selected.
Qed.

(** The worker creates and deletes no row and writes the decode columns
    only: after any number of iterations, whatever the decode API and the
    store do, the table holds the same records in the same order, each with
    its id, its [zkTxId] and its byte code; and, ids being unique, a row
    that is no longer pending, because it is ['ok'], ['failed'] or out of
    attempts, is exactly as it was. *)
Theorem settled_rows_are_final (fuel : nat) (s : State) :
  List.NoDup (map id (table s)) ->
  let s' := (enrichmentLoop w fuel s).2 in
  Forall2 SameRecord (table s) (table s') /\
  forall r, In r (table s) -> isPending r = false -> In r (table s').
Proof.
  intros Hnd. cbn zeta. pose proof (enrichmentLoop_settled fuel s Hnd) as Hall.
  split.
  - eapply Forall2_impl; [ exact Hall | ]. now intros r r' [Hsame _].
  - intros r Hin Hp.
    destruct (touches_In _ _ _ r Hall Hin) as (r' & Hr' & _ & Hkeep).
    now rewrite <- (Hkeep Hp).
Qed.

Lemma respects_withinAttempts (record : ZkosTransfer) :
  isPending record = true ->
  Respects (fun r r' => WithinAttempts r -> WithinAttempts r') record.
Proof.
  unfold isPending. intros [_ Hlt%Z.ltb_lt]%andb_true_iff.
  unfold MAX_ATTEMPTS in *.
  split; intros r x _ _; unfold WithinAttempts; cbn; unfold MAX_ATTEMPTS.
  - split; [ lia | ]. split; discriminate.
  - split; [ lia | ]. rewrite Z.geb_leb.
    destruct (5 <=? decodeAttempts record + 1) eqn:Hge;
      [ apply Z.leb_le in Hge | apply Z.leb_gt in Hge ];
      (split; [ | ]); intros H; try discriminate H; lia.
Qed.

(** The retry bound holds of every row, whatever the decode API and the
    store do: if no row has more than 5 attempts, every ['failed'] row has
    exactly 5 and every ['pending'] row fewer than 5, then the same is true
    after any number of iterations of the worker. *)
Theorem attempts_stay_within_bound (fuel : nat) (s : State) :
  Forall WithinAttempts (table s) ->
  Forall WithinAttempts (table (enrichmentLoop w fuel s).2).
Proof.
  revert s. induction fuel as [ | fuel IH ]; intros s Hinv.
  - exact Hinv.
  - cbn [enrichmentLoop]. unfold bind at 1. unfold gets at 1.
    destruct (stopRequested s); [ exact Hinv | ].
    unfold bind. destruct (cycle w s) as [[ [] | err ] s1] eqn:Hcycle.
    2: { destruct (cycle_returns s) as (s2 & Hs2). congruence. }
    apply IH.
    assert (Hstep : Touches (fun r r' => WithinAttempts r -> WithinAttempts r') s s1).
    { eapply cycle_touches; [ | | | exact Hcycle ].
      - auto.
      - auto.
      - intros record Hin. apply respects_withinAttempts.
        now apply findMany_In in Hin. }
    unfold Touches in Hstep. clear Hcycle IH.
    induction Hstep as [ | x y l k Hxy H IHl ]; [ constructor | ].
    apply Forall_cons in Hinv as [Hx Hl]. constructor; auto.
Qed.

(** A decode that succeeded is recorded as a failure when the store rejects
    its update: with the decode API answering and the first update failing,
    the update of the [catch] stores the attempt with the error of the
    store as last error, leaves the decoded data out, and logs the failed
    attempt; and when that update fails too, [processRecord] throws the
    second error and the row is as it was. *)
Theorem store_failure_masks_decode (record : ZkosTransfer) (s : State)
  (decoded : JValue) (err : string) :
  axiosPost w (clock s) (txByteCode record) = Ok decoded ->
  truthy decoded = true ->
  storeError w (S (clock s)) = Some err ->
  let run := processRecord w record s in
  match storeError w (S (S (clock s))) with
  | None =>
      run.1 = Ok tt /\
      table run.2 = updateRow (id record) (decodeFailed record err) (table s) /\
      logged run.2
      = logged s ++ [ZkosDecodeAttemptFailed (zkTxId record)
                       (decodeAttempts record + 1) err]
  | Some err' =>
      run.1 = Throw err' /\ table run.2 = table s /\ logged run.2 = logged s
  end.
Proof.
  intros Hapi Hbody Hfirst. cbn zeta. rewrite processRecord_run, Hfirst.
  rewrite decodeApi_run, Hapi. cbn zeta.
  destruct (storeError w (S (S (clock s)))) as [ err' | ]; cbn; auto.
Qed.

End AnyWorld.

(** ** Draining the backlog *)

Section Backlog.
Context (w : World) (reliable : Reliable w).

Lemma attemptsLeft_pending (row : ZkosTransfer) :
  isPending row = true -> 1 <= attemptsLeft row.
Proof.
  unfold attemptsLeft, isPending. intros H. rewrite H.
  apply andb_true_iff in H as [_ H%Z.ltb_lt]. lia.
Qed.

Lemma attemptsLeft_settled (row : ZkosTransfer) :
  isPending row = false -> attemptsLeft row = 0.
Proof. unfold attemptsLeft, isPending. now intros ->. Qed.

Lemma attemptsLeft_nonneg (row : ZkosTransfer) : 0 <= attemptsLeft row.
Proof.
  destruct (isPending row) eqn:H.
  - pose proof (attemptsLeft_pending row H). lia.
  - rewrite (attemptsLeft_settled row H). lia.
Qed.

Lemma backlog_cons (r : ZkosTransfer) (rows : list ZkosTransfer) :
  backlog (r :: rows) = attemptsLeft r + backlog rows.
Proof. reflexivity. Qed.

Lemma backlog_nonneg (rows : list ZkosTransfer) : 0 <= backlog rows.
Proof.
  induction rows as [ | r rows IH ]; [ cbv; discriminate | ].
  rewrite backlog_cons. pose proof (attemptsLeft_nonneg r). lia.
Qed.

Lemma backlog_zero (rows : list ZkosTransfer) :
  backlog rows = 0 -> Forall (fun r => isPending r = false) rows.
Proof.
  induction rows as [ | r rows IH ]; [ constructor | ].
  rewrite backlog_cons.
  pose proof (attemptsLeft_nonneg r). pose proof (backlog_nonneg rows).
  intros Hzero. constructor; [ | apply IH; lia ].
  destruct (isPending r) eqn:Hp; [ | reflexivity ].
  pose proof (attemptsLeft_pending r Hp). lia.
Qed.

Lemma backlog_settled (rows : list ZkosTransfer) :
  Forall (fun r => isPending r = false) rows -> backlog rows = 0.
Proof.
  induction 1 as [ | r rows Hr Hrows IH ]; [ reflexivity | ].
  rewrite backlog_cons, (attemptsLeft_settled r Hr). lia.
Qed.

Lemma updateRow_absent (i : Z) (g : ZkosTransfer -> ZkosTransfer)
  (rows : list ZkosTransfer) :
  ~ In i (map id rows) -> updateRow i g rows = rows.
Proof.
  unfold updateRow. induction rows as [ | r rows IH ]; cbn; [ reflexivity | ].
  intros Hnot. destruct (Z.eqb (id r) i) eqn:Hi.
  - apply Z.eqb_eq in Hi. destruct Hnot. now left.
  - f_equal. apply IH. intros H. apply Hnot. now right.
Qed.

Lemma backlog_updateRow (g : ZkosTransfer -> ZkosTransfer)
  (rows : list ZkosTransfer) (r : ZkosTransfer) :
  List.NoDup (map id rows) -> In r rows ->
  backlog (updateRow (id r) g rows) = backlog rows - attemptsLeft r + attemptsLeft (g r).
Proof.
  induction rows as [ | x rows IH ]; [ intros _ [] | ].
  intros Hnd Hin. cbn [map] in Hnd. apply List.NoDup_cons_iff in Hnd as [Hx Hnd].
  assert (Hstep : updateRow (id r) g (x :: rows)
                  = (if Z.eqb (id x) (id r) then g x else x) :: updateRow (id r) g rows)
    by reflexivity.
  rewrite Hstep, !backlog_cons.
  destruct Hin as [ -> | Hin ].
  - rewrite Z.eqb_refl. rewrite updateRow_absent by exact Hx. lia.
  - destruct (Z.eqb (id x) (id r)) eqn:Hi.
    + apply Z.eqb_eq in Hi. destruct Hx. rewrite Hi. now apply in_map.
    + rewrite (IH Hnd Hin). lia.
Qed.

Lemma attemptsLeft_attemptOf (r : ZkosTransfer) (t : nat) :
  isPending r = true -> attemptsLeft (attemptOf w r t r) <= attemptsLeft r - 1.
Proof.
  intros Hp. pose proof (attemptsLeft_pending r Hp) as Hpos.
  assert (Hok : forall d, attemptsLeft (decodedOk r d r) = 0) by reflexivity.
  assert (Hfailed : forall m, attemptsLeft (decodeFailed r m r) <= attemptsLeft r - 1).
  { intros m. unfold attemptsLeft at 1. cbn.
    unfold attemptsLeft, isPending in *. rewrite Hp in *.
    apply andb_true_iff in Hp as [_ Hlt%Z.ltb_lt]. unfold MAX_ATTEMPTS in *.
    rewrite Z.geb_leb.
    destruct (5 <=? decodeAttempts r + 1) eqn:Hge; cbn; [ lia | ].
    apply Z.leb_gt in Hge.
    destruct (decodeAttempts r + 1 <? 5) eqn:Hlt'; lia. }
  unfold attemptOf.
  destruct (axiosPost w t (txByteCode r)) as [ body | e ];
    [ destruct (truthy body) | ]; rewrite ?Hok; auto; lia.
Qed.

Lemma processPending_backlog (pending : list ZkosTransfer) (s : State) :
  stopRequested s = false ->
  List.NoDup (map id (table s)) -> List.NoDup (map id pending) ->
  (forall r, In r pending -> In r (table s) /\ isPending r = true) ->
  exists s',
    processPending w pending s = (Ok tt, s') /\
    stopRequested s' = false /\
    map id (table s') = map id (table s) /\
    backlog (table s') <= backlog (table s) - Z.of_nat (length pending).
Proof.
  revert s. induction pending as [ | x rest IH ]; intros s Hstop Hnd Hndp Hall.
  - exists s. cbn. repeat split; auto. lia.
  - cbn [processPending]. unfold bind at 1. unfold gets at 1. rewrite Hstop.
    unfold bind at 1.
    destruct (processRecord_reliable w x s reliable)
      as (s1 & -> & Hstop1 & _ & Htable1).
    apply List.NoDup_cons_iff in Hndp as [Hx Hndrest].
    destruct (Hall x (or_introl eq_refl)) as [Hxin Hxp].
    assert (Hids1 : map id (table s1) = map id (table s)).
    { rewrite Htable1. apply updateRow_ids, attemptOf_id. }
    destruct (IH s1) as (s' & Hrun & Hstop' & Hids & Hless).
    + congruence.
    + now rewrite Hids1.
    + exact Hndrest.
    + intros r Hr. destruct (Hall r (or_intror Hr)) as [Hrin Hrp].
      split; [ | exact Hrp ]. rewrite Htable1. apply updateRow_other; [ exact Hrin | ].
      intros Heq. apply Hx. rewrite <- Heq. now apply in_map.
    + exists s'. split; [ exact Hrun | ]. split; [ exact Hstop' | ].
      split; [ congruence | ].
      rewrite Htable1, (backlog_updateRow _ _ x Hnd Hxin) in Hless.
      pose proof (attemptsLeft_attemptOf x (clock s) Hxp).
      cbn [length]. lia.
Qed.

Lemma findMany_nil (rows : list ZkosTransfer) :
  findMany rows = [] -> Forall (fun r => isPending r = false) rows.
Proof.
  unfold findMany. intros Hnil. apply Forall_forall. intros r Hr.
  apply list_elem_of_In in Hr.
  destruct (isPending r) eqn:Hp; [ exfalso | reflexivity ].
  assert (Hin : r ∈ merge_sort idAsc (List.filter isPending rows)).
  { rewrite merge_sort_Permutation. apply list_elem_of_In, filter_In. auto. }
  destruct (merge_sort idAsc (List.filter isPending rows)) as [ | y l ];
    [ inversion Hin | discriminate Hnil ].
Qed.

Lemma cycle_backlog (s : State) :
  stopRequested s = false -> List.NoDup (map id (table s)) ->
  exists s',
    cycle w s = (Ok tt, s') /\
    stopRequested s' = false /\
    map id (table s') = map id (table s) /\
    (backlog (table s') <= backlog (table s) - 1 \/
     backlog (table s) = 0 /\ table s' = table s).
Proof.
  intros Hstop Hnd. unfold cycle, tryCatch. unfold bind at 1.
  unfold dbFindMany. unfold bind at 1. unfold tick at 1. rewrite reliable.
  unfold gets. cbn [table withTick].
  destruct (findMany (table s)) as [ | x pending ] eqn:Hfind.
  - cbn. eexists. split; [ reflexivity | ]. split; [ exact Hstop | ].
    split; [ reflexivity | ]. right. split; [ | reflexivity ].
    now apply backlog_settled, findMany_nil.
  - cbn [length Nat.eqb].
    destruct (processPending_backlog (x :: pending) (withTick s))
      as (s' & -> & Hstop' & Hids & Hless).
    + exact Hstop.
    + exact Hnd.
    + rewrite <- Hfind. now apply findMany_NoDup.
    + intros r Hr. rewrite <- Hfind in Hr. now apply findMany_In.
    + exists s'. split; [ reflexivity | ]. split; [ exact Hstop' | ].
      split; [ exact Hids | ]. left. cbn [table withTick length] in Hless. lia.
Qed.

Lemma enrichmentLoop_backlog (n : nat) (s : State) :
  stopRequested s = false -> List.NoDup (map id (table s)) ->
  backlog (table (enrichmentLoop w n s).2) <= Z.max 0 (backlog (table s) - Z.of_nat n).
Proof.
  revert s. induction n as [ | n IH ]; intros s Hstop Hnd.
  - cbn. pose proof (backlog_nonneg (table s)). lia.
  - cbn [enrichmentLoop]. unfold bind at 1. unfold gets at 1. rewrite Hstop.
    unfold bind.
    destruct (cycle_backlog s Hstop Hnd) as (s1 & -> & Hstop1 & Hids & Hless).
    assert (Hnd1 : List.NoDup (map id (table s1))) by now rewrite Hids.
    specialize (IH s1 Hstop1 Hnd1).
    destruct Hless as [ Hless | [Hzero Hsame] ]; [ lia | ].
    rewrite Hsame in IH. lia.
Qed.

(** With a store that takes every operation and unique ids, the worker
    drains any backlog, however many rows are pending: every iteration that
    finds a pending row uses up at least one of the attempts that are left,
    so that after as many iterations as there are attempts left in the table
    (at most 5 per pending row) no row is pending any more. *)
Theorem backlog_is_drained (n : nat) (s : State) :
  stopRequested s = false -> List.NoDup (map id (table s)) ->
  backlog (table s) <= Z.of_nat n ->
  Forall (fun r => isPending r = false) (table (enrichmentLoop w n s).2).
Proof.
  intros Hstop Hnd Hn. apply backlog_zero.
  pose proof (enrichmentLoop_backlog n s Hstop Hnd).
  pose proof (backlog_nonneg (table (enrichmentLoop w n s).2)). lia.
Qed.

End Backlog.

(** ** The query for pending rows *)

Lemma idAsc_transitive : Transitive idAsc.
Proof. unfold idAsc. intros a b c. lia. Qed.

Lemma idAsc_total : Total idAsc.
Proof. unfold idAsc. intros a b. lia. Qed.

(** [findMany] selects the oldest pending rows: at most [BATCH_SIZE] of
    them, all pending rows of the table with attempts left, in ascending
    order of id; every pending row left out has an id no smaller than the
    ids of the rows selected, and none is left out when the pending rows
    are no more than [BATCH_SIZE]. *)
Theorem findMany_oldest_first (rows : list ZkosTransfer) :
  let selected := findMany rows in
  (length selected <= BATCH_SIZE)%nat /\
  StronglySorted idAsc selected /\
  (forall r, In r selected -> In r rows /\ isPending r = true) /\
  (forall r x, In r rows -> isPending r = true -> ~ In r selected ->
               In x selected -> id x <= id r) /\
  ((length (List.filter isPending rows) <= BATCH_SIZE)%nat ->
   forall r, In r rows -> isPending r = true -> In r selected).
Proof.
  cbn zeta. unfold findMany.
  pose proof (@StronglySorted_merge_sort _ idAsc _ idAsc_transitive idAsc_total
                (List.filter isPending rows)) as Hsorted.
  pose proof (merge_sort_Permutation idAsc (List.filter isPending rows)) as Hperm.
  set (sorted := merge_sort idAsc (List.filter isPending rows)) in *.
  rewrite <- (take_drop BATCH_SIZE sorted) in Hsorted.
  split; [ rewrite length_take; lia | ].
  split; [ now apply StronglySorted_app_1_l in Hsorted | ].
  split; [ | split ].
  - intros r Hin. apply list_elem_of_In in Hin. apply subseteq_take in Hin.
    rewrite Hperm in Hin. apply list_elem_of_In in Hin. now apply filter_In in Hin.
  - intros r x Hr Hp Hnot Hx.
    assert (Hin : r ∈ sorted).
    { rewrite Hperm. apply list_elem_of_In, filter_In. auto. }
    rewrite <- (take_drop BATCH_SIZE sorted) in Hin.
    apply elem_of_app in Hin as [ Hin | Hin ];
      [ now apply list_elem_of_In in Hin | ].
    apply list_elem_of_In in Hx.
    exact (StronglySorted_app_1_elem_of idAsc _ _ x r Hsorted Hx Hin).
  - intros Hlen r Hr Hp. rewrite take_ge.
    + apply list_elem_of_In. rewrite Hperm. apply list_elem_of_In, filter_In. auto.
    + subst sorted. now rewrite Hperm.
Qed.

(** ** The worker on the scenarios *)

Section AnyWorldScenario.
Import WorkerScenarios.

(** A settled row next to a record whose decode always fails. *)
Lemma settled_rows_are_final_witness :
  let settled := {| id := 1; zkTxId := "zk1"; txByteCode := "0a0b";
                    decodedData := JObj [("tx_type", JStr "Transfer")];
                    inputs := JArr []; outputs := JArr [];
                    programType := JStr "Transfer";
                    decodeStatus := "ok"; decodeAttempts := 1;
                    lastDecodeError := None |} in
  let s := workerState [settled; freshTransfer 2 "ffff"] in
  let s' := (enrichmentLoop (rejecting "ffff") 7 s).2 in
  isPending settled = false /\
  Forall2 SameRecord (table s) (table s') /\
  In settled (table s').
Proof.
  intros settled s s'.
  assert (Hnd : List.NoDup (map id (table s))).
  { cbn. repeat constructor; cbn; intuition discriminate. }
  destruct (settled_rows_are_final (rejecting "ffff") 7 s Hnd) as [Hsame Hkeep].
  split; [ reflexivity | ]. split; [ exact Hsame | ].
  apply Hkeep; [ now left | reflexivity ].
Defined.

(** Two fresh records, one of which never decodes. *)
Lemma attempts_stay_within_bound_witness :
  let s := workerState [freshTransfer 1 "0a0b"; freshTransfer 2 "ffff"] in
  Forall WithinAttempts (table s) /\
  Forall WithinAttempts (table (enrichmentLoop (rejecting "ffff") 7 s).2).
Proof.
  intros s.
  assert (Hfresh : Forall WithinAttempts (table s)).
  { cbn. repeat constructor; cbn; unfold MAX_ATTEMPTS; first [ lia | discriminate | auto ].
    all: intros _; lia. }
  split; [ exact Hfresh | ].
  exact (attempts_stay_within_bound (rejecting "ffff") 7 s Hfresh).
Defined.

(** The decode API answers, and the store rejects the update that
    follows. *)
Lemma store_failure_masks_decode_witness :
  let record := freshTransfer 1 "0a0b" in
  let s := workerState [record] in
  let run := processRecord (storeDownAt 1) record s in
  run.1 = Ok tt /\
  table run.2 = [ {| id := 1; zkTxId := "zk"; txByteCode := "0a0b";
                     decodedData := JNull; inputs := JNull; outputs := JNull;
                     programType := JNull;
                     decodeStatus := "pending"; decodeAttempts := 1;
                     lastDecodeError := Some "deadlock detected" |} ] /\
  logged run.2 = [ZkosDecodeAttemptFailed "zk" 1 "deadlock detected"].
Proof.
  intros record s run.
  exact (store_failure_masks_decode (storeDownAt 1) record s
           (JObj [("tx_type", JStr "Transfer")]) "deadlock detected"
           eq_refl eq_refl eq_refl).
Defined.

(** Two fresh records, one of which never decodes: ten attempts are left. *)
Lemma backlog_is_drained_witness :
  let s := workerState [freshTransfer 1 "0a0b"; freshTransfer 2 "ffff"] in
  Reliable (rejecting "ffff") /\
  backlog (table s) = 10 /\
  Forall (fun r => isPending r = false) (table (enrichmentLoop (rejecting "ffff") 10 s).2).
Proof.
  intros s.
  assert (Hreliable : Reliable (rejecting "ffff")) by (intros t; reflexivity).
  assert (Hnd : List.NoDup (map id (table s))).
  { cbn. repeat constructor; cbn; intuition discriminate. }
  split; [ exact Hreliable | ]. split; [ reflexivity | ].
  apply (backlog_is_drained (rejecting "ffff") Hreliable 10 s eq_refl Hnd).
  cbv. discriminate.
Defined.

End AnyWorldScenario.

End EnrichmentFacts.
